(** * poincare: mapping of Stokes trajectories onto the Poincare sphere

    A shallow embedding of the trajectory part of [poincare.c]: the
    visibility test, the screen projection, the two sweeps that cut a
    trajectory into hidden and visible sub-trajectories, the scanner of the
    trajectory file and the two passes of [main]; beside these,
    [strip_away_path], which forms the name of the program, and
    [scan_for_boundingbox], which reads the size of the generated image.

    Conventions of the embedding.
    - [double] and [float] values are real numbers ([R]), and [cos], [sin]
      and [sqrt] are the real functions: rounding, infinities and NaN are
      outside the model.  The values that [visible] and
      [get_screen_coordinates] compute are therefore those of exact
      arithmetic; the program's doubles differ from them by rounding, and
      the sign test of [visible] can differ for a point on the boundary
      between the two hemispheres.  The properties below state the value
      of a computed double only where the arithmetic of the program is exact
      as well: for samples made of 0, 1 and -1 under both angles 0, and for
      the sample (0,0,0).  Every other property is about the structure of
      what is scanned and written.
    - A [long] has 64 bits.
    - [long], [int] and [short] values are integers ([Z]); none of the
      counters of the modelled code leaves the range of its C type before an
      array bound is crossed, so no wrap-around is written out.
    - The arrays of [stoketraject] are allocated with index range
      [1..MAX]; they are total maps from [Z], and every access the code can
      make outside the allocated and initialised range ends the run with
      [Fault].
    - [exit(c)] ends the run with [Exit c].
    - Only what is written to the MetaPost output file is kept; messages on
      [stdout] and [stderr], and the line counter that only feeds them, are
      dropped. *)

From Stdlib Require Import ZArith List Bool Ascii String Lia Reals Lra.
From Stdlib Require Import Sorted.
Import ListNotations.

Local Open Scope Z_scope.

(** ** Outcomes of a run *)

Inductive outcome (A : Type) : Type :=
| Ret (a : A)          (* the routine returned *)
| Exit (code : Z)      (* exit(code) was called *)
| Fault                (* access outside an array, or use of an unset object *)
| OutOfFuel.           (* the loop bound of the model was reached *)

Arguments Ret {A} a.
Arguments Exit {A} code.
Arguments Fault {A}.
Arguments OutOfFuel {A}.

Definition bind {A B : Type} (m : outcome A) (f : A -> outcome B) : outcome B :=
  match m with
  | Ret a => f a
  | Exit c => Exit c
  | Fault => Fault
  | OutOfFuel => OutOfFuel
  end.

Notation "x <- m ;; f" := (bind m (fun x => f))
  (at level 61, m at next level, right associativity).
Notation "' p <- m ;; f" := (bind m (fun p => f))
  (at level 61, p pattern, m at next level, right associativity).

(** ** Constants of the program *)

Definition MAX_NUM_STOKE_COORDS : Z := 5000.
Definition MAX_NUM_TICKMARKS : Z := MAX_NUM_STOKE_COORDS / 10.
Definition MAX_NUM_LABELS : Z := MAX_NUM_TICKMARKS / 10.
Definition MAX_LABEL_TEXTLENGTH : Z := 256.

Definition SUCCESS : Z := 0.
Definition FAILURE : Z := 1.

Definition NOLABEL : Z := 0.
Definition TOPLABEL : Z := 1.
Definition UPPERLEFTLABEL : Z := 2.
Definition LEFTLABEL : Z := 3.
Definition LOWERLEFTLABEL : Z := 4.
Definition BOTTOMLABEL : Z := 5.
Definition LOWERRIGHTLABEL : Z := 6.
Definition RIGHTLABEL : Z := 7.
Definition UPPERRIGHTLABEL : Z := 8.

Definition HIDDEN : Z := 0.
Definition VISIBLE : Z := 1.

(** ** Data *)

(** The fields of [pmap] that the modelled routines read. *)
Record pmap : Type := mkpmap {
  use_normalized_stokes_params : Z;
  use_bezier_curves : Z;
  user_specified_inputfile : Z;
  draw_hidden_dashed : Z;
  draw_paths_as_arrows : Z;
  reverse_arrow_paths : Z;
  rot_psi : R;
  rot_phi : R;
  hiddengraytone : R;
  paththickness : R;
  arrowheadangle : R
}.

Record stoketraject : Type := mkst {
  numcoords : Z;
  s1 : Z -> R;
  s2 : Z -> R;
  s3 : Z -> R;
  visible_ : Z -> Z;             (* the array [visible] *)
  numtickmarks : Z;
  tickmark : Z -> Z;
  numlabels : Z;
  label : Z -> Z;
  labeltext : Z -> list ascii;   (* labeltext[k][1..labellength[k]] *)
  labellength : Z -> Z;
  labelpos : Z -> Z
}.

(** [a[k] = v] on an array held as a map. *)
Definition upd {A : Type} (a : Z -> A) (k : Z) (v : A) : Z -> A :=
  fun i => if i =? k then v else a i.

(** The index list of [for (k=a;k<=b;k++)]. *)
Definition Zrange (a b : Z) : list Z :=
  map (fun i => a + Z.of_nat i) (seq 0 (Z.to_nat (b - a + 1))).

(** ** The visibility test and the projection

    Both routines in exact arithmetic: [visible] tests the exact scalar
    where the program tests the double it computed, and
    [get_screen_coordinates] returns the exact values where the program
    returns rounded ones.  With normalisation on and a sample (0,0,0) the
    program divides 0.0 by 0.0 and returns NaN, which the model does not
    have. *)

Definition visible (s1 s2 s3 : R) (map : pmap) : Z :=
  let vprod := (s1 * cos (rot_psi map) * cos (rot_phi map)
                - s2 * sin (rot_psi map) * cos (rot_phi map)
                + s3 * sin (rot_phi map))%R in
  if Rge_dec vprod 0 then 1 else 0.

Definition get_screen_coordinates (s1 s2 s3 : R) (map : pmap) : R * R :=
  let x := (s1 * sin (rot_psi map) + s2 * cos (rot_psi map))%R in
  let y := (- s1 * cos (rot_psi map) * sin (rot_phi map)
            + s2 * sin (rot_psi map) * sin (rot_phi map)
            + s3 * cos (rot_phi map))%R in
  if use_normalized_stokes_params map =? 0 then (x, y)
  else
    let snorm := sqrt (s1 * s1 + s2 * s2 + s3 * s3) in
    ((x / snorm)%R, (y / snorm)%R).

Definition point_just_became_hidden (st : stoketraject) (k : Z) : outcome Z :=
  if k =? 1 then
    if visible_ st k =? 0 then Ret 1 else Ret 0
  else if (2 <=? k) && (k <=? numcoords st) then
    if (visible_ st k =? 0) && (visible_ st (k - 1) =? 1) then Ret 1 else Ret 0
  else Exit 1.

Definition point_just_became_visible (st : stoketraject) (k : Z) : outcome Z :=
  if k =? 1 then
    if visible_ st k =? 1 then Ret 1 else Ret 0
  else if (2 <=? k) && (k <=? numcoords st) then
    if (visible_ st k =? 1) && (visible_ st (k - 1) =? 0) then Ret 1 else Ret 0
  else Exit 1.

(** [sort_out_visible_and_hidden]: the loop sets [visible[k]] for
    [k = 1..numcoords]. *)
Definition set_visible (st : stoketraject) (v : Z -> Z) : stoketraject :=
  mkst (numcoords st) (s1 st) (s2 st) (s3 st) v (numtickmarks st) (tickmark st)
       (numlabels st) (label st) (labeltext st) (labellength st) (labelpos st).

Definition sort_out_visible_and_hidden (st : stoketraject) (map : pmap)
  : stoketraject :=
  fold_left
    (fun st k =>
       if visible (s1 st k) (s2 st k) (s3 st k) map =? 0
       then set_visible st (upd (visible_ st) k 0)
       else set_visible st (upd (visible_ st) k 1))
    (Zrange 1 (numcoords st)) st.

(** ** The MetaPost output *)

(** How a path is stroked: [draw p], [drawarrow p] or [drawarrow reverse p]. *)
Inductive drawcmd : Type := Draw | DrawArrow | DrawArrowReverse.

(** The colour suffix of a stroke. *)
Inductive stroke : Type :=
| DashedBlack            (* dashed evenly withcolor black *)
| GrayTone (g : R)       (* withcolor g [black,white] *)
| Black                  (* withcolor black *)
| Plain.                 (* no suffix *)

(** One statement (or statement pair) written to the output file.  The
    line breaks that [add_subtrajectory] inserts after every
    [NUM_COORDS_PER_METAPOST_LINE] points are layout only and are not kept. *)
Inductive primitive : Type :=
| PickupPen (t : R)
    (* pickup pencircle scaled t pt; *)
| SubPath (type : string) (bezier : Z) (pts : list (R * R))
          (cmd : drawcmd) (col : stroke)
    (* p := makepath makepen (x1,y1)--(x2,y2)...; draw p scaled radius ...; *)
| TickPath (xa ya xb yb : R)
    (* p:=makepath makepen (xa,ya)--(xb,yb); *)
| TickDraw (col : stroke)
    (* draw p scaled radius ...; for a tick mark *)
| TextLabel (pos : Z) (text : list ascii) (x y : R)
    (* label.pos(btex text etex,(x,y)*radius); *)
| SaveAhangle
    (* oldahangle:=ahangle; *)
| SetAhangle (a : R)
    (* ahangle:=a; *)
| RestoreAhangle
    (* ahangle:=oldahangle; *)
| Block (name : string).
    (* the output of one of the writers of [main] that are not modelled *)

(** A routine that writes to the output file: what it wrote, and how it
    ended. *)
Definition W (A : Type) : Type := (list primitive * outcome A)%type.

Definition wret {A : Type} (a : A) : W A := ([], Ret a).

Definition emit (l : list primitive) : W unit := (l, Ret tt).

Definition lift {A : Type} (m : outcome A) : W A := ([], m).

Definition wbind {A B : Type} (m : W A) (f : A -> W B) : W B :=
  match m with
  | (l, Ret a) => let (l', r) := f a in (l ++ l', r)
  | (l, Exit c) => (l, Exit c)
  | (l, Fault) => (l, Fault)
  | (l, OutOfFuel) => (l, OutOfFuel)
  end.

Notation "x <~ m ;; f" := (wbind m (fun x => f))
  (at level 61, m at next level, right associativity).
Notation "' p <~ m ;; f" := (wbind m (fun p => f))
  (at level 61, p pattern, m at next level, right associativity).
Notation "m ;;; f" := (wbind m (fun _ => f))
  (at level 61, right associativity).

(** [for] over a list of indices, stopping at the first iteration that does
    not return. *)
Fixpoint wfor {A : Type} (l : list A) (body : A -> W unit) : W unit :=
  match l with
  | [] => wret tt
  | a :: l' => body a ;;; wfor l' body
  end.

(** ** Sub-trajectories *)

Definition add_subtrajectory (st : stoketraject) (ka kb : Z) (map : pmap)
           (type : string) : list primitive :=
  PickupPen (paththickness map) ::
  (if ka <? kb then
     [SubPath type (use_bezier_curves map)
        (List.map (fun k => get_screen_coordinates (s1 st k) (s2 st k) (s3 st k) map)
                  (Zrange ka kb))
        (if (kb =? numcoords st) && negb (draw_paths_as_arrows map =? 0) then
           if negb (reverse_arrow_paths map =? 0) then DrawArrowReverse
           else DrawArrow
         else Draw)
        (if String.eqb type "hidden" then
           if negb (draw_hidden_dashed map =? 0) then DashedBlack
           else GrayTone (hiddengraytone map)
         else Black)]
   else []).

(** The inner [while] of [add_hidden_subtrajectories]; it returns the final
    [k] and [kb]. *)
Fixpoint hidden_inner (fuel : nat) (st : stoketraject) (k ka kb : Z)
  : outcome (Z * Z) :=
  match fuel with
  | O => OutOfFuel
  | S fuel' =>
    if (k <=? numcoords st) && (kb <? ka) then
      b <- point_just_became_visible st k ;;
      if b =? 0 then hidden_inner fuel' st (k + 1) ka kb
      else hidden_inner fuel' st k ka (k - 1)
    else Ret (k, kb)
  end.

(** The outer [while] of [add_hidden_subtrajectories].  The loop only reads
    [st]; the pairs [(ka,kb)] with which it calls [add_subtrajectory] are
    collected in order, together with the way the loop ended. *)
Fixpoint hidden_outer (fuel : nat) (st : stoketraject) (k : Z)
  : list (Z * Z) * outcome unit :=
  match fuel with
  | O => ([], OutOfFuel)
  | S fuel' =>
    if k <=? numcoords st then
      match point_just_became_hidden st k with
      | Ret b =>
        if b =? 0 then hidden_outer fuel' st (k + 1)
        else
          let ka := k in
          let kb := ka - 1 in
          match hidden_inner (S (S (Z.to_nat (numcoords st)))) st k ka kb with
          | Ret (k', _) =>
            let kb := k' - 1 in
            let (runs, r) := hidden_outer fuel' st (k' + 1) in
            ((ka, kb) :: runs, r)
          | Exit c => ([], Exit c)
          | Fault => ([], Fault)
          | OutOfFuel => ([], OutOfFuel)
          end
      | Exit c => ([], Exit c)
      | Fault => ([], Fault)
      | OutOfFuel => ([], OutOfFuel)
      end
    else ([], Ret tt)
  end.

(** The hidden sub-trajectories [(ka,kb)] found by the sweep, from [k=1]. *)
Definition hidden_runs (st : stoketraject) : list (Z * Z) * outcome unit :=
  hidden_outer (S (Z.to_nat (numcoords st))) st 1.

Definition add_hidden_subtrajectories (st : stoketraject) (map : pmap) : W unit :=
  let (runs, r) := hidden_runs st in
  (flat_map (fun '(ka, kb) => add_subtrajectory st ka kb map "hidden") runs, r).

Fixpoint visible_inner (fuel : nat) (st : stoketraject) (k ka kb : Z)
  : outcome (Z * Z) :=
  match fuel with
  | O => OutOfFuel
  | S fuel' =>
    if (k <=? numcoords st) && (kb <? ka) then
      b <- point_just_became_hidden st k ;;
      if b =? 0 then visible_inner fuel' st (k + 1) ka kb
      else visible_inner fuel' st k ka (k - 1)
    else Ret (k, kb)
  end.

(** The outer [while] of [add_visible_subtrajectories]: the pairs [(ka,kb)]
    it finds, before they are widened. *)
Fixpoint visible_outer (fuel : nat) (st : stoketraject) (k : Z)
  : list (Z * Z) * outcome unit :=
  match fuel with
  | O => ([], OutOfFuel)
  | S fuel' =>
    if k <=? numcoords st then
      match point_just_became_visible st k with
      | Ret b =>
        if b =? 0 then visible_outer fuel' st (k + 1)
        else
          let ka := k in
          let kb := ka - 1 in
          match visible_inner (S (S (Z.to_nat (numcoords st)))) st k ka kb with
          | Ret (k', _) =>
            let kb := k' - 1 in
            let (runs, r) := visible_outer fuel' st (k' + 1) in
            ((ka, kb) :: runs, r)
          | Exit c => ([], Exit c)
          | Fault => ([], Fault)
          | OutOfFuel => ([], OutOfFuel)
          end
      | Exit c => ([], Exit c)
      | Fault => ([], Fault)
      | OutOfFuel => ([], OutOfFuel)
      end
    else ([], Ret tt)
  end.

Definition visible_runs (st : stoketraject) : list (Z * Z) * outcome unit :=
  visible_outer (S (Z.to_nat (numcoords st))) st 1.

(** [if (ka>1) ka--; if (kb<numcoords) kb++;] *)
Definition widen (st : stoketraject) (r : Z * Z) : Z * Z :=
  let (ka, kb) := r in
  let ka := if ka >? 1 then ka - 1 else ka in
  let kb := if kb <? numcoords st then kb + 1 else kb in
  (ka, kb).

Definition add_visible_subtrajectories (st : stoketraject) (map : pmap) : W unit :=
  let (runs, r) := visible_runs st in
  (flat_map (fun run => let (ka, kb) := widen st run in
                        add_subtrajectory st ka kb map "visible") runs, r).

(** ** The trajectory file

    The file is the list of its characters.  [getc] answers the code of the
    next character or [EOF]; [ungetc] puts a character back. *)

Definition stream : Type := list ascii.

Definition EOF : Z := -1.

Definition code (c : ascii) : Z := Z.of_nat (nat_of_ascii c).

Definition newline : ascii := "010"%char.
Definition quote_mark : ascii := "034"%char.

Definition getc (s : stream) : Z * stream :=
  match s with
  | [] => (EOF, [])
  | c :: r => (code c, r)
  end.

Definition ungetc (ch : Z) (s : stream) : stream :=
  if ch =? EOF then s else ascii_of_nat (Z.to_nat ch) :: s.

Definition isdigit (ch : Z) : bool := (code "0" <=? ch) && (ch <=? code "9").

Definition isalnum (ch : Z) : bool :=
  isdigit ch
  || ((code "A" <=? ch) && (ch <=? code "Z"))
  || ((code "a" <=? ch) && (ch <=? code "z")).

(** The white-space characters of the C locale: space, and the codes 9..13. *)
Definition isspace (ch : Z) : bool :=
  (ch =? code " ") || ((9 <=? ch) && (ch <=? 13)).

(** The leading white space of the input, dropped. *)
Fixpoint skip_space (s : stream) : stream :=
  match s with
  | [] => []
  | c :: r => if isspace (code c) then skip_space r else s
  end.

(** The characters up to the next white space, and what follows them. *)
Fixpoint take_word (s : stream) : list ascii * stream :=
  match s with
  | [] => ([], [])
  | c :: r =>
    if isspace (code c) then ([], s)
    else let (w, r') := take_word r in (c :: w, r')
  end.

(** The conversion [%s] of [fscanf]: white space is skipped and the
    following run of characters up to the next white space is stored.  The
    answer is [EOF] when the input ends before a character is stored, and 1
    otherwise. *)
Definition fscanf_s (s : stream) : Z * string * stream :=
  match skip_space s with
  | [] => (EOF, EmptyString, [])
  | s' => let (w, r) := take_word s' in (1, string_of_list_ascii w, r)
  end.

(** The leading digits of the input appended to the numeral [acc], their
    number added to [n], and what follows them. *)
Fixpoint take_digits (s : stream) (acc : Z) (n : Z) : Z * Z * stream :=
  match s with
  | [] => (acc, n, [])
  | c :: r =>
    if isdigit (code c) then take_digits r (10 * acc + (code c - code "0")) (n + 1)
    else (acc, n, s)
  end.

(** The conversion [%f] of [fscanf] on decimal numerals: white space is
    skipped, then an optional sign, digits, and an optional point with more
    digits are read.  The answer is [EOF] at the end of the input, 0 when no
    digit is found, and 1 with the value otherwise.  Exponents, hexadecimal
    numerals, [inf] and [nan] are not read by this scanner, and the value is
    the exact decimal where the C library stores the nearest [float]. *)
Definition fscanf_f_decimal (s : stream) : Z * R * stream :=
  match skip_space s with
  | [] => (EOF, 0%R, [])
  | c :: r =>
    let '(neg, s1) :=
      if code c =? code "-" then (true, r)
      else if code c =? code "+" then (false, r)
      else (false, c :: r) in
    let '(m, n, s2) := take_digits s1 0 0 in
    let '(m, nf, nd, s3) :=
      match s2 with
      | c' :: r' =>
        if code c' =? code "." then
          let '(m', n', s3) := take_digits r' m 0 in (m', n', n + n', s3)
        else (m, 0, n, s2)
      | [] => (m, 0, n, s2)
      end in
    if nd =? 0 then (0, 0%R, s3)
    else (1, (IZR (if neg then - m else m) / IZR (10 ^ nf))%R, s3)
  end.

(** The six one-character tests of the scanner. *)
Definition next_is (m : ascii) (s : stream) : Z * stream :=
  let (ch, s') := getc s in
  if ch =? code m then (1, s') else (0, ungetc ch s').

Definition new_trajectory : stream -> Z * stream := next_is "p".
Definition end_of_trajectory : stream -> Z * stream := next_is "q".
Definition beginlabel : stream -> Z * stream := next_is "b".
Definition tickmark_ : stream -> Z * stream := next_is "t".
Definition tickmarklabel : stream -> Z * stream := next_is "l".
Definition endlabel : stream -> Z * stream := next_is "e".

(** [while (((ch=getc(infileptr))!='\n')&&(ch!=EOF));] *)
Fixpoint skip_line (s : stream) : stream :=
  match s with
  | [] => []
  | c :: r => if code c =? code newline then r else skip_line r
  end.

Fixpoint readaway_loop (fuel : nat) (s : stream) : outcome stream :=
  match fuel with
  | O => OutOfFuel
  | S fuel' =>
    let (ch, s') := getc s in
    if negb (isalnum ch || (ch =? code "-") || (ch =? code "+")) && negb (ch =? EOF)
    then
      if ch =? code newline then readaway_loop fuel' s'
      else if ch =? code "%" then readaway_loop fuel' (skip_line s')
      else readaway_loop fuel' s'
    else Ret (if negb (ch =? EOF) then ungetc ch s' else s')
  end.

(** Every turn of the loop reads a character, so the length of the input
    bounds the turns. *)
Definition readaway_comments_and_blanks (s : stream) : outcome stream :=
  readaway_loop (S (List.length s)) s.

(** ** Scanning labels *)

Definition set_numcoords (st : stoketraject) (n : Z) : stoketraject :=
  mkst n (s1 st) (s2 st) (s3 st) (visible_ st) (numtickmarks st) (tickmark st)
       (numlabels st) (label st) (labeltext st) (labellength st) (labelpos st).

Definition set_triplet (st : stoketraject) (k : Z) (v1 v2 v3 : R) : stoketraject :=
  mkst (numcoords st) (upd (s1 st) k v1) (upd (s2 st) k v2) (upd (s3 st) k v3)
       (visible_ st) (numtickmarks st) (tickmark st)
       (numlabels st) (label st) (labeltext st) (labellength st) (labelpos st).

Definition set_numtickmarks (st : stoketraject) (n : Z) : stoketraject :=
  mkst (numcoords st) (s1 st) (s2 st) (s3 st) (visible_ st) n (tickmark st)
       (numlabels st) (label st) (labeltext st) (labellength st) (labelpos st).

Definition set_tickmark (st : stoketraject) (k v : Z) : stoketraject :=
  mkst (numcoords st) (s1 st) (s2 st) (s3 st) (visible_ st) (numtickmarks st)
       (upd (tickmark st) k v)
       (numlabels st) (label st) (labeltext st) (labellength st) (labelpos st).

Definition set_numlabels (st : stoketraject) (n : Z) : stoketraject :=
  mkst (numcoords st) (s1 st) (s2 st) (s3 st) (visible_ st) (numtickmarks st)
       (tickmark st) n (label st) (labeltext st) (labellength st) (labelpos st).

Definition set_label (st : stoketraject) (k v : Z) : stoketraject :=
  mkst (numcoords st) (s1 st) (s2 st) (s3 st) (visible_ st) (numtickmarks st)
       (tickmark st) (numlabels st) (upd (label st) k v)
       (labeltext st) (labellength st) (labelpos st).

Definition set_labelpos (st : stoketraject) (k v : Z) : stoketraject :=
  mkst (numcoords st) (s1 st) (s2 st) (s3 st) (visible_ st) (numtickmarks st)
       (tickmark st) (numlabels st) (label st)
       (labeltext st) (labellength st) (upd (labelpos st) k v).

Definition set_labeltext (st : stoketraject) (k len : Z) (text : list ascii)
  : stoketraject :=
  mkst (numcoords st) (s1 st) (s2 st) (s3 st) (visible_ st) (numtickmarks st)
       (tickmark st) (numlabels st) (label st)
       (upd (labeltext st) k text) (upd (labellength st) k len) (labelpos st).

(** The string that the C library reads in a character array: the
    characters in front of the first NUL.  [fscanf] stores a NUL of the file
    like any other character that is no white space. *)
Fixpoint c_string (tmpstr : string) : string :=
  match tmpstr with
  | EmptyString => EmptyString
  | String c r => if code c =? 0 then EmptyString else String c (c_string r)
  end.

(** The chain of [strcmp] tests of [scan_label]; [tmpstr] is the position
    string as [strcmp] reads it, [scan_label] hands over the [c_string] of
    the scanned word. *)
Definition label_position (tmpstr : string) : option Z :=
  if String.eqb tmpstr "top" then Some TOPLABEL
  else if String.eqb tmpstr "ulft" then Some UPPERLEFTLABEL
  else if String.eqb tmpstr "lft" then Some LEFTLABEL
  else if String.eqb tmpstr "llft" then Some LOWERLEFTLABEL
  else if String.eqb tmpstr "bot" then Some BOTTOMLABEL
  else if String.eqb tmpstr "lrgt" then Some LOWERRIGHTLABEL
  else if String.eqb tmpstr "rgt" then Some RIGHTLABEL
  else if String.eqb tmpstr "urgt" then Some UPPERRIGHTLABEL
  else None.

(** [while ((ch=getc(infileptr))==' '); ungetc(ch,infileptr);] *)
Fixpoint skip_blanks (s : stream) : stream :=
  match s with
  | [] => []
  | c :: r => if code c =? code " " then skip_blanks r else s
  end.

(** The loop of [scan_label] that reads the label text into [tmpstr[1..k]]
    up to the closing quote mark.  [tmpstr] has 256 places; at the end of
    the input [getc] answers [EOF] for ever and the loop runs off [tmpstr]. *)
Fixpoint label_text (s : stream) (k : Z) (acc : list ascii)
  : outcome (Z * list ascii * stream) :=
  match s with
  | [] => Fault
  | c :: r =>
    if code c =? code quote_mark then Ret (k, rev acc, r)
    else
      let k := k + 1 in
      if code c =? code newline then Exit 1
      else if k <? 256 then label_text r k (c :: acc)
      else Fault
  end.

Definition scan_label (s : stream) (st : stoketraject) (lnum coordnum : Z)
  : outcome (stream * stoketraject) :=
  s <- readaway_comments_and_blanks s ;;
  if negb ((1 <=? lnum) && (lnum <=? MAX_NUM_LABELS + 2)) then Fault
  else
    let st := set_label st lnum coordnum in
    let '(r, tmpstr, s) := fscanf_s s in
    if r =? 0 then Exit FAILURE
    else if negb (r =? 1) then Fault                (* tmpstr was not set *)
    else if 256 <=? Z.of_nat (String.length tmpstr) then Fault
    else
      match label_position (c_string tmpstr) with
      | None => Exit 1
      | Some pos =>
        let st := set_labelpos st lnum pos in
        let s := skip_blanks s in
        let (ch, s) := getc s in
        if negb (ch =? code quote_mark) then Exit 1
        else
          '(k, text, s) <- label_text s 0 [] ;;
          Ret (s, set_labeltext st lnum k text)
      end.

Definition scan_beginlabel (s : stream) (st : stoketraject) (coordnum : Z)
  : outcome (stream * stoketraject) :=
  scan_label s st 1 coordnum.

Definition scan_ticklabel (s : stream) (st : stoketraject) (coordnum : Z)
  : outcome (stream * stoketraject) :=
  if (1 <? numlabels st) && (numlabels st <? MAX_NUM_LABELS + 2) then
    scan_label s st (numlabels st) coordnum
  else Ret (s, st).

Definition scan_endlabel (s : stream) (st : stoketraject) (coordnum : Z)
  : outcome (stream * stoketraject) :=
  scan_label s st (MAX_NUM_LABELS + 2) coordnum.

Definition scan_for_tickmark (s : stream) (st : stoketraject)
  : outcome (stream * stoketraject) :=
  let (b, s) := tickmark_ s in
  if negb (b =? 0) then
    let n := numtickmarks st + 1 in
    if n <=? MAX_NUM_TICKMARKS
    then Ret (s, set_tickmark (set_numtickmarks st n) n (numcoords st))
    else Fault
  else Ret (s, st).

Definition scan_for_tickmarklabel (s : stream) (st : stoketraject)
  : outcome (stream * stoketraject) :=
  let (b, s) := tickmarklabel s in
  if negb (b =? 0) then
    let st := set_numlabels st (numlabels st + 1) in
    if numlabels st <=? MAX_NUM_LABELS + 2 then
      let st := set_label st (numlabels st) (numcoords st) in
      scan_label s st (numlabels st) (label st (numlabels st))
    else Fault
  else Ret (s, st).

(** ** Writing labels *)

(** [reset_stokes_trajectory_struct] sets the allocated elements of every
    array to zero: [1..MAX_NUM_STOKE_COORDS] of the samples and flags,
    [1..MAX_NUM_TICKMARKS] of the tick marks, [1..MAX_NUM_LABELS+2] of the
    labels.  The maps of the model take the same value at the indices
    outside these ranges, which are no elements of the arrays: a routine
    that would read there ends with [Fault] instead. *)
Definition reset_stokes_trajectory_struct (st : stoketraject) : stoketraject :=
  mkst 0 (fun _ => 0%R) (fun _ => 0%R) (fun _ => 0%R) (fun _ => 0)
       0 (fun _ => 0) 0 (fun _ => 0) (fun _ => []) (fun _ => 0) (fun _ => 0).

Definition add_scanned_trajectory (st : stoketraject) (map : pmap) (viewtype : Z)
  : W stoketraject :=
  let st := sort_out_visible_and_hidden st map in
  (if viewtype =? HIDDEN then add_hidden_subtrajectories st map
   else if viewtype =? VISIBLE then add_visible_subtrajectories st map
   else lift (Exit 1)) ;;;
  wret st.

(** The samples [s1[i]], [s2[i]], [s3[i]] are allocated and reset for
    [i = 1..MAX_NUM_STOKE_COORDS]; a label bound to another index reads
    outside that range. *)
Definition add_scanned_labels (st : stoketraject) (map : pmap) : W unit :=
  wfor (Zrange 1 (MAX_NUM_LABELS + 2))
       (fun k =>
          if labellength st k >? 0 then
            if (TOPLABEL <=? labelpos st k) && (labelpos st k <=? UPPERRIGHTLABEL)
            then
              let i := label st k in
              if (1 <=? i) && (i <=? MAX_NUM_STOKE_COORDS) then
                let (x, y) := get_screen_coordinates (s1 st i) (s2 st i) (s3 st i) map in
                emit [TextLabel (labelpos st k) (labeltext st k) x y]
              else lift Fault
            else lift (Exit 1)
          else wret tt).

(** ** The scanner and the two passes *)

Section Program.

(** The conversion [%f] of the C library. *)
Variable fscanf_f : stream -> Z * R * stream.

(** [get_tickmark_screen_coordinates]: the end points of tick mark [k],
    or the way the routine ends the run (an index out of range, a NaN
    among the coordinates).  Its arithmetic is not part of this
    development. *)
Variable get_tickmark_screen_coordinates :
  Z -> stoketraject -> pmap -> outcome (R * R * R * R).

(** A local [float] that no [fscanf] has set is [None]. *)
Definition scan_for_stokes_triplet (s : stream) (st : stoketraject)
  : outcome (stream * stoketraject) :=
  let '(r1, v1, s) := fscanf_f s in
  if r1 =? 0 then Exit 1
  else
    let '(r2, v2, s) := fscanf_f s in
    if r2 =? 0 then Exit 1
    else
      let '(r3, v3, s) := fscanf_f s in
      if r3 =? 0 then Exit 1
      else
        let s1 := if r1 =? 1 then Some v1 else None in
        let s2 := if r2 =? 1 then Some v2 else None in
        let s3 := if r3 =? 1 then Some v3 else None in
        let n := numcoords st + 1 in
        if n <=? MAX_NUM_STOKE_COORDS then
          match s1, s2, s3 with
          | Some v1, Some v2, Some v3 =>
            Ret (s, set_triplet (set_numcoords st n) n v1 v2 v3)
          | _, _, _ => Fault
          end
        else Fault.

Definition add_scanned_tickmarks (st : stoketraject) (map : pmap) (viewtype : Z)
  : W unit :=
  emit [PickupPen (paththickness map / 2)%R] ;;;
  wfor (Zrange 1 (numtickmarks st))
       (fun k =>
          ' (xa, ya, xb, yb) <~ lift (get_tickmark_screen_coordinates k st map) ;;
          emit [TickPath xa ya xb yb] ;;;
          if negb (visible_ st (tickmark st k) =? 0) && (viewtype =? VISIBLE)
          then emit [TickDraw Plain]
          else if (visible_ st (tickmark st k) =? 0) && (viewtype =? HIDDEN)
          then emit [TickDraw (GrayTone (hiddengraytone map))]
          else wret tt).

(** The loop [while (!end_of_trajectory(infileptr))] of
    [write_scanned_trajectories]. *)
Fixpoint scan_triplets (fuel : nat) (s : stream) (st : stoketraject) (coord : Z)
  : outcome (stream * stoketraject * Z) :=
  match fuel with
  | O => OutOfFuel
  | S fuel' =>
    let (b, s) := end_of_trajectory s in
    if negb (b =? 0) then Ret (s, st, coord)
    else
      ' (s, st) <- scan_for_stokes_triplet s st ;;
      let coord := coord + 1 in
      s <- readaway_comments_and_blanks s ;;
      ' (s, st) <- scan_for_tickmark s st ;;
      s <- readaway_comments_and_blanks s ;;
      ' (s, st) <- scan_for_tickmarklabel s st ;;
      s <- readaway_comments_and_blanks s ;;
      scan_triplets fuel' s st coord
  end.

(** The scanning of one trajectory, from behind its ['p'] up to its end
    label. *)
Definition scan_trajectory (fuel : nat) (s : stream) (st : stoketraject) (coord : Z)
  : outcome (stream * stoketraject * Z) :=
  s <- readaway_comments_and_blanks s ;;
  let (b, s) := beginlabel s in
  ' (s, st) <- (if negb (b =? 0) then
                  ' (s, st) <- scan_beginlabel s st 1 ;;
                  s <- readaway_comments_and_blanks s ;;
                  Ret (s, st)
                else Ret (s, st)) ;;
  let st := set_numcoords st 0 in
  ' (s, st, coord) <- scan_triplets fuel s st coord ;;
  s <- readaway_comments_and_blanks s ;;
  let (b, s) := endlabel s in
  if negb (b =? 0) then
    ' (s, st) <- scan_endlabel s st coord ;;
    s <- readaway_comments_and_blanks s ;;
    Ret (s, st, coord)
  else Ret (s, st, coord).

(** The loop [while (new_trajectory(infileptr))]. *)
Fixpoint trajectories (fuel : nat) (s : stream) (st : stoketraject) (coord : Z)
         (map : pmap) (viewtype : Z) : W unit :=
  match fuel with
  | O => lift OutOfFuel
  | S fuel' =>
    let (b, s) := new_trajectory s in
    if b =? 0 then wret tt
    else
      ' (s, st, coord) <~ lift (scan_trajectory fuel' s st coord) ;;
      st <~ add_scanned_trajectory st map viewtype ;;
      add_scanned_tickmarks st map viewtype ;;;
      add_scanned_labels st map ;;;
      trajectories fuel' s (reset_stokes_trajectory_struct st) coord map viewtype
  end.

(** [open_infile]: no file when none was named; [exit(FAILURE)] when the
    named file cannot be opened ([file = None]). *)
Definition open_infile (map : pmap) (file : option stream)
  : outcome (option stream) :=
  if user_specified_inputfile map =? 0 then Ret None
  else match file with
       | None => Exit FAILURE
       | Some s => Ret (Some s)
       end.

Definition write_scanned_trajectories (fuel : nat) (file : option stream)
           (map : pmap) (viewtype : Z) : W unit :=
  let st := reset_stokes_trajectory_struct
              (mkst 0 (fun _ => 0%R) (fun _ => 0%R) (fun _ => 0%R) (fun _ => 0)
                    0 (fun _ => 0) 0 (fun _ => 0) (fun _ => []) (fun _ => 0)
                    (fun _ => 0)) in
  infileptr <~ lift (open_infile map file) ;;
  match infileptr with
  | Some s =>
    emit [SaveAhangle; SetAhangle (arrowheadangle map);
          PickupPen (paththickness map)] ;;;
    trajectories fuel s st 0 map viewtype ;;;
    emit [RestoreAhangle]
  | None => wret tt
  end.

(** The part of [main] that writes the MetaPost file, from behind
    [open_outfile] up to [fclose]: the output file is open.  The writers
    around the two passes are not modelled: each stands as one [Block].
    The trajectory file is opened and read anew by each pass.  What [main]
    does in front of this part ([parse_command_line], [open_outfile] with
    its exit when the output file cannot be opened) and behind it
    ([generate_eps_image] with its exits, when an image is asked for) is not
    modelled; the value returned here is the one [main] returns when no
    image is asked for. *)
Definition main (fuel : nat) (file : option stream) (map : pmap) : W Z :=
  emit [Block "header"; Block "euler_angle_specs"; Block "sphere_shading_specs";
        Block "shaded_sphere"; Block "equators"] ;;;
  write_scanned_trajectories fuel file map HIDDEN ;;;
  write_scanned_trajectories fuel file map VISIBLE ;;;
  emit [Block "additional_arrows"; Block "coordinate_axes";
        Block "additional_coordinate_axes"; Block "included_auxiliary_source"] ;;;
  wret 0.

End Program.

(** ** The name of the program

    A C string is the list of its characters; the terminating NUL stands at
    the index behind the last of them, and any other index outside the list
    is outside the string. *)

Definition char_at (filename : list ascii) (k : Z) : outcome Z :=
  if k <? 0 then Fault
  else if k <? Z.of_nat (List.length filename)
  then Ret (code (nth (Z.to_nat k) filename zero))
  else if k =? Z.of_nat (List.length filename) then Ret 0
  else Fault.

Definition pathcharacter (ch : Z) : bool :=
  isalnum ch || (ch =? code ".") || (ch =? code "/") || (ch =? code "\")
  || (ch =? code "_") || (ch =? code "-") || (ch =? code "+").

(** [while (pathcharacter(filename[k])) k++;] *)
Fixpoint path_end (fuel : nat) (filename : list ascii) (k : Z) : outcome Z :=
  match fuel with
  | O => OutOfFuel
  | S fuel' =>
    ch <- char_at filename k ;;
    if pathcharacter ch then path_end fuel' filename (k + 1) else Ret k
  end.

(** [while (isalnum((int)(filename[j]))) j--;] *)
Fixpoint name_start (fuel : nat) (filename : list ascii) (j : Z) : outcome Z :=
  match fuel with
  | O => OutOfFuel
  | S fuel' =>
    ch <- char_at filename j ;;
    if isalnum ch then name_start fuel' filename (j - 1) else Ret j
  end.

(** [strip_away_path] returns a pointer into [filename]: the string from
    the index [j] on. *)
Definition strip_away_path (filename : list ascii) : outcome (list ascii) :=
  k <- path_end (S (List.length filename)) filename 0 ;;
  let k := k - 1 in
  let j := k in
  j <- name_start (S (S (List.length filename))) filename j ;;
  let j := j + 1 in
  Ret (skipn (Z.to_nat j) filename).

(** ** The tangent at a tick mark

    The first part of [get_tickmark_screen_coordinates]: the difference
    vector [(q1,q2,q3)] along the path at tick mark [k], before it is
    normalised.  [tickmark] is allocated for [1..MAX_NUM_TICKMARKS] and the
    samples for [1..MAX_NUM_STOKE_COORDS]. *)
Definition tickmark_tangent (k : Z) (st : stoketraject) : outcome (R * R * R) :=
  if negb ((1 <=? k) && (k <=? MAX_NUM_TICKMARKS)) then Fault
  else
    let i := tickmark st k in
    let sample j := (1 <=? j) && (j <=? MAX_NUM_STOKE_COORDS) in
    if i =? 1 then
      if sample (i + 1) && sample i then
        Ret ((s1 st (i + 1) - s1 st i)%R, (s2 st (i + 1) - s2 st i)%R,
             (s3 st (i + 1) - s3 st i)%R)
      else Fault
    else if i =? numcoords st then
      if sample i && sample (i - 1) then
        Ret ((s1 st i - s1 st (i - 1))%R, (s2 st i - s2 st (i - 1))%R,
             (s3 st i - s3 st (i - 1))%R)
      else Fault
    else if (1 <? i) && (i <? numcoords st) then
      if sample (i + 1) && sample (i - 1) then
        Ret ((s1 st (i + 1) - s1 st (i - 1))%R, (s2 st (i + 1) - s2 st (i - 1))%R,
             (s3 st (i + 1) - s3 st (i - 1))%R)
      else Fault
    else Exit 1.

(** ** The bounding box of the generated image *)

(** The bounds of a [long] of 64 bits. *)
Definition LONG_MAX : Z := 9223372036854775807.
Definition LONG_MIN : Z := - LONG_MAX - 1.

(** The conversion [%ld] of [fscanf]: white space is skipped, then an
    optional sign and decimal digits are read.  The answer is [EOF] at the
    end of the input, 0 when no digit is found, and 1 with the value
    otherwise.  The value of a numeral outside the range of [long] is the
    bound of the range on its side, as [strtol] forms it. *)
Definition fscanf_ld (s : stream) : Z * Z * stream :=
  match skip_space s with
  | [] => (EOF, 0, [])
  | c :: r =>
    let '(neg, sa) :=
      if code c =? code "-" then (true, r)
      else if code c =? code "+" then (false, r)
      else (false, c :: r) in
    let '(m, n, sb) := take_digits sa 0 0 in
    if n =? 0 then (0, 0, sb)
    else (1, Z.max LONG_MIN (Z.min LONG_MAX (if neg then - m else m)), sb)
  end.

Definition BOUNDINGBOX : string := "%%BoundingBox:".

(** The four corners, each unset until its [fscanf] has stored a value. *)
Definition box : Type := (option Z * option Z * option Z * option Z)%type.

(** [if (fscanf(infile,"%ld",corner)==0) exit(FAILURE);] *)
Definition read_corner (s : stream) (corner : option Z)
  : outcome (option Z * stream) :=
  let '(r, v, s) := fscanf_ld s in
  if r =? 0 then Exit FAILURE
  else Ret ((if r =? 1 then Some v else corner), s).

(** The loop of [scan_for_boundingbox] and the test behind it.  [tmpstr] is
    [None] until the first word has been stored in it; it has 256 places,
    and [strcmp] reads it up to its first NUL. *)
Fixpoint boundingbox_loop (fuel : nat) (s : stream) (tmpstr : option string)
         (b : box) (done : bool) : outcome box :=
  match fuel with
  | O => OutOfFuel
  | S fuel' =>
    let (tmpch, s) := getc s in
    if negb (tmpch =? EOF) && negb done then
      let s := ungetc tmpch s in
      let '(r, w, s) := fscanf_s s in
      if r =? 0 then Exit FAILURE
      else if (r =? 1) && (256 <=? Z.of_nat (String.length w)) then Fault
      else
        match (if r =? 1 then Some w else tmpstr) with
        | None => Fault
        | Some t =>
          if String.eqb (c_string t) BOUNDINGBOX then
            let '(llx, lly, urx, ury) := b in
            ' (llx, s) <- read_corner s llx ;;
            ' (lly, s) <- read_corner s lly ;;
            ' (urx, s) <- read_corner s urx ;;
            ' (ury, s) <- read_corner s ury ;;
            boundingbox_loop fuel' s (Some t) (llx, lly, urx, ury) true
          else boundingbox_loop fuel' s (Some t) b false
        end
    else if tmpch =? EOF then Exit FAILURE
    else Ret b
  end.

(** [scan_for_boundingbox]; [file] is [None] when the file cannot be
    opened.  Every turn of the loop reads a character. *)
Definition scan_for_boundingbox (file : option stream) : outcome box :=
  match file with
  | None => Exit FAILURE
  | Some s =>
    boundingbox_loop (S (S (List.length s))) s None (None, None, None, None) false
  end.

(** * Vocabulary of the properties *)

(** ** The two sweeps as one

    [add_hidden_subtrajectories] and [add_visible_subtrajectories] are the
    same loop with the two classes exchanged.  [outer c d] is that loop for
    the class [c] against the class [d]; the sweeps of the program are its
    instances at [(0,1)] and [(1,0)]. *)

Definition just_became (c d : Z) (st : stoketraject) (k : Z) : outcome Z :=
  if k =? 1 then
    if visible_ st k =? c then Ret 1 else Ret 0
  else if (2 <=? k) && (k <=? numcoords st) then
    if (visible_ st k =? c) && (visible_ st (k - 1) =? d) then Ret 1 else Ret 0
  else Exit 1.

Fixpoint inner (c d : Z) (fuel : nat) (st : stoketraject) (k ka kb : Z)
  : outcome (Z * Z) :=
  match fuel with
  | O => OutOfFuel
  | S fuel' =>
    if (k <=? numcoords st) && (kb <? ka) then
      b <- just_became d c st k ;;
      if b =? 0 then inner c d fuel' st (k + 1) ka kb
      else inner c d fuel' st k ka (k - 1)
    else Ret (k, kb)
  end.

Fixpoint outer (c d : Z) (fuel : nat) (st : stoketraject) (k : Z)
  : list (Z * Z) * outcome unit :=
  match fuel with
  | O => ([], OutOfFuel)
  | S fuel' =>
    if k <=? numcoords st then
      match just_became c d st k with
      | Ret b =>
        if b =? 0 then outer c d fuel' st (k + 1)
        else
          match inner c d (S (S (Z.to_nat (numcoords st)))) st k k (k - 1) with
          | Ret (k', _) =>
            let (runs, r) := outer c d fuel' st (k' + 1) in
            ((k, k' - 1) :: runs, r)
          | Exit c => ([], Exit c)
          | Fault => ([], Fault)
          | OutOfFuel => ([], OutOfFuel)
          end
      | Exit c => ([], Exit c)
      | Fault => ([], Fault)
      | OutOfFuel => ([], OutOfFuel)
      end
    else ([], Ret tt)
  end.

(** A trajectory is classified when [visible[k]] is 0 or 1 for every sample. *)
Definition classified (st : stoketraject) : Prop :=
  forall k, 1 <= k <= numcoords st -> visible_ st k = 0 \/ visible_ st k = 1.

(** [covers i r]: the index [i] lies in the range [r]. *)
Definition covers (i : Z) (r : Z * Z) : bool :=
  let (a, b) := r in (a <=? i) && (i <=? b).

(** The number of ranges of [runs] in which [i] lies. *)
Definition cover_count (i : Z) (runs : list (Z * Z)) : nat :=
  List.length (filter (covers i) runs).

(** [is_run c st (a,b)]: the samples [a..b] form a maximal run of class [c]. *)
Definition is_run (c : Z) (st : stoketraject) (r : Z * Z) : Prop :=
  let (a, b) := r in
  1 <= a <= b /\ b <= numcoords st /\
  (forall j, a <= j <= b -> visible_ st j = c) /\
  (a = 1 \/ visible_ st (a - 1) <> c) /\
  (b = numcoords st \/ visible_ st (b + 1) <> c).

(** The number of sub-paths among the statements written. *)
Definition is_subpath (p : primitive) : bool :=
  match p with SubPath _ _ _ _ _ => true | _ => false end.

Definition count_subpaths (l : list primitive) : nat :=
  List.length (filter is_subpath l).

(** What the outer loop for the class [c] collects from [k] on: maximal runs
    of class [c] that start at [k] or later and cover every sample of class
    [c] from [k] on exactly once, and no other sample. *)
Definition sweep_ok (c : Z) (st : stoketraject) (k : Z) (runs : list (Z * Z))
  : Prop :=
  Forall (fun r => k <= fst r /\ is_run c st r) runs /\
  (forall i, k <= i <= numcoords st ->
             cover_count i runs = if visible_ st i =? c then 1%nat else 0%nat).

(** [only_class t p]: the statement [p] is not a sub-path of a class other
    than [t]. *)
Definition only_class (t : string) (p : primitive) : bool :=
  match p with
  | SubPath t' _ _ _ _ => String.eqb t' t
  | _ => true
  end.


(** The sweeps read [numcoords] and the flags of [1..numcoords] only. *)
Definition same_flags (st st' : stoketraject) : Prop :=
  numcoords st = numcoords st' /\
  forall j, 1 <= j <= numcoords st -> visible_ st j = visible_ st' j.

(** ** Vocabulary of the sweeps and of the output *)

(** [apart r r']: the range [r'] starts behind [r], with at least one sample
    between the two. *)
Definition apart (r r' : Z * Z) : Prop := snd r + 1 < fst r'.

(** A sub-path stroked with [drawarrow]. *)
Definition is_arrow (p : primitive) : bool :=
  match p with
  | SubPath _ _ _ Draw _ => false
  | SubPath _ _ _ _ _ => true
  | _ => false
  end.

Definition count_arrows (l : list primitive) : nat :=
  List.length (filter is_arrow l).

(** What every sub-path written under the settings [map] looks like. *)
Definition well_formed (map : pmap) (p : primitive) : Prop :=
  match p with
  | SubPath type bezier pts cmd col =>
    (2 <= List.length pts)%nat /\
    bezier = use_bezier_curves map /\
    ((type = "hidden"%string /\
      col = (if draw_hidden_dashed map =? 0 then GrayTone (hiddengraytone map)
             else DashedBlack))
     \/ (type = "visible"%string /\ col = Black)) /\
    (draw_paths_as_arrows map = 0 -> cmd = Draw) /\
    (cmd = DrawArrowReverse -> reverse_arrow_paths map <> 0) /\
    (cmd = DrawArrow -> reverse_arrow_paths map = 0)
  | _ => True
  end.

(** The points of a sub-path. *)
Definition subpath_points (p : primitive) : list (R * R) :=
  match p with SubPath _ _ pts _ _ => pts | _ => [] end.

(** The sub-paths among the statements written, each as the list of its
    points, in the order of writing. *)
Definition written_paths (l : list primitive) : list (list (R * R)) :=
  List.map subpath_points (filter is_subpath l).

(** The screen points of the samples of the range [r]. *)
Definition projected (st : stoketraject) (map : pmap) (r : Z * Z) : list (R * R) :=
  List.map (fun k => get_screen_coordinates (s1 st k) (s2 st k) (s3 st k) map)
           (Zrange (fst r) (snd r)).

(** The ranges found by a sweep that are emitted: those for which the call
    of [add_subtrajectory] writes a sub-path. *)
Definition emitted_hidden_runs (st : stoketraject) (map : pmap) : list (Z * Z) :=
  filter (fun r => (0 <? count_subpaths
                           (add_subtrajectory st (fst r) (snd r) map "hidden"))%nat)
         (fst (hidden_runs st)).

Definition emitted_visible_runs (st : stoketraject) (map : pmap) : list (Z * Z) :=
  filter (fun r => (0 <? count_subpaths
                           (add_subtrajectory st (fst (widen st r)) (snd (widen st r))
                                              map "visible"))%nat)
         (fst (visible_runs st)).

(** A hidden sample with no hidden sample next to it. *)
Definition lone_hidden (st : stoketraject) (i : Z) : bool :=
  (visible_ st i =? 0)
  && ((i =? 1) || negb (visible_ st (i - 1) =? 0))
  && ((i =? numcoords st) || negb (visible_ st (i + 1) =? 0)).

(** ** Vocabulary of the scanner *)

(** A character that may stand in a label text. *)
Definition text_char (c : ascii) : Prop := c <> quote_mark /\ c <> newline.

(** [same_labels_but lnum st st']: the two structures differ at most in the
    label slot [lnum]. *)
Definition same_labels_but (lnum : Z) (st st' : stoketraject) : Prop :=
  (forall k, k <> lnum ->
     label st' k = label st k /\ labelpos st' k = labelpos st k /\
     labeltext st' k = labeltext st k /\ labellength st' k = labellength st k) /\
  numcoords st' = numcoords st /\ s1 st' = s1 st /\ s2 st' = s2 st /\
  s3 st' = s3 st /\ visible_ st' = visible_ st /\
  numtickmarks st' = numtickmarks st /\ tickmark st' = tickmark st /\
  numlabels st' = numlabels st.

(** The tick marks of a trajectory lie on its samples, in increasing
    order. *)
Definition ticks_in_order (st : stoketraject) : Prop :=
  0 <= numtickmarks st <= MAX_NUM_TICKMARKS /\
  (forall k, 1 <= k <= numtickmarks st -> 1 <= tickmark st k <= numcoords st) /\
  (forall k, 1 <= k < numtickmarks st -> tickmark st k < tickmark st (k + 1)).

(** Every label slot that holds a text holds one of the eight positions. *)
Definition labels_placed (st : stoketraject) : Prop :=
  forall k, 0 < labellength st k -> 1 <= labelpos st k <= 8.

(** The state of the scanner between two triplets. *)
Definition scanned_ok (st : stoketraject) : Prop :=
  0 <= numcoords st <= MAX_NUM_STOKE_COORDS /\ ticks_in_order st /\ labels_placed st.

(** The label slot [k] is the same in both structures. *)
Definition slot_unchanged (k : Z) (st st' : stoketraject) : Prop :=
  label st' k = label st k /\ labelpos st' k = labelpos st k /\
  labeltext st' k = labeltext st k /\ labellength st' k = labellength st k.

(** [st'] holds more tick labels than [st], and the slots behind its last
    tick label are those of [st]. *)
Definition labels_extended (st st' : stoketraject) : Prop :=
  numlabels st <= numlabels st' /\
  forall k, numlabels st' < k -> slot_unchanged k st st'.

(** A character at which [readaway_comments_and_blanks] stops. *)
Definition data_char (c : ascii) : bool :=
  isalnum (code c) || (code c =? code "-") || (code c =? code "+").

(** [reads_away pre s']: in front of [s'], the text [pre] is made of
    characters that are no data characters and of comments, each from its
    [%] to the end of its line; [s'] is empty or starts with a data
    character, and it is empty when the last comment has no end of line. *)
Inductive reads_away : list ascii -> stream -> Prop :=
| stop_at_end : reads_away [] []
| stop_at_data c r : data_char c = true -> reads_away [] (c :: r)
| drop_char c pre s' :
    data_char c = false -> c <> "%"%char -> reads_away pre s' ->
    reads_away (c :: pre) s'
| drop_comment text pre s' :
    Forall (fun c => c <> newline) text -> reads_away pre s' ->
    reads_away ("%"%char :: text ++ newline :: pre) s'
| drop_open_comment text :
    Forall (fun c => c <> newline) text -> reads_away ("%"%char :: text) [].

(** ** Vocabulary of the passes *)

Definition is_tickpath (p : primitive) : bool :=
  match p with TickPath _ _ _ _ => true | _ => false end.

Definition is_tickdraw (p : primitive) : bool :=
  match p with TickDraw _ => true | _ => false end.

Definition is_label (p : primitive) : bool :=
  match p with TextLabel _ _ _ _ => true | _ => false end.

(** The number of statements of one kind. *)
Definition count_of (q : primitive -> bool) (l : list primitive) : nat :=
  List.length (filter q l).

(** The statements that do not depend on the pass: tick paths and labels. *)
Definition in_both_passes (p : primitive) : bool := is_tickpath p || is_label p.

(** What the two passes write around the trajectories of the file. *)
Definition pass_frame (map : pmap) : list primitive :=
  [SaveAhangle; SetAhangle (arrowheadangle map); PickupPen (paththickness map);
   RestoreAhangle].

Definition blocks_before : list primitive :=
  [Block "header"; Block "euler_angle_specs"; Block "sphere_shading_specs";
   Block "shaded_sphere"; Block "equators"].

Definition blocks_after : list primitive :=
  [Block "additional_arrows"; Block "coordinate_axes";
   Block "additional_coordinate_axes"; Block "included_auxiliary_source"].

(** Two runs of a writer end the same way and write the same tick paths and
    labels. *)
Definition agree {A : Type} (m1 m2 : W A) : Prop :=
  snd m1 = snd m2 /\
  filter in_both_passes (fst m1) = filter in_both_passes (fst m2).





(** The string ends, or goes on with a character that is no path
    character. *)
Definition path_stops (post : list ascii) : Prop :=
  forall a r, post = a :: r -> pathcharacter (code a) = false.

(** [holds_boundingbox s b]: the text [s] holds a word that [strcmp] reads
    as the word of the bounding box, behind it four numerals that [%ld]
    reads as the corners [b], and behind the fourth numeral one character at
    least. *)
Definition holds_boundingbox (s : stream) (b : box) : Prop :=
  exists pre word sa sb sc sd llx lly urx ury ch rest,
    s = pre ++ list_ascii_of_string word ++ sa /\
    c_string word = BOUNDINGBOX /\
    fscanf_ld sa = (1, llx, sb) /\ fscanf_ld sb = (1, lly, sc) /\
    fscanf_ld sc = (1, urx, sd) /\ fscanf_ld sd = (1, ury, ch :: rest) /\
    b = (Some llx, Some lly, Some urx, Some ury).


(** * Example data *)

(** A trajectory given by its flags alone, for examples. *)
Definition trajectory_of_flags (l : list Z) : stoketraject :=
  mkst (Z.of_nat (List.length l)) (fun _ => 0%R) (fun _ => 0%R) (fun _ => 0%R)
       (fun k => nth (Z.to_nat (k - 1)) l 0)
       0 (fun _ => 0) 0 (fun _ => 0) (fun _ => []) (fun _ => 0) (fun _ => 0).

(** A view straight onto the S1 axis, normalisation switched off. *)
Definition front_view : pmap :=
  mkpmap 0 0 1 0 0 0 0%R 0%R (65 / 100)%R 1%R 30%R.

(** The text of a file given line by line, the lines joined by newlines; an
    apostrophe in a line stands for the quote mark. *)
Definition chars (line : string) : stream :=
  List.map (fun c => if Ascii.eqb c "'" then quote_mark else c)
           (list_ascii_of_string line).

Fixpoint lines (l : list string) : stream :=
  match l with
  | [] => []
  | [line] => chars line
  | line :: rest => chars line ++ newline :: lines rest
  end.

(** The trajectory structure as [reset_stokes_trajectory_struct] leaves it. *)
Definition empty_trajectory : stoketraject :=
  reset_stokes_trajectory_struct (trajectory_of_flags []).

(** The trajectory that the scanner builds from the file [scenario] below;
    every number is stored as the quotient the scanner forms. *)
Definition three_points : stoketraject :=
  set_triplet (set_numcoords
    (set_triplet (set_numcoords
      (set_triplet (set_numcoords (set_numcoords empty_trajectory 0) 1)
                   1 (1 / 1)%R (0 / 1)%R (0 / 1)%R) 2)
                   2 (0 / 1)%R (1 / 1)%R (0 / 1)%R) 3)
                   3 (-1 / 1)%R (0 / 1)%R (0 / 1)%R.

(** [three_points] with its flags set under [front_view]. *)
Definition three_points_classified : stoketraject :=
  sort_out_visible_and_hidden three_points front_view.

(** The file p, 1 0 0, 0 1 0, -1 0 0, q. *)
Definition scenario : stream := lines ["p"; "1 0 0"; "0 1 0"; "-1 0 0"; "q"]%string.

(** The view of [front_view] with arrow heads switched on. *)
Definition arrow_view : pmap :=
  mkpmap 0 0 1 0 1 0 0%R 0%R (65 / 100)%R 1%R 30%R.

(** A trajectory of two visible samples followed by two hidden ones. *)
Definition ends_hidden : stoketraject := trajectory_of_flags [1; 1; 0; 0].

(** What follows the p of a trajectory with a tick mark at its first
    sample and an end label. *)
Definition labelled_trajectory : stream :=
  lines [" 1 0 0 t"; "0 1 0"; "q"; "e urgt 'B'"]%string.

(** The head of an image file. *)
Definition image_head : stream :=
  lines ["%!PS-Adobe-2.0 EPSF-2.0"; "%%BoundingBox: 0 -1 100 200"; "%%EOF"]%string.

(** An image file that ends directly behind its bounding box. *)
Definition image_cut_short : stream :=
  lines ["%!PS-Adobe-2.0 EPSF-2.0"; "%%BoundingBox: 0 -1 100 200"]%string.

(** An image file whose third corner does not fit in a [long]. *)
Definition image_wide : stream :=
  lines ["%%BoundingBox: 0 0 99999999999999999999 5"; "%%EOF"]%string.


(** * Properties *)

(** ** The sweeps: correctness *)

Lemma hidden_is_just_became st k :
  point_just_became_hidden st k = just_became 0 1 st k.
Proof. reflexivity. Qed.

Lemma visible_is_just_became st k :
  point_just_became_visible st k = just_became 1 0 st k.
Proof. reflexivity. Qed.

Lemma hidden_inner_is_inner fuel : forall st k ka kb,
  hidden_inner fuel st k ka kb = inner 0 1 fuel st k ka kb.
Proof.
  induction fuel as [|n IH]; intros; simpl; [reflexivity|].
  rewrite visible_is_just_became.
  destruct ((k <=? numcoords st) && (kb <? ka)); [|reflexivity].
  destruct (just_became 1 0 st k); simpl; try reflexivity.
  destruct (a =? 0); apply IH.
Qed.

Lemma visible_inner_is_inner fuel : forall st k ka kb,
  visible_inner fuel st k ka kb = inner 1 0 fuel st k ka kb.
Proof.
  induction fuel as [|n IH]; intros; simpl; [reflexivity|].
  rewrite hidden_is_just_became.
  destruct ((k <=? numcoords st) && (kb <? ka)); [|reflexivity].
  destruct (just_became 0 1 st k); simpl; try reflexivity.
  destruct (a =? 0); apply IH.
Qed.

Lemma hidden_outer_is_outer fuel : forall st k,
  hidden_outer fuel st k = outer 0 1 fuel st k.
Proof.
  induction fuel as [|n IH]; intros; [reflexivity|].
  cbn [hidden_outer outer].
  rewrite hidden_is_just_became, hidden_inner_is_inner.
  destruct (k <=? numcoords st); [|reflexivity].
  destruct (just_became 0 1 st k); try reflexivity.
  destruct (a =? 0); [apply IH|].
  destruct (inner 0 1 _ st k k (k - 1)) as [[k' kb']| | |]; try reflexivity.
  rewrite IH. reflexivity.
Qed.

Lemma visible_outer_is_outer fuel : forall st k,
  visible_outer fuel st k = outer 1 0 fuel st k.
Proof.
  induction fuel as [|n IH]; intros; [reflexivity|].
  cbn [visible_outer outer].
  rewrite visible_is_just_became, visible_inner_is_inner.
  destruct (k <=? numcoords st); [|reflexivity].
  destruct (just_became 1 0 st k); try reflexivity.
  destruct (a =? 0); [apply IH|].
  destruct (inner 1 0 _ st k k (k - 1)) as [[k' kb']| | |]; try reflexivity.
  rewrite IH. reflexivity.
Qed.

Section Sweep.

Variables c d : Z.
Hypothesis c_neq_d : c <> d.
Variable st : stoketraject.
Hypothesis two_classes :
  forall k, 1 <= k <= numcoords st -> visible_ st k = c \/ visible_ st k = d.

Let N := numcoords st.
Let f := visible_ st.

Lemma just_became_in_range c' d' k :
  1 <= k <= N ->
  just_became c' d' st k =
  Ret (if (f k =? c') && ((k =? 1) || (f (k - 1) =? d')) then 1 else 0).
Proof.
  intros Hk. unfold just_became, f.
  destruct (k =? 1) eqn:E1.
  - rewrite orb_true_l, andb_true_r.
    destruct (visible_ st k =? c'); reflexivity.
  - apply Z.eqb_neq in E1.
    replace ((2 <=? k) && (k <=? numcoords st)) with true
      by (symmetry; apply andb_true_iff; split; apply Z.leb_le; unfold N in Hk; lia).
    rewrite orb_false_l.
    destruct ((visible_ st k =? c') && (visible_ st (k - 1) =? d')); reflexivity.
Qed.

(** The inner loop stops at the first sample after [ka] of the other
    class, or behind the last sample. *)
Lemma inner_spec ka : 1 <= ka <= N -> f ka = c ->
  forall fuel k,
    ka <= k <= N + 1 ->
    (forall j, ka <= j < k -> f j = c) ->
    (Z.to_nat (N + 3 - k) <= fuel)%nat ->
    exists e kb,
      inner c d fuel st k ka (ka - 1) = Ret (e, kb) /\
      ka < e <= N + 1 /\ k <= e /\
      (forall j, ka <= j < e -> f j = c) /\
      (e <= N -> f e = d).
Proof.
  intros Hka Hfka. induction fuel as [|n IH]; intros k Hk Hinv Hfuel; [lia|].
  simpl. fold N.
  replace (ka - 1 <? ka) with true by (symmetry; apply Z.ltb_lt; lia).
  rewrite andb_true_r.
  destruct (k <=? N) eqn:EkN.
  - apply Z.leb_le in EkN.
    rewrite (just_became_in_range d c k) by lia. simpl.
    destruct ((f k =? d) && ((k =? 1) || (f (k - 1) =? c))) eqn:Eb.
    + (* the class changed at k *)
      apply andb_true_iff in Eb. destruct Eb as [Efk _].
      apply Z.eqb_eq in Efk.
      assert (ka < k) by (destruct (Z.eq_dec ka k); [subst; congruence | lia]).
      simpl. destruct n as [|n]; [lia|]. simpl. fold N.
      replace (k - 1 <? ka) with false by (symmetry; apply Z.ltb_ge; lia).
      rewrite andb_false_r.
      exists k, (k - 1). repeat split; try lia; auto.
    + (* still in the run *)
      assert (Hfk : f k = c).
      { destruct (Z.eq_dec ka k) as [->|Hne]; [assumption|].
        destruct (two_classes k ltac:(unfold N in *; lia)) as [Hc|Hd]; [exact Hc|].
        exfalso. fold f in Hd. rewrite Hd, Z.eqb_refl in Eb. simpl in Eb.
        rewrite (Hinv (k - 1)) in Eb by lia. rewrite Z.eqb_refl, orb_true_r in Eb.
        discriminate. }
      simpl.
      destruct (IH (k + 1)) as (e & kb & He & H1 & H2 & H3 & H4); try lia.
      { intros j Hj. destruct (Z.eq_dec j k); [subst; assumption | apply Hinv; lia]. }
      exists e, kb. repeat split; try lia; auto.
  - apply Z.leb_gt in EkN.
    exists k, (ka - 1). repeat split; try lia; auto.
Qed.

Lemma cover_count_before k runs i :
  Forall (fun r => k <= fst r /\ is_run c st r) runs -> i < k ->
  cover_count i runs = 0%nat.
Proof.
  unfold cover_count. induction 1 as [|[a b] l [Ha _] _ IH]; intros Hi; [reflexivity|].
  simpl in *. replace (a <=? i) with false by (symmetry; apply Z.leb_gt; lia).
  simpl. auto.
Qed.

Lemma outer_spec : forall fuel k,
  1 <= k ->
  (k <= N -> k = 1 \/ f (k - 1) = d) ->
  (Z.to_nat (Z.max 1 (N + 2 - k)) <= fuel)%nat ->
  exists runs, outer c d fuel st k = (runs, Ret tt) /\ sweep_ok c st k runs.
Proof.
  unfold sweep_ok. fold N. fold f.
  induction fuel as [|n IH]; intros k Hk Hinv Hfuel; [lia|].
  - cbn [outer]. fold N. destruct (k <=? N) eqn:EkN.
    + apply Z.leb_le in EkN.
      rewrite (just_became_in_range c d k) by lia.
      assert (Hb : (k =? 1) || (f (k - 1) =? d) = true).
      { destruct (Hinv EkN) as [->|Hd]; [reflexivity|].
        rewrite Hd, Z.eqb_refl. apply orb_true_r. }
      rewrite Hb, andb_true_r.
      destruct (f k =? c) eqn:Efk.
      * (* a run of class c starts at k *)
        apply Z.eqb_eq in Efk. cbn [Z.eqb].
        destruct (inner_spec k ltac:(lia) Efk (S (S (Z.to_nat N))) k)
          as (e & kb & He & H1 & H2 & H3 & H4); try lia.
        rewrite He.
        destruct (IH (e + 1)) as (runs & Hr & Hfa & Hcnt); try lia.
        { intros He1. right. replace (e + 1 - 1) with e by lia. apply H4. lia. }
        rewrite Hr. exists ((k, e - 1) :: runs). split; [reflexivity|].
        split.
        -- constructor.
           ++ simpl. split; [lia|]. repeat split; try (unfold N in *; lia).
              ** intros j Hj. apply H3. lia.
              ** destruct (Hinv EkN) as [->|Hd]; [left; reflexivity|].
                 right. fold f. congruence.
              ** destruct (Z.eq_dec e (N + 1)) as [->|Hne].
                 --- left. unfold N. lia.
                 --- right. replace (e - 1 + 1) with e by lia. fold f.
                     rewrite H4 by lia. congruence.
           ++ eapply Forall_impl; [|exact Hfa]. simpl. intros r [Hr1 Hr2].
              split; [lia | assumption].
        -- intros i Hi. unfold cover_count. simpl.
           destruct (Z_le_gt_dec i (e - 1)) as [Hle|Hgt].
           ++ replace ((k <=? i) && (i <=? e - 1)) with true
                by (symmetry; apply andb_true_iff; split; apply Z.leb_le; lia).
              simpl. fold (cover_count i runs).
              rewrite (cover_count_before (e + 1) runs i Hfa) by lia.
              rewrite (H3 i) by lia. rewrite Z.eqb_refl. reflexivity.
           ++ replace (i <=? e - 1) with false by (symmetry; apply Z.leb_gt; lia).
              rewrite andb_false_r. fold (cover_count i runs).
              destruct (Z.eq_dec i e) as [->|Hne].
              ** rewrite (cover_count_before (e + 1) runs e Hfa) by lia.
                 rewrite H4 by lia.
                 replace (d =? c) with false
                   by (symmetry; apply Z.eqb_neq; congruence).
                 reflexivity.
              ** apply Hcnt. lia.
      * (* no run starts at k *)
        apply Z.eqb_neq in Efk. cbn [Z.eqb].
        assert (Hfk : f k = d).
        { destruct (two_classes k ltac:(unfold N in *; lia));
            [contradiction|assumption]. }
        destruct (IH (k + 1)) as (runs & Hr & Hfa & Hcnt); try lia.
        { intros _. right. replace (k + 1 - 1) with k by lia. exact Hfk. }
        exists runs. split; [exact Hr|]. split.
        -- eapply Forall_impl; [|exact Hfa]. simpl. intros r [Hr1 Hr2].
           split; [lia | assumption].
        -- intros i Hi. destruct (Z.eq_dec i k) as [->|Hne].
           ++ rewrite (cover_count_before (k + 1) runs k Hfa) by lia.
              replace (f k =? c) with false
                by (symmetry; apply Z.eqb_neq; assumption).
              reflexivity.
           ++ apply Hcnt. lia.
    + apply Z.leb_gt in EkN. exists []. split; [reflexivity|].
      split; [constructor | intros; lia].
Qed.

(** The sweep from the first sample. *)
Lemma sweep_from_1 :
  exists runs,
    outer c d (S (Z.to_nat N)) st 1 = (runs, Ret tt) /\ sweep_ok c st 1 runs.
Proof. apply outer_spec; [lia | auto | lia]. Qed.

End Sweep.

Lemma Zrange_In a b k : In k (Zrange a b) <-> a <= k <= b.
Proof.
  unfold Zrange. rewrite in_map_iff. split.
  - intros (i & <- & Hi). apply in_seq in Hi. lia.
  - intros Hk. exists (Z.to_nat (k - a)). split; [lia|]. apply in_seq. lia.
Qed.

Lemma visible_0_or_1 x y z map : visible x y z map = 0 \/ visible x y z map = 1.
Proof. unfold visible. destruct (Rge_dec _ 0); auto. Qed.

(** [sort_out_visible_and_hidden] keeps the samples and sets every flag of
    [1..numcoords] to the value of [visible]. *)
Lemma sort_out_fold map l : forall st,
  let st' := fold_left
    (fun st k =>
       if visible (s1 st k) (s2 st k) (s3 st k) map =? 0
       then set_visible st (upd (visible_ st) k 0)
       else set_visible st (upd (visible_ st) k 1)) l st in
  numcoords st' = numcoords st /\ s1 st' = s1 st /\ s2 st' = s2 st /\
  s3 st' = s3 st /\
  forall k, (In k l -> visible_ st' k = visible (s1 st k) (s2 st k) (s3 st k) map) /\
            (~ In k l -> visible_ st' k = visible_ st k).
Proof.
  induction l as [|a l IH]; intros st; simpl.
  - repeat split; auto. intros [].
  - set (st1 := if visible (s1 st a) (s2 st a) (s3 st a) map =? 0
                then set_visible st (upd (visible_ st) a 0)
                else set_visible st (upd (visible_ st) a 1)).
    assert (H1 : numcoords st1 = numcoords st /\ s1 st1 = s1 st /\
                 s2 st1 = s2 st /\ s3 st1 = s3 st /\
                 visible_ st1 = upd (visible_ st) a
                                    (visible (s1 st a) (s2 st a) (s3 st a) map)).
    { unfold st1. destruct (visible_0_or_1 (s1 st a) (s2 st a) (s3 st a) map) as [E|E];
        rewrite E; simpl; repeat split; reflexivity. }
    destruct H1 as (E0 & E1 & E2 & E3 & E4).
    destruct (IH st1) as (I0 & I1 & I2 & I3 & I4).
    repeat split; try congruence.
    + intros [->|Hin].
      * destruct (in_dec Z.eq_dec k l) as [Hl|Hl].
        -- rewrite (proj1 (I4 k) Hl), E1, E2, E3. reflexivity.
        -- rewrite (proj2 (I4 k) Hl), E4. unfold upd. rewrite Z.eqb_refl. reflexivity.
      * rewrite (proj1 (I4 k) Hin), E1, E2, E3. reflexivity.
    + intros Hn.
      assert (a <> k /\ ~ In k l) as [Hak Hl] by tauto.
      rewrite (proj2 (I4 k) Hl), E4. unfold upd.
      replace (k =? a) with false by (symmetry; apply Z.eqb_neq; congruence).
      reflexivity.
Qed.

Lemma sort_out_spec st map :
  let st' := sort_out_visible_and_hidden st map in
  numcoords st' = numcoords st /\ s1 st' = s1 st /\ s2 st' = s2 st /\
  s3 st' = s3 st /\
  forall k, 1 <= k <= numcoords st ->
            visible_ st' k = visible (s1 st k) (s2 st k) (s3 st k) map.
Proof.
  destruct (sort_out_fold map (Zrange 1 (numcoords st)) st) as (H0 & H1 & H2 & H3 & H4).
  repeat split; auto.
  intros k Hk. apply (proj1 (H4 k)). apply Zrange_In. exact Hk.
Qed.

Lemma sort_out_fold_fields map l : forall st,
  let st' := fold_left
    (fun st k =>
       if visible (s1 st k) (s2 st k) (s3 st k) map =? 0
       then set_visible st (upd (visible_ st) k 0)
       else set_visible st (upd (visible_ st) k 1)) l st in
  numtickmarks st' = numtickmarks st /\ tickmark st' = tickmark st /\
  numlabels st' = numlabels st /\ label st' = label st /\
  labeltext st' = labeltext st /\ labellength st' = labellength st /\
  labelpos st' = labelpos st.
Proof.
  induction l as [|a l IH]; intros st; cbn [fold_left].
  - repeat split; reflexivity.
  - destruct (visible (s1 st a) (s2 st a) (s3 st a) map =? 0);
      match goal with
      | |- context [fold_left _ l ?st1] =>
        destruct (IH st1) as (I1 & I2 & I3 & I4 & I5 & I6 & I7)
      end; repeat split; assumption.
Qed.

Lemma sort_out_fields st map :
  let st' := sort_out_visible_and_hidden st map in
  numtickmarks st' = numtickmarks st /\ tickmark st' = tickmark st /\
  numlabels st' = numlabels st /\ label st' = label st /\
  labeltext st' = labeltext st /\ labellength st' = labellength st /\
  labelpos st' = labelpos st.
Proof. apply sort_out_fold_fields. Qed.

Lemma sort_out_classified st map :
  classified (sort_out_visible_and_hidden st map).
Proof.
  destruct (sort_out_spec st map) as (H0 & _ & _ & _ & H4).
  intros k Hk. rewrite H0 in Hk. rewrite (H4 k Hk). apply visible_0_or_1.
Qed.

Lemma classified_swap st : classified st ->
  forall k, 1 <= k <= numcoords st -> visible_ st k = 1 \/ visible_ st k = 0.
Proof. intros H k Hk. destruct (H k Hk); auto. Qed.

(** The hidden sweep returns, and finds maximal runs of hidden samples that
    cover exactly the hidden samples once. *)
Lemma hidden_runs_spec st : classified st ->
  exists runs, hidden_runs st = (runs, Ret tt) /\
    Forall (is_run 0 st) runs /\
    forall i, 1 <= i <= numcoords st ->
      cover_count i runs = if visible_ st i =? 0 then 1%nat else 0%nat.
Proof.
  intros Hc. unfold hidden_runs. rewrite hidden_outer_is_outer.
  destruct (sweep_from_1 0 1 ltac:(lia) st Hc) as (runs & Hr & Hfa & Hcnt).
  exists runs. split; [exact Hr|]. split; [|exact Hcnt].
  eapply Forall_impl; [|exact Hfa]. intros r [_ H]. exact H.
Qed.

Lemma visible_runs_spec st : classified st ->
  exists runs, visible_runs st = (runs, Ret tt) /\
    Forall (is_run 1 st) runs /\
    forall i, 1 <= i <= numcoords st ->
      cover_count i runs = if visible_ st i =? 1 then 1%nat else 0%nat.
Proof.
  intros Hc. unfold visible_runs. rewrite visible_outer_is_outer.
  destruct (sweep_from_1 1 0 ltac:(lia) st (classified_swap st Hc))
    as (runs & Hr & Hfa & Hcnt).
  exists runs. split; [exact Hr|]. split; [|exact Hcnt].
  eapply Forall_impl; [|exact Hfa]. intros r [_ H]. exact H.
Qed.

Lemma cover_count_app i l1 l2 :
  cover_count i (l1 ++ l2) = (cover_count i l1 + cover_count i l2)%nat.
Proof. unfold cover_count. rewrite filter_app, length_app. reflexivity. Qed.

Lemma count_subpaths_app l1 l2 :
  count_subpaths (l1 ++ l2) = (count_subpaths l1 + count_subpaths l2)%nat.
Proof. unfold count_subpaths. rewrite filter_app, length_app. reflexivity. Qed.

Lemma count_subpaths_add_subtrajectory st ka kb map type :
  count_subpaths (add_subtrajectory st ka kb map type)
  = if ka <? kb then 1%nat else 0%nat.
Proof. unfold add_subtrajectory. destruct (ka <? kb); reflexivity. Qed.

Lemma classified_trajectory_of_flags l :
  forallb (fun v => (v =? 0) || (v =? 1)) l = true ->
  classified (trajectory_of_flags l).
Proof.
  intros H k Hk. simpl in *.
  rewrite forallb_forall in H.
  assert (Hin : In (nth (Z.to_nat (k - 1)) l 0) l) by (apply nth_In; lia).
  apply H in Hin. apply orb_true_iff in Hin.
  destruct Hin as [E|E]; apply Z.eqb_eq in E; auto.
Qed.

(** ** The sweeps: theorems *)

Lemma add_hidden_output st map :
  fst (add_hidden_subtrajectories st map) =
  flat_map (fun r => add_subtrajectory st (fst r) (snd r) map "hidden")
           (fst (hidden_runs st)).
Proof.
  unfold add_hidden_subtrajectories. destruct (hidden_runs st) as [runs r]. simpl.
  apply flat_map_ext. intros [ka kb]. reflexivity.
Qed.

Lemma add_visible_output st map :
  fst (add_visible_subtrajectories st map) =
  flat_map (fun r => add_subtrajectory st (fst (widen st r)) (snd (widen st r))
                                       map "visible")
           (fst (visible_runs st)).
Proof.
  unfold add_visible_subtrajectories. destruct (visible_runs st) as [runs r]. simpl.
  apply flat_map_ext. intros run. destruct (widen st run). reflexivity.
Qed.

Lemma widen_spec st r :
  fst (widen st r) = (if fst r >? 1 then fst r - 1 else fst r) /\
  snd (widen st r) = (if snd r <? numcoords st then snd r + 1 else snd r).
Proof. destruct r as [ka kb]. split; reflexivity. Qed.

Lemma widen_bounds c st r : is_run c st r ->
  1 <= fst (widen st r) <= fst r /\ fst r - fst (widen st r) <= 1 /\
  snd r <= snd (widen st r) <= numcoords st /\ snd (widen st r) - snd r <= 1 /\
  (fst (widen st r) < snd (widen st r) <-> 1 < numcoords st).
Proof.
  destruct r as [ka kb]. simpl. intros (H1 & H2 & _).
  destruct (ka >? 1) eqn:Ea; destruct (kb <? numcoords st) eqn:Eb;
    try apply Z.gtb_lt in Ea; try apply Z.ltb_lt in Eb;
    try (apply Z.ltb_ge in Eb);
    try (assert (ka <= 1) by (rewrite Z.gtb_ltb in Ea; apply Z.ltb_ge in Ea; lia));
    lia.
Qed.

Lemma count_subpaths_flat_map {A : Type} (g : A -> list primitive) (h : A -> nat) l :
  (forall x, In x l -> count_subpaths (g x) = h x) ->
  count_subpaths (flat_map g l) = list_sum (List.map h l).
Proof.
  induction l as [|a l IH]; intros H; simpl; [reflexivity|].
  rewrite count_subpaths_app, H by (left; reflexivity).
  rewrite IH by (intros x Hx; apply H; right; exact Hx). reflexivity.
Qed.

Lemma list_sum_indicator {A : Type} (p : A -> bool) l :
  list_sum (List.map (fun x => if p x then 1%nat else 0%nat) l)
  = List.length (filter p l).
Proof.
  induction l as [|a l IH]; simpl; [reflexivity|].
  rewrite IH. destruct (p a); reflexivity.
Qed.

Lemma add_subtrajectory_class st ka kb map t :
  Forall (fun p => only_class t p = true) (add_subtrajectory st ka kb map t).
Proof.
  unfold add_subtrajectory. constructor; [reflexivity|].
  destruct (ka <? kb); constructor; [|constructor].
  simpl. apply String.eqb_refl.
Qed.

Lemma flat_map_Forall {A B : Type} (P : B -> Prop) (g : A -> list B) (l : list A) :
  (forall a, Forall P (g a)) -> Forall P (flat_map g l).
Proof.
  intros Hg. induction l as [|a l IH]; simpl; [constructor|].
  apply Forall_app. split; [apply Hg | exact IH].
Qed.

Lemma written_paths_app l1 l2 :
  written_paths (l1 ++ l2) = written_paths l1 ++ written_paths l2.
Proof. unfold written_paths. rewrite filter_app, map_app. reflexivity. Qed.

Lemma written_paths_add_subtrajectory st ka kb map type :
  written_paths (add_subtrajectory st ka kb map type)
  = if ka <? kb then [projected st map (ka, kb)] else [].
Proof. unfold add_subtrajectory. destruct (ka <? kb); reflexivity. Qed.

Lemma written_paths_flat_map {A : Type} (g : A -> list primitive)
      (p : A -> bool) (h : A -> list (R * R)) l :
  (forall x, In x l -> written_paths (g x) = if p x then [h x] else []) ->
  written_paths (flat_map g l) = List.map h (filter p l).
Proof.
  induction l as [|a l IH]; intros H; cbn [flat_map filter]; [reflexivity|].
  rewrite written_paths_app, H by (left; reflexivity).
  rewrite IH by (intros x Hx; apply H; right; exact Hx).
  destruct (p a); reflexivity.
Qed.

Lemma filter_const {A : Type} (p : A -> bool) (b : bool) l :
  (forall x, In x l -> p x = b) -> filter p l = if b then l else [].
Proof.
  induction l as [|a l IH]; intros H; cbn [filter]; [destruct b; reflexivity|].
  rewrite H by (left; reflexivity).
  rewrite IH by (intros x Hx; apply H; right; exact Hx).
  destruct b; reflexivity.
Qed.

(** A run that covers [i] has two samples or more unless [i] stands alone. *)
Lemma long_run_covers st r i :
  is_run 0 st r -> covers i r = true ->
  (fst r <? snd r) = negb (lone_hidden st i).
Proof.
  destruct r as [a b]. cbn [is_run covers fst snd].
  intros (H1 & H2 & H3 & H4 & H5) Hc.
  apply andb_true_iff in Hc. destruct Hc as [Ha Hb].
  apply Z.leb_le in Ha. apply Z.leb_le in Hb.
  unfold lone_hidden. rewrite (H3 i) by lia. cbn [Z.eqb andb].
  destruct (Z_lt_le_dec a b) as [Hlt|Hge].
  - replace (a <? b) with true by (symmetry; apply Z.ltb_lt; exact Hlt).
    symmetry. apply negb_true_iff. apply andb_false_iff.
    destruct (Z.eq_dec i a) as [->|Hne].
    + right. apply orb_false_iff. split; [apply Z.eqb_neq; lia|].
      rewrite (H3 (a + 1)) by lia. reflexivity.
    + left. apply orb_false_iff. split; [apply Z.eqb_neq; lia|].
      rewrite (H3 (i - 1)) by lia. reflexivity.
  - assert (a = b) by lia. subst b. assert (i = a) by lia. subst i.
    replace (a <? a) with false by (symmetry; apply Z.ltb_ge; lia).
    symmetry. apply negb_false_iff. apply andb_true_iff. split.
    + destruct H4 as [->|H4]; [reflexivity|].
      apply orb_true_iff. right. apply negb_true_iff. apply Z.eqb_neq. exact H4.
    + destruct H5 as [->|H5]; [rewrite Z.eqb_refl; reflexivity|].
      apply orb_true_iff. right. apply negb_true_iff. apply Z.eqb_neq. exact H5.
Qed.

Lemma cover_count_long st i runs :
  Forall (is_run 0 st) runs ->
  cover_count i (filter (fun r => fst r <? snd r) runs)
  = if lone_hidden st i then 0%nat else cover_count i runs.
Proof.
  unfold cover_count. induction 1 as [|r l Hr _ IH]; cbn [filter].
  - destruct (lone_hidden st i); reflexivity.
  - destruct (covers i r) eqn:Ec.
    + rewrite (long_run_covers st r i Hr Ec).
      destruct (lone_hidden st i); cbn [negb filter].
      * exact IH.
      * rewrite Ec. cbn [List.length]. rewrite IH. reflexivity.
    + destruct (fst r <? snd r); cbn [filter]; [rewrite Ec|]; exact IH.
Qed.

Lemma emitted_hidden_runs_long st map :
  emitted_hidden_runs st map = filter (fun r => fst r <? snd r) (fst (hidden_runs st)).
Proof.
  unfold emitted_hidden_runs. apply filter_ext. intros r.
  rewrite count_subpaths_add_subtrajectory. destruct (fst r <? snd r); reflexivity.
Qed.

Lemma visible_run_is_drawn st r : is_run 1 st r ->
  (fst (widen st r) <? snd (widen st r)) = (1 <? numcoords st).
Proof.
  intros Hr. destruct (widen_bounds 1 st r Hr) as (_ & _ & _ & _ & Hw).
  destruct (1 <? numcoords st) eqn:EN.
  - apply Z.ltb_lt. apply Hw. apply Z.ltb_lt. exact EN.
  - apply Z.ltb_ge. apply Z.ltb_ge in EN.
    destruct (Z_lt_le_dec (fst (widen st r)) (snd (widen st r))) as [Hlt|Hle]; [|lia].
    apply Hw in Hlt. lia.
Qed.

Lemma emitted_visible_runs_all st map :
  Forall (is_run 1 st) (fst (visible_runs st)) ->
  emitted_visible_runs st map
  = if 1 <? numcoords st then fst (visible_runs st) else [].
Proof.
  intros Hv. unfold emitted_visible_runs. apply filter_const. intros r Hr.
  rewrite Forall_forall in Hv.
  rewrite count_subpaths_add_subtrajectory, (visible_run_is_drawn st r (Hv r Hr)).
  destruct (1 <? numcoords st); reflexivity.
Qed.

(** What the hidden sweep writes: one sub-path over the samples of every
    range found that has two samples or more. *)
Lemma hidden_paths st map :
  written_paths (fst (add_hidden_subtrajectories st map))
  = List.map (projected st map)
             (filter (fun r => fst r <? snd r) (fst (hidden_runs st))).
Proof.
  rewrite add_hidden_output. apply written_paths_flat_map.
  intros r _. rewrite written_paths_add_subtrajectory.
  destruct r; reflexivity.
Qed.

(** What the visible sweep writes: one sub-path over the samples of every
    range found, widened, when the trajectory has two samples or more. *)
Lemma visible_paths st map :
  Forall (is_run 1 st) (fst (visible_runs st)) ->
  written_paths (fst (add_visible_subtrajectories st map))
  = List.map (fun r => projected st map (widen st r))
             (if 1 <? numcoords st then fst (visible_runs st) else []).
Proof.
  intros Hv. rewrite add_visible_output.
  rewrite (written_paths_flat_map _ (fun _ => 1 <? numcoords st)
                                  (fun r => projected st map (widen st r))).
  - f_equal. apply filter_const. reflexivity.
  - intros r Hr. rewrite Forall_forall in Hv.
    rewrite written_paths_add_subtrajectory, (visible_run_is_drawn st r (Hv r Hr)).
    destruct (widen st r); reflexivity.
Qed.

(** C3, as the code has it.  On a classified trajectory both sweeps return;
    the ranges found by the hidden sweep are maximal runs of hidden samples,
    those found by the visible sweep (before widening) are maximal runs of
    visible samples, and every index of 1..N lies in exactly one of all
    these ranges.  Not every range found is emitted: [add_subtrajectory]
    writes a sub-path for a hidden range only when it has two samples or
    more, and for a visible range only when the trajectory has two samples
    or more.  The sub-paths that [add_hidden_subtrajectories] and
    [add_visible_subtrajectories] write are those of the emitted ranges, in
    order; no index lies in two emitted ranges, and the indices that lie in
    none are the hidden samples that stand alone and the sample of a
    trajectory of one sample. *)
Theorem core_ranges_partition (st : stoketraject) (map : pmap) :
  classified st ->
  snd (hidden_runs st) = Ret tt /\ snd (visible_runs st) = Ret tt /\
  Forall (is_run 0 st) (fst (hidden_runs st)) /\
  Forall (is_run 1 st) (fst (visible_runs st)) /\
  (forall i, 1 <= i <= numcoords st ->
     cover_count i (fst (hidden_runs st) ++ fst (visible_runs st)) = 1%nat) /\
  emitted_hidden_runs st map
    = filter (fun r => fst r <? snd r) (fst (hidden_runs st)) /\
  emitted_visible_runs st map
    = (if 1 <? numcoords st then fst (visible_runs st) else []) /\
  written_paths (fst (add_hidden_subtrajectories st map))
    = List.map (projected st map) (emitted_hidden_runs st map) /\
  written_paths (fst (add_visible_subtrajectories st map))
    = List.map (fun r => projected st map (widen st r)) (emitted_visible_runs st map) /\
  (forall i, 1 <= i <= numcoords st ->
     cover_count i (emitted_hidden_runs st map ++ emitted_visible_runs st map)
     = if lone_hidden st i || (numcoords st =? 1) then 0%nat else 1%nat).
Proof.
  intros Hc.
  destruct (hidden_runs_spec st Hc) as (hid & Eh & Hh & Ch).
  destruct (visible_runs_spec st Hc) as (vis & Ev & Hv & Cv).
  assert (Hv' : Forall (is_run 1 st) (fst (visible_runs st)))
    by (rewrite Ev; exact Hv).
  rewrite (emitted_hidden_runs_long st map), (emitted_visible_runs_all st map Hv').
  rewrite (hidden_paths st map), (visible_paths st map Hv').
  rewrite Eh, Ev. cbn [fst snd].
  split; [reflexivity|]. split; [reflexivity|]. split; [exact Hh|].
  split; [exact Hv|]. split.
  { intros i Hi. rewrite cover_count_app, (Ch i Hi), (Cv i Hi).
    destruct (Hc i Hi) as [E|E]; rewrite E; reflexivity. }
  split; [reflexivity|]. split; [reflexivity|]. split; [reflexivity|].
  split; [reflexivity|].
  intros i Hi. rewrite cover_count_app, (cover_count_long st i hid Hh), (Ch i Hi).
  assert (Hvis : cover_count i (if 1 <? numcoords st then vis else [])
                 = if 1 <? numcoords st
                   then (if visible_ st i =? 1 then 1%nat else 0%nat) else 0%nat).
  { destruct (1 <? numcoords st); [apply Cv; exact Hi | reflexivity]. }
  rewrite Hvis. unfold lone_hidden.
  destruct (Hc i Hi) as [E|E]; rewrite E; cbn [Z.eqb andb orb].
  - destruct ((i =? 1) || negb (visible_ st (i - 1) =? 0)) eqn:E1;
      destruct ((i =? numcoords st) || negb (visible_ st (i + 1) =? 0)) eqn:E2;
      cbn [andb orb];
      try (destruct (1 <? numcoords st); reflexivity);
      destruct (numcoords st =? 1) eqn:EN; try (destruct (1 <? numcoords st); reflexivity);
      exfalso; apply Z.eqb_eq in EN;
      assert (i = 1) by lia; subst i.
    + rewrite EN, Z.eqb_refl in E2. discriminate.
    + discriminate.
    + discriminate.
  - destruct (1 <? numcoords st) eqn:E1; destruct (numcoords st =? 1) eqn:E2;
      try reflexivity; exfalso.
    + apply Z.ltb_lt in E1. apply Z.eqb_eq in E2. lia.
    + apply Z.ltb_ge in E1. apply Z.eqb_neq in E2. lia.
Qed.

Lemma core_ranges_partition_witness :
  classified (trajectory_of_flags [0; 0; 1; 1; 0; 1; 0]) /\
  fst (hidden_runs (trajectory_of_flags [0; 0; 1; 1; 0; 1; 0]))
    = [(1, 2); (5, 5); (7, 7)] /\
  fst (visible_runs (trajectory_of_flags [0; 0; 1; 1; 0; 1; 0]))
    = [(3, 4); (6, 6)] /\
  emitted_hidden_runs (trajectory_of_flags [0; 0; 1; 1; 0; 1; 0]) front_view
    = [(1, 2)] /\
  emitted_visible_runs (trajectory_of_flags [0; 0; 1; 1; 0; 1; 0]) front_view
    = [(3, 4); (6, 6)] /\
  cover_count 5 (emitted_hidden_runs (trajectory_of_flags [0; 0; 1; 1; 0; 1; 0])
                                     front_view ++
                 emitted_visible_runs (trajectory_of_flags [0; 0; 1; 1; 0; 1; 0])
                                      front_view)
    = 0%nat.
Proof.
  assert (Hc : classified (trajectory_of_flags [0; 0; 1; 1; 0; 1; 0]))
    by (apply classified_trajectory_of_flags; reflexivity).
  split; [exact Hc|]. split; [reflexivity|]. split; [reflexivity|].
  split; [reflexivity|]. split; [reflexivity|].
  apply (core_ranges_partition _ front_view Hc). simpl. lia.
Defined.

(** C3, counterexample to the statement of the specification: in the
    trajectory visible, visible, hidden the hidden sweep finds the range
    (3,3) and writes no sub-path for it, the visible sweep finds and emits
    the range (1,2); the index 3 lies in the core range of no emitted run. *)
Lemma hidden_end_sample_is_in_no_emitted_range :
  classified (trajectory_of_flags [1; 1; 0]) /\
  numcoords (trajectory_of_flags [1; 1; 0]) = 3 /\
  fst (hidden_runs (trajectory_of_flags [1; 1; 0])) = [(3, 3)] /\
  count_subpaths
    (fst (add_hidden_subtrajectories (trajectory_of_flags [1; 1; 0]) front_view))
    = 0%nat /\
  emitted_hidden_runs (trajectory_of_flags [1; 1; 0]) front_view = [] /\
  emitted_visible_runs (trajectory_of_flags [1; 1; 0]) front_view = [(1, 2)] /\
  cover_count 3 (emitted_hidden_runs (trajectory_of_flags [1; 1; 0]) front_view ++
                 emitted_visible_runs (trajectory_of_flags [1; 1; 0]) front_view)
    = 0%nat.
Proof.
  split; [apply classified_trajectory_of_flags; reflexivity|].
  repeat split; reflexivity.
Qed.

(** C4.  The sub-paths that the hidden sweep writes run over the samples of
    the maximal runs of hidden samples, with the bounds of the run: one
    sub-path for every run of two samples or more, in order.  The sub-paths
    that the visible sweep writes run over the samples of the maximal runs
    of visible samples, each with one more sample in front when the run does
    not start at sample 1 and one more behind when it does not end at sample
    N: one sub-path for every run, in order, when the trajectory has two
    samples or more.  The extended bounds stay within 1..N.  The runs of
    either sweep cover the samples of its class, each once, and no other
    sample. *)
Theorem only_visible_runs_are_widened (st : stoketraject) (map : pmap) :
  classified st ->
  let N := numcoords st in
  let extended (r : Z * Z) :=
    ((if fst r >? 1 then fst r - 1 else fst r),
     (if snd r <? N then snd r + 1 else snd r)) in
  exists hid vis,
    hidden_runs st = (hid, Ret tt) /\ visible_runs st = (vis, Ret tt) /\
    Forall (is_run 0 st) hid /\ Forall (is_run 1 st) vis /\
    (forall i, 1 <= i <= N ->
       cover_count i hid = (if visible_ st i =? 0 then 1%nat else 0%nat) /\
       cover_count i vis = (if visible_ st i =? 1 then 1%nat else 0%nat)) /\
    written_paths (fst (add_hidden_subtrajectories st map))
      = List.map (projected st map) (filter (fun r => fst r <? snd r) hid) /\
    written_paths (fst (add_visible_subtrajectories st map))
      = List.map (fun r => projected st map (extended r))
                 (if 1 <? N then vis else []) /\
    Forall (fun r => 1 <= fst (extended r) <= snd (extended r) /\
                     snd (extended r) <= N) vis /\
    Forall (fun p => only_class "hidden" p = true)
           (fst (add_hidden_subtrajectories st map)) /\
    Forall (fun p => only_class "visible" p = true)
           (fst (add_visible_subtrajectories st map)).
Proof.
  intros Hc N extended.
  destruct (hidden_runs_spec st Hc) as (hid & Eh & Hh & Ch).
  destruct (visible_runs_spec st Hc) as (vis & Ev & Hv & Cv).
  assert (Hext : forall r, extended r = widen st r).
  { intros [a b]. reflexivity. }
  exists hid, vis. split; [exact Eh|]. split; [exact Ev|].
  split; [exact Hh|]. split; [exact Hv|].
  split; [intros i Hi; split; [apply Ch | apply Cv]; exact Hi|].
  split; [rewrite hidden_paths, Eh; reflexivity|].
  split.
  { rewrite visible_paths by (rewrite Ev; exact Hv). rewrite Ev. cbn [fst].
    apply map_ext. intros r. rewrite Hext. reflexivity. }
  split.
  { eapply Forall_impl; [|exact Hv]. intros r Hr. rewrite Hext.
    destruct (widen_bounds 1 st r Hr) as (B1 & _ & B3 & _).
    destruct r as [a b]. destruct Hr as (H1 & H2 & _).
    cbn [fst snd] in *. unfold N. lia. }
  split.
  - rewrite add_hidden_output. apply flat_map_Forall. intros r.
    apply add_subtrajectory_class.
  - rewrite add_visible_output. apply flat_map_Forall. intros r.
    apply add_subtrajectory_class.
Qed.

Lemma only_visible_runs_are_widened_witness :
  classified (trajectory_of_flags [0; 0; 1; 1; 0; 1; 0]) /\
  exists hid vis,
    hidden_runs (trajectory_of_flags [0; 0; 1; 1; 0; 1; 0]) = (hid, Ret tt) /\
    visible_runs (trajectory_of_flags [0; 0; 1; 1; 0; 1; 0]) = (vis, Ret tt) /\
    List.length
      (written_paths
         (fst (add_hidden_subtrajectories (trajectory_of_flags [0; 0; 1; 1; 0; 1; 0])
                                          front_view))) = 1%nat /\
    List.map (@List.length (R * R))
      (written_paths
         (fst (add_visible_subtrajectories (trajectory_of_flags [0; 0; 1; 1; 0; 1; 0])
                                           front_view))) = [4%nat; 3%nat].
Proof.
  assert (Hc : classified (trajectory_of_flags [0; 0; 1; 1; 0; 1; 0]))
    by (apply classified_trajectory_of_flags; reflexivity).
  split; [exact Hc|].
  destruct (only_visible_runs_are_widened _ front_view Hc)
    as (hid & vis & Eh & Ev & _ & _ & _ & Ph & Pv & _).
  exists hid, vis. split; [exact Eh|]. split; [exact Ev|].
  injection Eh as <-. injection Ev as <-.
  rewrite Ph, Pv. split; reflexivity.
Defined.

(** C5, as the code has it.  A hidden run gives exactly one sub-path when it
    has two samples or more and none when it has one.  A visible run is
    widened first, so it gives exactly one sub-path whenever the trajectory
    has two samples or more, whatever its own length; it gives none only
    when the trajectory is a single sample. *)
Theorem subpaths_per_run (st : stoketraject) (map : pmap) :
  classified st ->
  (forall r, In r (fst (hidden_runs st)) ->
     count_subpaths (add_subtrajectory st (fst r) (snd r) map "hidden")
     = if fst r <? snd r then 1%nat else 0%nat) /\
  (forall r, In r (fst (visible_runs st)) ->
     count_subpaths
       (add_subtrajectory st (fst (widen st r)) (snd (widen st r)) map "visible")
     = if 1 <? numcoords st then 1%nat else 0%nat) /\
  count_subpaths (fst (add_hidden_subtrajectories st map))
    = List.length (filter (fun r => fst r <? snd r) (fst (hidden_runs st))) /\
  count_subpaths (fst (add_visible_subtrajectories st map))
    = if 1 <? numcoords st then List.length (fst (visible_runs st)) else 0%nat.
Proof.
  intros Hc.
  destruct (visible_runs_spec st Hc) as (vis & Ev & Hv & _).
  assert (Hvis : forall r, In r (fst (visible_runs st)) ->
     count_subpaths
       (add_subtrajectory st (fst (widen st r)) (snd (widen st r)) map "visible")
     = if 1 <? numcoords st then 1%nat else 0%nat).
  { rewrite Ev. simpl. intros r Hr.
    rewrite Forall_forall in Hv. specialize (Hv r Hr).
    destruct (widen_bounds 1 st r Hv) as (_ & _ & _ & _ & Hw).
    rewrite count_subpaths_add_subtrajectory.
    destruct (1 <? numcoords st) eqn:EN.
    - apply Z.ltb_lt in EN. apply Hw in EN. apply Z.ltb_lt in EN. rewrite EN. reflexivity.
    - apply Z.ltb_ge in EN.
      replace (fst (widen st r) <? snd (widen st r)) with false; [reflexivity|].
      symmetry. apply Z.ltb_ge.
      destruct (Z_lt_le_dec (fst (widen st r)) (snd (widen st r)))
        as [Hlt|Hle]; [|lia].
      apply Hw in Hlt. lia. }
  split; [intros r _; apply count_subpaths_add_subtrajectory|].
  split; [exact Hvis|]. split.
  - rewrite add_hidden_output.
    rewrite (count_subpaths_flat_map _ (fun r => if fst r <? snd r then 1%nat else 0%nat))
      by (intros r _; apply count_subpaths_add_subtrajectory).
    apply list_sum_indicator.
  - rewrite add_visible_output.
    rewrite (count_subpaths_flat_map
               _ (fun _ => if 1 <? numcoords st then 1%nat else 0%nat))
      by exact Hvis.
    clear Hvis. destruct (1 <? numcoords st).
    + induction (fst (visible_runs st)) as [|a l IH]; simpl; [|rewrite IH]; reflexivity.
    + induction (fst (visible_runs st)) as [|a l IH]; simpl; [|rewrite IH]; reflexivity.
Qed.

Lemma subpaths_per_run_witness :
  classified (trajectory_of_flags [0; 0; 1; 1; 0; 1; 0]) /\
  count_subpaths
    (fst (add_hidden_subtrajectories (trajectory_of_flags [0; 0; 1; 1; 0; 1; 0])
                                     front_view)) = 1%nat /\
  count_subpaths
    (fst (add_visible_subtrajectories (trajectory_of_flags [0; 0; 1; 1; 0; 1; 0])
                                      front_view)) = 2%nat.
Proof.
  assert (Hc : classified (trajectory_of_flags [0; 0; 1; 1; 0; 1; 0]))
    by (apply classified_trajectory_of_flags; reflexivity).
  split; [exact Hc|].
  destruct (subpaths_per_run _ front_view Hc) as (_ & _ & H3 & H4).
  split; [exact H3 | exact H4].
Defined.

(** C5, counterexample to the statement of the specification: in the
    trajectory hidden, visible, hidden the visible run is the single sample
    2, and the visible sweep writes one sub-path for it (over the samples
    1..3). *)
Lemma single_visible_sample_is_drawn :
  fst (visible_runs (trajectory_of_flags [0; 1; 0])) = [(2, 2)] /\
  List.map (widen (trajectory_of_flags [0; 1; 0]))
           (fst (visible_runs (trajectory_of_flags [0; 1; 0]))) = [(1, 3)] /\
  count_subpaths
    (fst (add_visible_subtrajectories (trajectory_of_flags [0; 1; 0]) front_view))
  = 1%nat.
Proof. repeat split; reflexivity. Qed.

(** ** The two passes: order of the sub-paths *)

Lemma wbind_fst {A B : Type} (m : W A) (f : A -> W B) :
  exists l, fst (wbind m f) = fst m ++ l /\ (l = [] \/ exists a, l = fst (f a)).
Proof.
  destruct m as [l [a| | |]]; simpl.
  - destruct (f a) as [l' r] eqn:E. exists l'. split; [reflexivity|].
    right. exists a. rewrite E. reflexivity.
  - exists []. rewrite app_nil_r. auto.
  - exists []. rewrite app_nil_r. auto.
  - exists []. rewrite app_nil_r. auto.
Qed.

Lemma wbind_Forall {A B : Type} (P : primitive -> Prop) (m : W A) (f : A -> W B) :
  Forall P (fst m) -> (forall a, Forall P (fst (f a))) ->
  Forall P (fst (wbind m f)).
Proof.
  intros Hm Hf. destruct (wbind_fst m f) as (l & -> & [->|[a ->]]).
  - rewrite app_nil_r. exact Hm.
  - apply Forall_app. split; [exact Hm | apply Hf].
Qed.

Lemma wfor_Forall {A : Type} (P : primitive -> Prop) (l : list A) (body : A -> W unit) :
  (forall a, Forall P (fst (body a))) -> Forall P (fst (wfor l body)).
Proof.
  intros Hb. induction l as [|a l IH]; simpl.
  - constructor.
  - apply wbind_Forall; [apply Hb | intros _; exact IH].
Qed.

Lemma lift_Forall {A : Type} (P : primitive -> Prop) (m : outcome A) :
  Forall P (fst (lift m)).
Proof. constructor. Qed.



Lemma wbind_ret {A B : Type} l (a : A) (f : A -> W B) :
  wbind (l, Ret a) f = (l ++ fst (f a), snd (f a)).
Proof. cbn [wbind]. destruct (f a). reflexivity. Qed.

Lemma wbind_snd_ret {A B : Type} (m : W A) (f : A -> W B) a :
  snd m = Ret a -> snd (wbind m f) = snd (f a).
Proof.
  destruct m as [l r]. cbn [snd]. intros ->. cbn [wbind]. destruct (f a). reflexivity.
Qed.

Lemma agree_refl {A : Type} (m : W A) : agree m m.
Proof. split; reflexivity. Qed.

Lemma agree_bind {A B : Type} (m1 m2 : W A) (f1 f2 : A -> W B) :
  agree m1 m2 -> (forall a, agree (f1 a) (f2 a)) -> agree (wbind m1 f1) (wbind m2 f2).
Proof.
  unfold agree. destruct m1 as [l1 r1], m2 as [l2 r2]. cbn [fst snd].
  intros [<- Hl] Hf. destruct r1 as [a| | |]; cbn [wbind fst snd]; auto.
  destruct (Hf a) as [H1 H2]. destruct (f1 a), (f2 a). cbn [fst snd] in *.
  split; [exact H1|]. rewrite !filter_app, Hl, H2. reflexivity.
Qed.

Lemma add_subtrajectory_in_neither st ka kb map type :
  filter in_both_passes (add_subtrajectory st ka kb map type) = [].
Proof. unfold add_subtrajectory. destruct (ka <? kb); reflexivity. Qed.

Lemma flat_map_in_neither {A : Type} (g : A -> list primitive) (l : list A) :
  (forall a, filter in_both_passes (g a) = []) ->
  filter in_both_passes (flat_map g l) = [].
Proof.
  intros Hg. induction l as [|a l IH]; cbn [flat_map]; [reflexivity|].
  rewrite filter_app, Hg, IH. reflexivity.
Qed.

Lemma add_scanned_trajectory_agree st map :
  agree (add_scanned_trajectory st map HIDDEN) (add_scanned_trajectory st map VISIBLE).
Proof.
  unfold add_scanned_trajectory.
  change (HIDDEN =? HIDDEN) with true. change (VISIBLE =? HIDDEN) with false.
  change (VISIBLE =? VISIBLE) with true. cbv iota.
  apply agree_bind; [|intros; apply agree_refl].
  pose proof (sort_out_classified st map) as Hc.
  destruct (hidden_runs_spec _ Hc) as (hid & Eh & _).
  destruct (visible_runs_spec _ Hc) as (vis & Ev & _).
  split.
  - unfold add_hidden_subtrajectories, add_visible_subtrajectories.
    rewrite Eh, Ev. reflexivity.
  - rewrite add_hidden_output, add_visible_output.
    rewrite !flat_map_in_neither; [reflexivity| |];
      intros r; apply add_subtrajectory_in_neither.
Qed.




Section Passes.

Variable fscanf_f : stream -> Z * R * stream.
Variable get_tickmark_screen_coordinates :
  Z -> stoketraject -> pmap -> outcome (R * R * R * R).




Lemma add_scanned_tickmarks_agree st map :
  agree (add_scanned_tickmarks get_tickmark_screen_coordinates st map HIDDEN)
        (add_scanned_tickmarks get_tickmark_screen_coordinates st map VISIBLE).
Proof.
  unfold add_scanned_tickmarks.
  apply agree_bind; [apply agree_refl|]. intros _.
  induction (Zrange 1 (numtickmarks st)) as [|k l IH]; cbn [wfor];
    [apply agree_refl|].
  apply agree_bind; [|intros _; exact IH].
  apply agree_bind; [apply agree_refl|]. intros [[[xa ya] xb] yb].
  apply agree_bind; [apply agree_refl|]. intros _.
  change (HIDDEN =? VISIBLE) with false. change (VISIBLE =? VISIBLE) with true.
  change (HIDDEN =? HIDDEN) with true. change (VISIBLE =? HIDDEN) with false.
  destruct (visible_ st (tickmark st k) =? 0); split; reflexivity.
Qed.

Lemma trajectories_agree map : forall fuel s st coord,
  agree (trajectories fscanf_f get_tickmark_screen_coordinates
                      fuel s st coord map HIDDEN)
        (trajectories fscanf_f get_tickmark_screen_coordinates
                      fuel s st coord map VISIBLE).
Proof.
  induction fuel as [|n IH]; intros; cbn [trajectories]; [apply agree_refl|].
  destruct (new_trajectory s) as [b s'].
  destruct (b =? 0); [apply agree_refl|].
  apply agree_bind; [apply agree_refl|]. intros [[s'' st'] coord'].
  apply agree_bind; [apply add_scanned_trajectory_agree|]. intros st''.
  apply agree_bind; [apply add_scanned_tickmarks_agree|]. intros _.
  apply agree_bind; [apply agree_refl|]. intros _.
  apply IH.
Qed.

Lemma write_scanned_trajectories_agree fuel file map :
  agree (write_scanned_trajectories fscanf_f get_tickmark_screen_coordinates
                                    fuel file map HIDDEN)
        (write_scanned_trajectories fscanf_f get_tickmark_screen_coordinates
                                    fuel file map VISIBLE).
Proof.
  unfold write_scanned_trajectories.
  apply agree_bind; [apply agree_refl|]. intros [s|]; [|apply agree_refl].
  apply agree_bind; [apply agree_refl|]. intros _.
  apply agree_bind; [apply trajectories_agree|]. intros _. apply agree_refl.
Qed.



End Passes.





Section BarePasses.

Variable fscanf_f : stream -> Z * R * stream.
Variable get_tickmark_screen_coordinates :
  Z -> stoketraject -> pmap -> outcome (R * R * R * R).




End BarePasses.



(** ** Scanning labels: theorems *)

Lemma skip_line_length s : (List.length (skip_line s) <= List.length s)%nat.
Proof.
  induction s as [|c r IH]; simpl; [lia|].
  destruct (code c =? code newline); lia.
Qed.

Lemma readaway_loop_returns : forall fuel s,
  (List.length s < fuel)%nat -> exists s', readaway_loop fuel s = Ret s'.
Proof.
  induction fuel as [|n IH]; intros s Hs; [lia|].
  destruct s as [|c r].
  - exists []. reflexivity.
  - cbn [readaway_loop getc].
    destruct (negb (isalnum (code c) || (code c =? code "-") || (code c =? code "+"))
              && negb (code c =? EOF)).
    + simpl in Hs. pose proof (skip_line_length r).
      destruct (code c =? code newline); [apply IH; lia|].
      destruct (code c =? code "%"); apply IH; lia.
    + eexists. reflexivity.
Qed.

(** [readaway_comments_and_blanks] returns on every input. *)
Lemma readaway_returns s : exists s', readaway_comments_and_blanks s = Ret s'.
Proof. apply readaway_loop_returns. lia. Qed.

Lemma code_range c : 0 <= code c < 256.
Proof. unfold code. pose proof (nat_ascii_bounded c). lia. Qed.

Lemma code_inj c c' : code c = code c' -> c = c'.
Proof.
  unfold code. intros H. apply Nat2Z.inj in H.
  rewrite <- (ascii_nat_embedding c), <- (ascii_nat_embedding c'), H. reflexivity.
Qed.

Lemma skip_blanks_repeat n c r :
  (code c =? code " ") = false ->
  skip_blanks (repeat " "%char n ++ c :: r) = c :: r.
Proof.
  intros Hc. induction n as [|n IH]; cbn [repeat app skip_blanks].
  - rewrite Hc. reflexivity.
  - rewrite Z.eqb_refl. exact IH.
Qed.

Lemma text_char_codes c : text_char c ->
  (code c =? code quote_mark) = false /\ (code c =? code newline) = false.
Proof.
  intros [H1 H2]. split; apply Z.eqb_neq; intros E; apply code_inj in E; contradiction.
Qed.

Lemma label_text_closed : forall text k acc rest,
  Forall text_char text -> k + Z.of_nat (List.length text) < 256 ->
  label_text (text ++ quote_mark :: rest) k acc
  = Ret (k + Z.of_nat (List.length text), rev acc ++ text, rest).
Proof.
  induction text as [|c t IH]; intros k acc rest Ht Hk; cbn [app label_text].
  - rewrite Z.eqb_refl. cbn [List.length]. rewrite Z.add_0_r, app_nil_r. reflexivity.
  - inversion Ht as [|? ? Hc Ht']; subst.
    destruct (text_char_codes c Hc) as [E1 E2]. rewrite E1, E2.
    cbn [List.length] in Hk.
    replace (k + 1 <? 256) with true by (symmetry; apply Z.ltb_lt; lia).
    rewrite (IH (k + 1) (c :: acc) rest Ht') by lia.
    cbn [rev]. rewrite <- app_assoc. cbn [app].
    replace (k + Z.of_nat (List.length (c :: t)))
      with (k + 1 + Z.of_nat (List.length t)) by (cbn [List.length]; lia).
    reflexivity.
Qed.

(** C7, as the code has it.  The position strings that [scan_label] accepts
    are exactly top, bot, lft, rgt, ulft, urgt, llft and lrgt, standing for
    top, bottom, left, right, upper left, upper right, lower left and lower
    right.  The position string is the scanned word as [strcmp] reads it,
    up to its first NUL.  When the word is shorter than 256 characters: with
    one of the eight position strings the position is stored and the
    statement is scanned to its end, with any other position string
    [scan_label] ends the run with exit(1).  A word of 256 characters or
    more runs off [tmpstr]. *)
Theorem label_positions_accepted (tmpstr : string) :
  (label_position tmpstr <> None <->
   In tmpstr ["top"; "bot"; "lft"; "rgt"; "ulft"; "urgt"; "llft"; "lrgt"]%string) /\
  (label_position "top" = Some TOPLABEL /\
   label_position "bot" = Some BOTTOMLABEL /\
   label_position "lft" = Some LEFTLABEL /\
   label_position "rgt" = Some RIGHTLABEL /\
   label_position "ulft" = Some UPPERLEFTLABEL /\
   label_position "urgt" = Some UPPERRIGHTLABEL /\
   label_position "llft" = Some LOWERLEFTLABEL /\
   label_position "lrgt" = Some LOWERRIGHTLABEL) /\
  (forall s s' word rest st lnum coordnum,
      readaway_comments_and_blanks s = Ret s' ->
      fscanf_s s' = (1, word, rest) ->
      c_string word = tmpstr ->
      1 <= lnum <= MAX_NUM_LABELS + 2 ->
      (Z.of_nat (String.length word) < 256 ->
       match label_position tmpstr with
       | None => scan_label s st lnum coordnum = Exit 1
       | Some pos =>
         forall n text rest',
           rest = repeat " "%char n ++ quote_mark :: text ++ quote_mark :: rest' ->
           Forall text_char text -> (List.length text < 256)%nat ->
           scan_label s st lnum coordnum
           = Ret (rest',
                  set_labeltext (set_labelpos (set_label st lnum coordnum) lnum pos)
                                lnum (Z.of_nat (List.length text)) text)
       end) /\
      (256 <= Z.of_nat (String.length word) ->
       scan_label s st lnum coordnum = Fault)).
Proof.
  split; [|split].
  - split.
    + unfold label_position. intros H.
      repeat match goal with
             | H : context [String.eqb tmpstr ?lit] |- _ =>
               destruct (String.eqb_spec tmpstr lit);
                 [subst; simpl; tauto|]
             end.
      contradiction.
    + simpl. intros H.
      repeat (destruct H as [<-|H]; [discriminate|]). contradiction.
  - repeat split; reflexivity.
  - intros s s' word rest st lnum coordnum Hr Hf Hw Hl.
    assert (Hhead : scan_label s st lnum coordnum =
              if 256 <=? Z.of_nat (String.length word) then Fault
              else
                match label_position tmpstr with
                | None => Exit 1
                | Some pos =>
                  let st := set_labelpos (set_label st lnum coordnum) lnum pos in
                  let s := skip_blanks rest in
                  let (ch, s) := getc s in
                  if negb (ch =? code quote_mark) then Exit 1
                  else
                    '(k, text, s) <- label_text s 0 [] ;;
                    Ret (s, set_labeltext st lnum k text)
                end).
    { unfold scan_label. rewrite Hr. cbn [bind].
      replace ((1 <=? lnum) && (lnum <=? MAX_NUM_LABELS + 2)) with true
        by (symmetry; apply andb_true_iff; split; apply Z.leb_le; lia).
      cbn [negb]. rewrite Hf. cbn [Z.eqb negb Pos.eqb]. rewrite Hw. reflexivity. }
    split.
    + intros Hlen. rewrite Hhead.
      replace (256 <=? Z.of_nat (String.length word)) with false
        by (symmetry; apply Z.leb_gt; lia).
      destruct (label_position tmpstr) as [pos|]; [|reflexivity].
      intros n text rest' -> Ht Htext.
      cbv zeta. rewrite skip_blanks_repeat by reflexivity.
      cbn [getc]. rewrite Z.eqb_refl. cbn [negb].
      rewrite label_text_closed by (try exact Ht; lia).
      reflexivity.
    + intros Hlen. rewrite Hhead.
      replace (256 <=? Z.of_nat (String.length word)) with true
        by (symmetry; apply Z.leb_le; lia).
      reflexivity.
Qed.

(** C7, counterexample to the statement of the specification: rt, urt and lrt
    are not accepted, a label with position rt ends the run with exit(1),
    and rgt, which the specification does not list, is accepted. *)
Lemma position_rt_is_rejected :
  label_position "rt" = None /\ label_position "urt" = None /\
  label_position "lrt" = None /\
  scan_label (chars " rt 'x'") empty_trajectory 1 1 = Exit 1 /\
  label_position "rgt" = Some RIGHTLABEL /\
  (exists s st, scan_label (chars " rgt 'x'") empty_trajectory 1 1 = Ret (s, st) /\
                labelpos st 1 = RIGHTLABEL /\ labeltext st 1 = ["x"%char]).
Proof.
  repeat split; try reflexivity.
  eexists. eexists. split; [vm_compute; reflexivity|]. split; reflexivity.
Qed.

(** A NUL in the scanned word ends the position string: the word made of
    top, a NUL and X is read as top. *)
Example nul_ends_the_position_string :
  exists s st,
    scan_label (chars " top" ++ zero :: chars "X 'x'") empty_trajectory 1 1
    = Ret (s, st) /\
    labelpos st 1 = TOPLABEL /\ labeltext st 1 = ["x"%char].
Proof.
  eexists. eexists. split; [vm_compute; reflexivity|]. split; reflexivity.
Qed.

(** ** An unterminated trajectory *)

(** C8, the code at the failing input: the file holds p, the triplet 1 0 0
    and then ends, with no q.  At the end of the file [fscanf] answers [EOF],
    which the test [!fscanf(...)] lets pass, so the scanner goes on to store
    a triplet that was never read.  The run never ends with an exit code,
    whatever the loop bound of the model; with three turns or more it ends
    in [Fault].  Nothing of the trajectory is written: the output stops
    behind the three statements that open the hidden pass.  When instead
    other text follows the triplet (here a second p), the scan of the next
    number fails and the run ends with exit(1), with the same output. *)
Theorem unterminated_trajectory_at_end_of_file
        (get_tickmark_screen_coordinates :
           Z -> stoketraject -> pmap -> outcome (R * R * R * R))
        (fuel : nat) :
  let run file :=
    main fscanf_f_decimal get_tickmark_screen_coordinates fuel (Some file) front_view in
  let written :=
    [Block "header"; Block "euler_angle_specs"; Block "sphere_shading_specs";
     Block "shaded_sphere"; Block "equators";
     SaveAhangle; SetAhangle 30; PickupPen 1] in
  (forall c, snd (run (lines ["p"; "1 0 0"; ""]%string)) <> Exit c) /\
  ((3 <= fuel)%nat -> snd (run (lines ["p"; "1 0 0"; ""]%string)) = Fault) /\
  fst (run (lines ["p"; "1 0 0"; ""]%string)) = written /\
  ((3 <= fuel)%nat ->
   snd (run (lines ["p"; "1 0 0"; "p"; "1 0 0"; "q"]%string)) = Exit 1 /\
   fst (run (lines ["p"; "1 0 0"; "p"; "1 0 0"; "q"]%string)) = written).
Proof.
  intros run written. unfold run, written.
  destruct fuel as [|[|[|n]]].
  - repeat split; try (intros; lia); try reflexivity. intros c. discriminate.
  - repeat split; try (intros; lia); try (vm_compute; reflexivity).
    intros c. vm_compute. discriminate.
  - repeat split; try (intros; lia); try (vm_compute; reflexivity).
    intros c. vm_compute. discriminate.
  - repeat split; intros; try (vm_compute; reflexivity).
    vm_compute. discriminate.
Qed.

(** ** The slots of the labels *)

(** C10, the code at the failing input.  [scan_beginlabel] stores the begin
    label in slot 1 and [scan_endlabel] stores the end label in slot
    [MAX_NUM_LABELS+2]; [scan_for_tickmarklabel] stores the tick labels of a
    trajectory in the slots 1, 2, 3, ... since [numlabels] starts from 0:
    the tick label scanned at [numlabels = n] goes to slot [n+1], for every
    slot up to [MAX_NUM_LABELS+2].  In the first file the only tick label
    goes to slot 1 and replaces the begin label.  In the second file the
    last of 52 tick labels goes to slot 52 and is replaced by the end
    label. *)
Theorem tick_label_takes_reserved_slot :
  MAX_NUM_LABELS + 2 = 52 /\
  (forall s st coordnum,
      scan_beginlabel s st coordnum = scan_label s st 1 coordnum /\
      scan_endlabel s st coordnum = scan_label s st (MAX_NUM_LABELS + 2) coordnum) /\
  (forall s st slot,
      numlabels st + 1 = slot -> 1 <= slot <= MAX_NUM_LABELS + 2 ->
      scan_for_tickmarklabel ("l"%char :: s) st
      = scan_label s (set_label (set_numlabels st slot) slot (numcoords st))
                   slot (numcoords st)) /\
  (exists s st,
      scan_trajectory fscanf_f_decimal 5
        (snd (new_trajectory (lines ["p b top 'B'"; "1 0 0 l bot 'T'"; "q"]%string)))
        empty_trajectory 0 = Ret (s, st, 1) /\
      numlabels st = 1 /\
      labeltext st 1 = ["T"%char] /\ labelpos st 1 = BOTTOMLABEL /\
      List.map (labellength st) (Zrange 2 52) = repeat 0 51) /\
  (exists s st,
      scan_trajectory fscanf_f_decimal 60
        (snd (new_trajectory
                (lines (["p"%string] ++ repeat "1 0 0 l top 'T'"%string 52
                                          ++ ["q e bot 'E'"%string]))))
        empty_trajectory 0 = Ret (s, st, 52) /\
      numlabels st = 52 /\
      labeltext st 52 = ["E"%char] /\ labelpos st 52 = BOTTOMLABEL /\
      List.map (labeltext st) (Zrange 1 51) = repeat ["T"%char] 51).
Proof.
  split; [reflexivity|]. split; [intros; split; reflexivity|]. split.
  - intros s st slot Hslot Hrange. unfold scan_for_tickmarklabel.
    change (tickmarklabel ("l"%char :: s)) with (1, s).
    cbv iota beta. change (negb (1 =? 0)) with true. cbv iota.
    cbn [numlabels set_numlabels]. rewrite Hslot.
    replace (slot <=? MAX_NUM_LABELS + 2) with true
      by (symmetry; apply Z.leb_le; lia).
    cbn [label numlabels numcoords set_label set_numlabels].
    unfold upd. rewrite Z.eqb_refl. reflexivity.
  - split.
    + eexists. eexists. split; [vm_compute; reflexivity|].
      repeat split; vm_compute; reflexivity.
    + eexists. eexists. split; [vm_compute; reflexivity|].
      repeat split; vm_compute; reflexivity.
Qed.

(** ** The scenario of three points *)

Lemma scenario_scanned n st0 :
  scan_trajectory fscanf_f_decimal (4 + n) (snd (new_trajectory scenario))
                  (reset_stokes_trajectory_struct st0) 0
  = Ret ([], three_points, 3).
Proof. vm_compute. reflexivity. Qed.

Lemma front_view_visible x y z :
  visible x y z front_view = if Rge_dec x 0 then 1 else 0.
Proof.
  unfold visible. cbn [rot_psi rot_phi front_view].
  rewrite cos_0, sin_0.
  replace (x * 1 * 1 - y * 0 * 1 + z * 0)%R with x by ring. reflexivity.
Qed.

Lemma front_view_projection x y z :
  get_screen_coordinates x y z front_view = (y, z).
Proof.
  unfold get_screen_coordinates.
  cbn [rot_psi rot_phi front_view use_normalized_stokes_params Z.eqb].
  rewrite cos_0, sin_0. f_equal; ring.
Qed.

Lemma three_points_flags :
  visible_ three_points_classified 1 = 1 /\
  visible_ three_points_classified 2 = 1 /\
  visible_ three_points_classified 3 = 0.
Proof.
  destruct (sort_out_spec three_points front_view) as (_ & _ & _ & _ & H).
  unfold three_points_classified. rewrite !H by (cbn; lia). rewrite !front_view_visible.
  change (s1 three_points 1) with (1 / 1)%R.
  change (s1 three_points 2) with (0 / 1)%R.
  change (s1 three_points 3) with (-1 / 1)%R.
  repeat split.
  - destruct (Rge_dec (1 / 1) 0); [reflexivity | exfalso; lra].
  - destruct (Rge_dec (0 / 1) 0); [reflexivity | exfalso; lra].
  - destruct (Rge_dec (-1 / 1) 0); [exfalso; lra | reflexivity].
Qed.

Lemma just_became_ext c d st st' k :
  same_flags st st' -> 1 <= k <= numcoords st ->
  just_became c d st k = just_became c d st' k.
Proof.
  intros [HN Hf] Hk. unfold just_became. rewrite <- HN.
  destruct (k =? 1) eqn:E1.
  - rewrite (Hf k Hk). reflexivity.
  - apply Z.eqb_neq in E1.
    rewrite (Hf k Hk), (Hf (k - 1)) by lia. reflexivity.
Qed.

Lemma inner_ext c d st st' : same_flags st st' ->
  forall fuel k ka kb, 1 <= k ->
    inner c d fuel st k ka kb = inner c d fuel st' k ka kb.
Proof.
  intros Hs. induction fuel as [|n IH]; intros k ka kb Hk; [reflexivity|].
  cbn [inner]. rewrite <- (proj1 Hs).
  destruct (k <=? numcoords st) eqn:Ek; [|reflexivity].
  apply Z.leb_le in Ek. cbn [andb].
  destruct (kb <? ka); [|reflexivity].
  rewrite (just_became_ext d c st st' k Hs) by lia.
  destruct (just_became d c st' k); cbn [bind]; try reflexivity.
  destruct (a =? 0); apply IH; lia.
Qed.

Lemma inner_result_ge c d st : forall fuel k ka kb k' kb',
  inner c d fuel st k ka kb = Ret (k', kb') -> k <= k'.
Proof.
  induction fuel as [|n IH]; intros k ka kb k' kb' H; [discriminate|].
  cbn [inner] in H.
  destruct ((k <=? numcoords st) && (kb <? ka)).
  - destruct (just_became d c st k); cbn [bind] in H; try discriminate.
    destruct (a =? 0); apply IH in H; lia.
  - injection H as <- _. lia.
Qed.

Lemma outer_ext c d st st' : same_flags st st' ->
  forall fuel k, 1 <= k -> outer c d fuel st k = outer c d fuel st' k.
Proof.
  intros Hs. induction fuel as [|n IH]; intros k Hk; [reflexivity|].
  cbn [outer]. rewrite <- (proj1 Hs).
  destruct (k <=? numcoords st) eqn:Ek; [|reflexivity].
  apply Z.leb_le in Ek.
  rewrite (just_became_ext c d st st' k Hs) by lia.
  destruct (just_became c d st' k); try reflexivity.
  destruct (a =? 0); [apply IH; lia|].
  rewrite (inner_ext c d st st' Hs) by lia.
  destruct (inner c d _ st' k k (k - 1)) as [[k' kb']| | |] eqn:Ei; try reflexivity.
  apply inner_result_ge in Ei. rewrite IH by lia. reflexivity.
Qed.

Lemma hidden_runs_ext st st' : same_flags st st' -> hidden_runs st = hidden_runs st'.
Proof.
  intros Hs. unfold hidden_runs. rewrite !hidden_outer_is_outer, <- (proj1 Hs).
  apply outer_ext; [exact Hs | lia].
Qed.

Lemma visible_runs_ext st st' : same_flags st st' -> visible_runs st = visible_runs st'.
Proof.
  intros Hs. unfold visible_runs. rewrite !visible_outer_is_outer, <- (proj1 Hs).
  apply outer_ext; [exact Hs | lia].
Qed.

Lemma three_points_same_flags :
  same_flags three_points_classified (trajectory_of_flags [1; 1; 0]).
Proof.
  destruct (sort_out_spec three_points front_view) as (HN & _).
  fold three_points_classified in HN.
  destruct three_points_flags as (F1 & F2 & F3).
  split; [rewrite HN; reflexivity|].
  rewrite HN. intros j Hj. change (numcoords three_points) with 3 in Hj.
  assert (j = 1 \/ j = 2 \/ j = 3) as [->|[->| ->]] by lia.
  - rewrite F1. reflexivity.
  - rewrite F2. reflexivity.
  - rewrite F3. reflexivity.
Qed.

Lemma three_points_runs :
  hidden_runs three_points_classified = ([(3, 3)], Ret tt) /\
  visible_runs three_points_classified = ([(1, 2)], Ret tt).
Proof.
  rewrite (hidden_runs_ext _ _ three_points_same_flags).
  rewrite (visible_runs_ext _ _ three_points_same_flags).
  split; reflexivity.
Qed.


Lemma three_points_hidden_pass :
  add_scanned_trajectory three_points front_view HIDDEN
  = ([PickupPen 1], Ret three_points_classified).
Proof.
  unfold add_scanned_trajectory. fold three_points_classified.
  change (HIDDEN =? HIDDEN) with true. cbv iota.
  unfold add_hidden_subtrajectories.
  rewrite (proj1 three_points_runs). reflexivity.
Qed.

Lemma three_points_visible_pass :
  add_scanned_trajectory three_points front_view VISIBLE
  = ([PickupPen 1;
      SubPath "visible" 0 [(0, 0); (1, 0); (0, 0)]%R Draw Black],
     Ret three_points_classified).
Proof.
  unfold add_scanned_trajectory. fold three_points_classified.
  change (VISIBLE =? HIDDEN) with false. change (VISIBLE =? VISIBLE) with true.
  cbv iota. unfold add_visible_subtrajectories.
  rewrite (proj2 three_points_runs).
  destruct (sort_out_spec three_points front_view) as (HN & H1 & H2 & H3 & _).
  fold three_points_classified in HN, H1, H2, H3.
  cbn [flat_map widen]. rewrite HN.
  change (numcoords three_points) with 3.
  change (2 <? 3) with true. change (1 >? 1) with false. cbv iota.
  unfold add_subtrajectory. rewrite HN, H1, H2, H3.
  change (numcoords three_points) with 3.
  change (Zrange 1 (2 + 1)) with [1; 2; 3]. cbn [List.map].
  rewrite !front_view_projection.
  change (s2 three_points 1) with (0 / 1)%R.
  change (s3 three_points 1) with (0 / 1)%R.
  change (s2 three_points 2) with (1 / 1)%R.
  change (s3 three_points 2) with (0 / 1)%R.
  change (s2 three_points 3) with (0 / 1)%R.
  change (s3 three_points 3) with (0 / 1)%R.
  replace (0 / 1)%R with 0%R by lra. replace (1 / 1)%R with 1%R by lra.
  reflexivity.
Qed.

Section Scenario.

Variable get_tickmark_screen_coordinates :
  Z -> stoketraject -> pmap -> outcome (R * R * R * R).

Lemma three_points_tickmarks viewtype :
  add_scanned_tickmarks get_tickmark_screen_coordinates
                        three_points_classified front_view viewtype
  = ([PickupPen (1 / 2)], Ret tt).
Proof.
  unfold add_scanned_tickmarks.
  destruct (sort_out_fields three_points front_view) as (H & _).
  fold three_points_classified in H. rewrite H. reflexivity.
Qed.

Lemma three_points_labels :
  add_scanned_labels three_points_classified front_view = ([], Ret tt).
Proof.
  unfold add_scanned_labels.
  destruct (sort_out_fields three_points front_view) as (_ & _ & _ & _ & _ & H & _).
  fold three_points_classified in H. rewrite H. reflexivity.
Qed.

Lemma scenario_trajectories n viewtype out st0 :
  add_scanned_trajectory three_points front_view viewtype
  = (out, Ret three_points_classified) ->
  trajectories fscanf_f_decimal get_tickmark_screen_coordinates
               (5 + n) scenario (reset_stokes_trajectory_struct st0) 0
               front_view viewtype
  = (out ++ [PickupPen (1 / 2)], Ret tt).
Proof.
  intros Hout.
  change (5 + n)%nat with (S (S (3 + n))). cbn [trajectories].
  replace (new_trajectory scenario) with (1, snd (new_trajectory scenario))
    by reflexivity.
  cbv iota beta. change (1 =? 0) with false. cbv iota.
  change (S (3 + n)) with (4 + n)%nat at 1.
  rewrite scenario_scanned. unfold lift. cbn [wbind].
  rewrite Hout. cbn [wbind].
  rewrite three_points_tickmarks. cbn [wbind].
  rewrite three_points_labels. cbn [wbind].
  change (new_trajectory []) with (0, @nil ascii).
  cbv iota beta. change (0 =? 0) with true. cbv iota.
  unfold wret. rewrite !app_nil_r. reflexivity.
Qed.

Lemma scenario_pass n viewtype out :
  add_scanned_trajectory three_points front_view viewtype
  = (out, Ret three_points_classified) ->
  write_scanned_trajectories fscanf_f_decimal get_tickmark_screen_coordinates
                             (5 + n) (Some scenario) front_view viewtype
  = ([SaveAhangle; SetAhangle 30; PickupPen 1] ++ out
       ++ [PickupPen (1 / 2); RestoreAhangle], Ret tt).
Proof.
  intros Hout. unfold write_scanned_trajectories.
  change (open_infile front_view (Some scenario)) with (Ret (Some scenario)).
  unfold lift. cbn [wbind]. 
  rewrite (scenario_trajectories n viewtype out _ Hout).
  unfold emit. cbn [wbind app]. rewrite <- app_assoc. reflexivity.
Qed.

Lemma scenario_main n :
  main fscanf_f_decimal get_tickmark_screen_coordinates (5 + n)
       (Some scenario) front_view
  = ([Block "header"; Block "euler_angle_specs"; Block "sphere_shading_specs";
      Block "shaded_sphere"; Block "equators";
      SaveAhangle; SetAhangle 30; PickupPen 1;
      PickupPen 1;
      PickupPen (1 / 2); RestoreAhangle;
      SaveAhangle; SetAhangle 30; PickupPen 1;
      PickupPen 1;
      SubPath "visible" 0 [(0, 0); (1, 0); (0, 0)]%R Draw Black;
      PickupPen (1 / 2); RestoreAhangle;
      Block "additional_arrows"; Block "coordinate_axes";
      Block "additional_coordinate_axes"; Block "included_auxiliary_source"],
     Ret 0).
Proof.
  unfold main.
  rewrite (scenario_pass n HIDDEN _ three_points_hidden_pass).
  rewrite (scenario_pass n VISIBLE _ three_points_visible_pass).
  reflexivity.
Qed.
End Scenario.

(** C9, as the code has it.  The scanner reads one trajectory of the three
    points (1,0,0), (0,1,0), (-1,0,0).  Their flags are visible, visible,
    hidden: the scalars are 1, 0 and -1.  The hidden sweep finds the single
    sample 3, which gives no sub-path; the visible sweep finds the samples
    1..2 and widens them to 1..3.  With five turns or more the run returns 0
    and the only sub-path written is one visible sub-path of three points. *)
Theorem scenario_three_points
        (get_tickmark_screen_coordinates :
           Z -> stoketraject -> pmap -> outcome (R * R * R * R))
        (n : nat) :
  scan_trajectory fscanf_f_decimal (4 + n) (snd (new_trajectory scenario))
                  empty_trajectory 0 = Ret ([], three_points, 3) /\
  numcoords three_points = 3 /\
  List.map (fun k => (s1 three_points k, s2 three_points k, s3 three_points k))
           [1; 2; 3]
    = [(1, 0, 0); (0, 1, 0); (-1, 0, 0)]%R /\
  List.map (visible_ (sort_out_visible_and_hidden three_points front_view)) [1; 2; 3]
    = [1; 1; 0] /\
  hidden_runs (sort_out_visible_and_hidden three_points front_view)
    = ([(3, 3)], Ret tt) /\
  visible_runs (sort_out_visible_and_hidden three_points front_view)
    = ([(1, 2)], Ret tt) /\
  snd (main fscanf_f_decimal get_tickmark_screen_coordinates (5 + n)
            (Some scenario) front_view) = Ret 0 /\
  filter is_subpath
         (fst (main fscanf_f_decimal get_tickmark_screen_coordinates (5 + n)
                    (Some scenario) front_view))
    = [SubPath "visible" 0 [(0, 0); (1, 0); (0, 0)]%R Draw Black].
Proof.
  split; [apply scenario_scanned|]. split; [reflexivity|]. split.
  { cbn [List.map].
    change (s1 three_points 1) with (1 / 1)%R.
    change (s2 three_points 1) with (0 / 1)%R.
    change (s3 three_points 1) with (0 / 1)%R.
    change (s1 three_points 2) with (0 / 1)%R.
    change (s2 three_points 2) with (1 / 1)%R.
    change (s3 three_points 2) with (0 / 1)%R.
    change (s1 three_points 3) with (-1 / 1)%R.
    change (s2 three_points 3) with (0 / 1)%R.
    change (s3 three_points 3) with (0 / 1)%R.
    replace (0 / 1)%R with 0%R by lra. replace (1 / 1)%R with 1%R by lra.
    replace (-1 / 1)%R with (-1)%R by lra. reflexivity. }
  fold three_points_classified.
  destruct three_points_flags as (F1 & F2 & F3).
  split; [cbn [List.map]; rewrite F1, F2, F3; reflexivity|].
  split; [apply three_points_runs|]. split; [apply three_points_runs|].
  rewrite scenario_main. split; reflexivity.
Qed.

(** C9, counterexample to the statement of the specification: the third
    point of the scanned trajectory, (-1,0,0), has the scalar -1 and is
    flagged hidden. *)
Lemma third_point_is_hidden :
  scan_trajectory fscanf_f_decimal 4 (snd (new_trajectory scenario))
                  empty_trajectory 0 = Ret ([], three_points, 3) /\
  visible (-1) 0 0 front_view = 0 /\
  visible_ (sort_out_visible_and_hidden three_points front_view) 3 = 0.
Proof.
  split; [apply (scenario_scanned 0)|]. split.
  - rewrite front_view_visible. destruct (Rge_dec (-1) 0); [exfalso; lra | reflexivity].
  - apply three_points_flags.
Qed.

(** * Further properties of the program *)

(** ** The order of the ranges *)

Section SweepOrder.

Variables c d : Z.
Hypothesis c_neq_d : c <> d.
Variable st : stoketraject.
Hypothesis two_classes :
  forall k, 1 <= k <= numcoords st -> visible_ st k = c \/ visible_ st k = d.

Lemma outer_sorted : forall fuel k,
  1 <= k ->
  (k <= numcoords st -> k = 1 \/ visible_ st (k - 1) = d) ->
  (Z.to_nat (Z.max 1 (numcoords st + 2 - k)) <= fuel)%nat ->
  StronglySorted apart (fst (outer c d fuel st k)).
Proof.
  induction fuel as [|n IH]; intros k Hk Hinv Hfuel; [lia|].
  cbn [outer]. destruct (k <=? numcoords st) eqn:EkN; [|constructor].
  apply Z.leb_le in EkN.
  rewrite (just_became_in_range st c d k) by lia.
  assert (Hb : (k =? 1) || (visible_ st (k - 1) =? d) = true).
  { destruct (Hinv EkN) as [->|Hd]; [reflexivity|].
    rewrite Hd, Z.eqb_refl. apply orb_true_r. }
  rewrite Hb, andb_true_r.
  destruct (visible_ st k =? c) eqn:Efk.
  - apply Z.eqb_eq in Efk. cbn [Z.eqb].
    destruct (inner_spec c d c_neq_d st two_classes k ltac:(lia) Efk
                         (S (S (Z.to_nat (numcoords st)))) k)
      as (e & kb & He & H1 & H2 & H3 & H4); try lia.
    rewrite He.
    assert (Hinv' : e + 1 <= numcoords st ->
                    e + 1 = 1 \/ visible_ st (e + 1 - 1) = d).
    { intros He1. right. replace (e + 1 - 1) with e by lia. apply H4. lia. }
    pose proof (IH (e + 1) ltac:(lia) Hinv' ltac:(lia)) as Hs.
    destruct (outer_spec c d c_neq_d st two_classes n (e + 1) ltac:(lia) Hinv'
                         ltac:(lia)) as (runs & Hr & Hfa & _).
    rewrite Hr in *. cbn [fst] in *. constructor; [exact Hs|].
    eapply Forall_impl; [|exact Hfa]. intros r [Hr1 _]. unfold apart. cbn [snd]. lia.
  - apply Z.eqb_neq in Efk. cbn [Z.eqb].
    apply IH; try lia. intros _. right. replace (k + 1 - 1) with k by lia.
    destruct (two_classes k ltac:(lia)); [contradiction|assumption].
Qed.

End SweepOrder.

Lemma widened_sorted c st runs :
  Forall (is_run c st) runs -> StronglySorted apart runs ->
  StronglySorted (fun r r' => snd r <= fst r') (List.map (widen st) runs).
Proof.
  intros Hrun Hs. induction Hs as [|r l Hs IH Hr]; cbn [List.map]; [constructor|].
  inversion Hrun as [|? ? Hr0 Hl]; subst.
  constructor; [apply IH; exact Hl|].
  apply Forall_map. rewrite Forall_forall in *. intros r' Hin.
  specialize (Hr r' Hin). specialize (Hl r' Hin). unfold apart in Hr.
  pose proof (widen_bounds c st r Hr0). pose proof (widen_bounds c st r' Hl). lia.
Qed.

(** X4.  On a classified trajectory each sweep finds its ranges in
    increasing order, with at least one sample between two ranges of the
    same class; two widened visible ranges share one sample at most. *)
Theorem ranges_in_order (st : stoketraject) :
  classified st ->
  StronglySorted apart (fst (hidden_runs st)) /\
  StronglySorted apart (fst (visible_runs st)) /\
  StronglySorted (fun r r' => snd r <= fst r')
                 (List.map (widen st) (fst (visible_runs st))).
Proof.
  intros Hc.
  assert (Hh : StronglySorted apart (fst (hidden_runs st))).
  { unfold hidden_runs. rewrite hidden_outer_is_outer.
    apply outer_sorted; [lia | exact Hc | lia | auto | lia]. }
  assert (Hv : StronglySorted apart (fst (visible_runs st))).
  { unfold visible_runs. rewrite visible_outer_is_outer.
    apply outer_sorted; [lia | apply classified_swap; exact Hc | lia | auto | lia]. }
  split; [exact Hh|]. split; [exact Hv|].
  destruct (visible_runs_spec st Hc) as (vis & Ev & Hrun & _).
  rewrite Ev in *. cbn [fst] in *.
  apply (widened_sorted 1); assumption.
Qed.

Lemma ranges_in_order_witness :
  classified (trajectory_of_flags [0; 0; 1; 1; 0; 1; 0]) /\
  StronglySorted apart (fst (hidden_runs (trajectory_of_flags [0; 0; 1; 1; 0; 1; 0]))) /\
  StronglySorted apart (fst (visible_runs (trajectory_of_flags [0; 0; 1; 1; 0; 1; 0]))) /\
  StronglySorted (fun r r' => snd r <= fst r')
    (List.map (widen (trajectory_of_flags [0; 0; 1; 1; 0; 1; 0]))
              (fst (visible_runs (trajectory_of_flags [0; 0; 1; 1; 0; 1; 0])))).
Proof.
  assert (Hc : classified (trajectory_of_flags [0; 0; 1; 1; 0; 1; 0]))
    by (apply classified_trajectory_of_flags; reflexivity).
  split; [exact Hc|].
  exact (ranges_in_order _ Hc).
Defined.

(** ** Arrow heads *)

Lemma count_arrows_app l1 l2 :
  count_arrows (l1 ++ l2) = (count_arrows l1 + count_arrows l2)%nat.
Proof. unfold count_arrows. rewrite filter_app, length_app. reflexivity. Qed.

Lemma count_arrows_add_subtrajectory st ka kb map type :
  count_arrows (add_subtrajectory st ka kb map type)
  = if (ka <? kb) && (kb =? numcoords st) && negb (draw_paths_as_arrows map =? 0)
    then 1%nat else 0%nat.
Proof.
  unfold add_subtrajectory, count_arrows. cbn [filter is_arrow].
  destruct (ka <? kb); [|reflexivity]. cbn [andb filter].
  destruct ((kb =? numcoords st) && negb (draw_paths_as_arrows map =? 0));
    [|reflexivity].
  destruct (negb (reverse_arrow_paths map =? 0)); reflexivity.
Qed.

Lemma count_arrows_flat_map {A : Type} (g : A -> list primitive) (p : A -> bool) l :
  (forall x, In x l -> count_arrows (g x) = if p x then 1%nat else 0%nat) ->
  count_arrows (flat_map g l) = List.length (filter p l).
Proof.
  induction l as [|a l IH]; intros H; cbn [flat_map filter]; [reflexivity|].
  rewrite count_arrows_app, H by (left; reflexivity).
  rewrite IH by (intros x Hx; apply H; right; exact Hx).
  destruct (p a); reflexivity.
Qed.

Lemma filter_le_cover i (p : Z * Z -> bool) runs :
  (forall r, In r runs -> p r = true -> covers i r = true) ->
  (List.length (filter p runs) <= cover_count i runs)%nat.
Proof.
  unfold cover_count. induction runs as [|r l IH]; intros H; cbn [filter]; [lia|].
  assert (IH' := IH (fun r' Hin => H r' (or_intror Hin))).
  destruct (p r) eqn:Ep.
  - rewrite (H r (or_introl eq_refl) Ep). cbn [List.length]. lia.
  - destruct (covers i r); cbn [List.length]; lia.
Qed.

Lemma filter_none {A : Type} (p : A -> bool) l :
  (forall r, In r l -> p r = false) -> filter p l = [].
Proof.
  induction l as [|a l IH]; intros H; cbn [filter]; [reflexivity|].
  rewrite (H a (or_introl eq_refl)). apply IH. intros r Hr. apply H. right. exact Hr.
Qed.

(** X5.  Over both sweeps of a classified trajectory at most one
    sub-path is stroked with [drawarrow]; when [draw_paths_as_arrows] is 0
    none is. *)
Theorem at_most_one_arrow_head (st : stoketraject) (map : pmap) :
  classified st ->
  (count_arrows (fst (add_hidden_subtrajectories st map))
   + count_arrows (fst (add_visible_subtrajectories st map)) <= 1)%nat /\
  (draw_paths_as_arrows map = 0 ->
   count_arrows (fst (add_hidden_subtrajectories st map)) = 0%nat /\
   count_arrows (fst (add_visible_subtrajectories st map)) = 0%nat).
Proof.
  intros Hc.
  destruct (hidden_runs_spec st Hc) as (hid & Eh & Hh & Ch).
  destruct (visible_runs_spec st Hc) as (vis & Ev & Hv & Cv).
  rewrite add_hidden_output, add_visible_output, Eh, Ev. cbn [fst].
  set (N := numcoords st).
  set (ar := negb (draw_paths_as_arrows map =? 0)).
  set (ph := fun r : Z * Z => (fst r <? snd r) && (snd r =? N) && ar).
  set (pv := fun r : Z * Z =>
               (fst (widen st r) <? snd (widen st r)) && (snd (widen st r) =? N) && ar).
  rewrite (count_arrows_flat_map _ ph)
    by (intros r _; apply count_arrows_add_subtrajectory).
  rewrite (count_arrows_flat_map _ pv)
    by (intros r _; apply count_arrows_add_subtrajectory).
  rewrite Forall_forall in Hh, Hv.
  assert (HeqN : N = numcoords st) by reflexivity.
  split.
  - clearbody N. destruct (Z_le_gt_dec N 1) as [HN|HN].
    { (* no range has two samples *)
      rewrite (filter_none ph), (filter_none pv); [cbn; lia| |].
      - intros r Hr. pose proof (widen_bounds 1 st r (Hv r Hr)) as Hw. unfold pv.
        replace (fst (widen st r) <? snd (widen st r)) with false; [reflexivity|].
        symmetry. apply Z.ltb_ge. lia.
      - intros [a b] Hr. destruct (Hh _ Hr) as (H1 & H2 & _). unfold ph. cbn [fst snd].
        replace (a <? b) with false; [reflexivity|].
        symmetry. apply Z.ltb_ge. lia. }
    (* a hidden arrow covers N - 1 and N; a visible arrow ends at N - 1 or N *)
    set (hh := (visible_ st N =? 0) && (visible_ st (N - 1) =? 0)).
    assert (Hph : (List.length (filter ph hid) <= if hh then 1 else 0)%nat).
    { destruct hh eqn:E; unfold hh in E.
      - apply andb_true_iff in E. destruct E as [E _].
        pose proof (Ch N ltac:(lia)) as HC.
        rewrite E in HC. rewrite <- HC.
        apply filter_le_cover. intros [a b] Hr Hp. unfold ph in Hp. cbn [fst snd] in Hp.
        apply andb_true_iff in Hp. destruct Hp as [Hp _].
        apply andb_true_iff in Hp. destruct Hp as [Hab HbN].
        apply Z.ltb_lt in Hab. apply Z.eqb_eq in HbN. cbn [covers].
        apply andb_true_iff. split; apply Z.leb_le; lia.
      - rewrite filter_none; [cbn; lia|].
        intros [a b] Hr. unfold ph. cbn [fst snd].
        destruct (a <? b) eqn:Hab; [|reflexivity].
        destruct (b =? N) eqn:HbN; [|reflexivity]. exfalso.
        apply Z.ltb_lt in Hab. apply Z.eqb_eq in HbN.
        destruct (Hh _ Hr) as (H1 & H2 & H3 & _).
        rewrite (H3 N), (H3 (N - 1)) in E by lia. discriminate. }
    assert (Hpv : (List.length (filter pv vis) <= if hh then 0 else 1)%nat).
    { destruct hh eqn:E; unfold hh in E.
      - apply andb_true_iff in E. destruct E as [E1 E2].
        apply Z.eqb_eq in E1. apply Z.eqb_eq in E2.
        rewrite filter_none; [cbn; lia|].
        intros [a b] Hr. unfold pv.
        destruct (snd (widen st (a, b)) =? N) eqn:HbN;
          [|rewrite andb_false_r; reflexivity].
        exfalso. apply Z.eqb_eq in HbN.
        pose proof (widen_bounds 1 st _ (Hv _ Hr)) as Hw. cbn [fst snd] in Hw.
        destruct (Hv _ Hr) as (H1 & H2 & H3 & _).
        assert (Hb : b = N \/ b = N - 1) by lia.
        destruct Hb as [->| ->].
        + rewrite (H3 N) in E1 by lia. discriminate.
        + rewrite (H3 (N - 1)) in E2 by lia. discriminate.
      - destruct (visible_ st N =? 1) eqn:EN.
        + (* the last sample is visible: the arrow range covers it *)
          pose proof (Cv N ltac:(lia)) as HC.
          rewrite EN in HC. rewrite <- HC.
          apply filter_le_cover. intros [a b] Hr Hp. unfold pv in Hp.
          apply andb_true_iff in Hp. destruct Hp as [Hp _].
          apply andb_true_iff in Hp. destruct Hp as [_ HbN]. apply Z.eqb_eq in HbN.
          pose proof (widen_bounds 1 st _ (Hv _ Hr)) as Hw. cbn [fst snd] in Hw.
          destruct (Hv _ Hr) as (H1 & H2 & H3 & H4 & H5).
          apply Z.eqb_eq in EN.
          assert (b = N).
          { destruct H5 as [H5|H5]; [lia|].
            assert (Hb : b = N \/ b = N - 1) by lia.
            destruct Hb as [Hb|Hb]; [exact Hb|]. subst b.
            replace (N - 1 + 1) with N in H5 by lia. contradiction. }
          subst b. cbn [covers]. apply andb_true_iff. split; apply Z.leb_le; lia.
        + (* the last sample is hidden: the arrow range ends at N - 1 *)
          pose proof (Cv (N - 1) ltac:(lia)) as HC.
          assert (Hle : (List.length (filter pv vis) <= cover_count (N - 1) vis)%nat).
          { apply filter_le_cover. intros [a b] Hr Hp. unfold pv in Hp.
            apply andb_true_iff in Hp. destruct Hp as [Hp _].
            apply andb_true_iff in Hp. destruct Hp as [_ HbN]. apply Z.eqb_eq in HbN.
            pose proof (widen_bounds 1 st _ (Hv _ Hr)) as Hw. cbn [fst snd] in Hw.
            destruct (Hv _ Hr) as (H1 & H2 & H3 & H4 & H5).
            assert (b <> N).
            { intros ->. rewrite (H3 N), Z.eqb_refl in EN by lia. discriminate. }
            cbn [covers]. apply andb_true_iff. split; apply Z.leb_le; lia. }
          rewrite HC in Hle. destruct (visible_ st (N - 1) =? 1); lia. }
    destruct hh; lia.
  - intros H0. unfold ph, pv, ar. rewrite H0. cbn [Z.eqb negb].
    rewrite !filter_none; [split; reflexivity| |]; intros r _; apply andb_false_r.
Qed.

Lemma at_most_one_arrow_head_witness :
  classified ends_hidden /\
  count_arrows (fst (add_hidden_subtrajectories ends_hidden arrow_view)) = 1%nat /\
  (count_arrows (fst (add_hidden_subtrajectories ends_hidden arrow_view))
   + count_arrows (fst (add_visible_subtrajectories ends_hidden arrow_view)) <= 1)%nat.
Proof.
  assert (Hc : classified ends_hidden)
    by (apply classified_trajectory_of_flags; reflexivity).
  split; [exact Hc|]. split; [reflexivity|].
  exact (proj1 (at_most_one_arrow_head _ arrow_view Hc)).
Defined.

(** ** What is written, whatever the input *)

Section Written.

Variable P : primitive -> Prop.
Variable map : pmap.
Hypothesis P_subtrajectory :
  forall st ka kb type, type = "hidden"%string \/ type = "visible"%string ->
    Forall P (add_subtrajectory st ka kb map type).
Hypothesis P_other : forall p, is_subpath p = false -> P p.

Variable fscanf_f : stream -> Z * R * stream.
Variable get_tickmark_screen_coordinates :
  Z -> stoketraject -> pmap -> outcome (R * R * R * R).

Lemma add_scanned_trajectory_written st viewtype :
  Forall P (fst (add_scanned_trajectory st map viewtype)).
Proof.
  unfold add_scanned_trajectory.
  apply wbind_Forall; [|intros; constructor].
  destruct (viewtype =? HIDDEN).
  - rewrite add_hidden_output. apply flat_map_Forall. intros r.
    apply P_subtrajectory. left. reflexivity.
  - destruct (viewtype =? VISIBLE); [|constructor].
    rewrite add_visible_output. apply flat_map_Forall. intros r.
    apply P_subtrajectory. right. reflexivity.
Qed.

Lemma add_scanned_labels_written st :
  Forall P (fst (add_scanned_labels st map)).
Proof.
  unfold add_scanned_labels. apply wfor_Forall. intros k.
  destruct (labellength st k >? 0); [|constructor].
  destruct ((TOPLABEL <=? labelpos st k) && (labelpos st k <=? UPPERRIGHTLABEL));
    [|constructor].
  destruct ((1 <=? label st k) && (label st k <=? MAX_NUM_STOKE_COORDS));
    [|constructor].
  destruct (get_screen_coordinates _ _ _ map).
  constructor; [apply P_other; reflexivity | constructor].
Qed.

Lemma add_scanned_tickmarks_written st viewtype :
  Forall P (fst (add_scanned_tickmarks get_tickmark_screen_coordinates st map viewtype)).
Proof.
  unfold add_scanned_tickmarks.
  apply wbind_Forall; [constructor; [apply P_other; reflexivity | constructor]|].
  intros _. apply wfor_Forall. intros k.
  apply wbind_Forall; [constructor|]. intros [[[xa ya] xb] yb].
  apply wbind_Forall; [constructor; [apply P_other; reflexivity | constructor]|].
  intros _.
  destruct (negb (visible_ st (tickmark st k) =? 0) && (viewtype =? VISIBLE));
    [constructor; [apply P_other; reflexivity | constructor]|].
  destruct ((visible_ st (tickmark st k) =? 0) && (viewtype =? HIDDEN));
    [constructor; [apply P_other; reflexivity | constructor] | constructor].
Qed.

Lemma trajectories_written fuel : forall s st coord viewtype,
  Forall P (fst (trajectories fscanf_f get_tickmark_screen_coordinates
                              fuel s st coord map viewtype)).
Proof.
  induction fuel as [|n IH]; intros; cbn [trajectories]; [constructor|].
  destruct (new_trajectory s) as [b s'].
  destruct (b =? 0); [constructor|].
  apply wbind_Forall; [constructor|]. intros [[s'' st'] coord'].
  apply wbind_Forall; [apply add_scanned_trajectory_written|]. intros st''.
  apply wbind_Forall; [apply add_scanned_tickmarks_written|]. intros _.
  apply wbind_Forall; [apply add_scanned_labels_written|]. intros _.
  apply IH.
Qed.

Lemma write_scanned_trajectories_written fuel file viewtype :
  Forall P (fst (write_scanned_trajectories fscanf_f get_tickmark_screen_coordinates
                                            fuel file map viewtype)).
Proof.
  unfold write_scanned_trajectories.
  apply wbind_Forall; [constructor|]. intros [s|]; [|constructor].
  apply wbind_Forall; [repeat (constructor; [apply P_other; reflexivity|]); constructor|].
  intros _.
  apply wbind_Forall; [apply trajectories_written|]. intros _.
  constructor; [apply P_other; reflexivity | constructor].
Qed.

Lemma main_written fuel file :
  Forall P (fst (main fscanf_f get_tickmark_screen_coordinates fuel file map)).
Proof.
  unfold main.
  apply wbind_Forall; [repeat (constructor; [apply P_other; reflexivity|]); constructor|].
  intros _.
  apply wbind_Forall; [apply write_scanned_trajectories_written|]. intros _.
  apply wbind_Forall; [apply write_scanned_trajectories_written|]. intros _.
  apply wbind_Forall; [repeat (constructor; [apply P_other; reflexivity|]); constructor|].
  intros _. constructor.
Qed.

End Written.

Lemma Zrange_length a b : List.length (Zrange a b) = Z.to_nat (b - a + 1).
Proof. unfold Zrange. rewrite length_map, length_seq. reflexivity. Qed.

Lemma add_subtrajectory_well_formed st ka kb map type :
  type = "hidden"%string \/ type = "visible"%string ->
  Forall (well_formed map) (add_subtrajectory st ka kb map type).
Proof.
  intros Ht. unfold add_subtrajectory. constructor; [exact I|].
  destruct (ka <? kb) eqn:E; [|constructor]. apply Z.ltb_lt in E.
  constructor; [|constructor]. cbn [well_formed].
  split; [rewrite length_map, Zrange_length; lia|].
  split; [reflexivity|]. split.
  - destruct Ht as [-> | ->]; [left | right]; (split; [reflexivity|]).
    + cbn [String.eqb Ascii.eqb]. destruct (draw_hidden_dashed map =? 0); reflexivity.
    + reflexivity.
  - destruct (draw_paths_as_arrows map =? 0) eqn:Ea.
    + rewrite andb_false_r. repeat split; intros; congruence.
    + split; [intros H0; rewrite H0 in Ea; discriminate|].
      destruct (kb =? numcoords st); cbn [andb negb];
        [|split; intros; discriminate].
      destruct (reverse_arrow_paths map =? 0) eqn:Er; cbn [negb].
      * apply Z.eqb_eq in Er. split; intros; [discriminate | exact Er].
      * apply Z.eqb_neq in Er. split; intros; [exact Er | discriminate].
Qed.

(** X6.  Whatever the trajectory file holds and however the run ends,
    every sub-path that [main] writes has two points or more, carries the
    Bezier setting of the command line, is of the class hidden (stroked
    dashed or in the gray tone of hidden paths, as [draw_hidden_dashed]
    says) or of the class visible (stroked black), is stroked with [draw]
    when [draw_paths_as_arrows] is 0, and is reversed only when
    [reverse_arrow_paths] is set. *)
Theorem every_subpath_is_well_formed
        (fscanf_f : stream -> Z * R * stream)
        (get_tickmark_screen_coordinates :
           Z -> stoketraject -> pmap -> outcome (R * R * R * R))
        (fuel : nat) (file : option stream) (map : pmap) :
  Forall (well_formed map)
         (fst (main fscanf_f get_tickmark_screen_coordinates fuel file map)).
Proof.
  apply main_written.
  - intros. apply add_subtrajectory_well_formed. assumption.
  - intros [] H; try exact I. discriminate.
Qed.

(** ** Classifying the samples *)

Lemma sort_out_flags st map k :
  visible_ (sort_out_visible_and_hidden st map) k
  = if (1 <=? k) && (k <=? numcoords st)
    then visible (s1 st k) (s2 st k) (s3 st k) map
    else visible_ st k.
Proof.
  destruct (sort_out_fold map (Zrange 1 (numcoords st)) st) as (_ & _ & _ & _ & H).
  fold (sort_out_visible_and_hidden st map) in H.
  destruct ((1 <=? k) && (k <=? numcoords st)) eqn:E.
  - apply (proj1 (H k)). apply Zrange_In.
    apply andb_true_iff in E. destruct E as [E1 E2].
    apply Z.leb_le in E1. apply Z.leb_le in E2. lia.
  - apply (proj2 (H k)). rewrite Zrange_In. intros [H1 H2].
    apply Z.leb_le in H1. apply Z.leb_le in H2. rewrite H1, H2 in E. discriminate.
Qed.

(** X7.  [sort_out_visible_and_hidden] sets the flag of every sample
    of [1..numcoords] to the answer of [visible] for that sample, leaves
    every other flag and every other field as it was, and changes nothing
    when it is run a second time. *)
Theorem sort_out_sets_the_flags_only (st : stoketraject) (map : pmap) :
  let st' := sort_out_visible_and_hidden st map in
  (numcoords st' = numcoords st /\ s1 st' = s1 st /\ s2 st' = s2 st /\
   s3 st' = s3 st /\ numtickmarks st' = numtickmarks st /\
   tickmark st' = tickmark st /\ numlabels st' = numlabels st /\
   label st' = label st /\ labeltext st' = labeltext st /\
   labellength st' = labellength st /\ labelpos st' = labelpos st) /\
  (forall k, visible_ st' k
             = if (1 <=? k) && (k <=? numcoords st)
               then visible (s1 st k) (s2 st k) (s3 st k) map
               else visible_ st k) /\
  (forall k, visible_ (sort_out_visible_and_hidden st' map) k = visible_ st' k).
Proof.
  intros st'.
  destruct (sort_out_spec st map) as (H0 & H1 & H2 & H3 & _).
  destruct (sort_out_fields st map) as (F1 & F2 & F3 & F4 & F5 & F6 & F7).
  fold st' in H0, H1, H2, H3, F1, F2, F3, F4, F5, F6, F7.
  split; [repeat split; assumption|].
  split; [intros k; apply sort_out_flags|].
  intros k. rewrite (sort_out_flags st' map k), H0, H1, H2, H3.
  unfold st'. rewrite (sort_out_flags st map k).
  destruct ((1 <=? k) && (k <=? numcoords st)); reflexivity.
Qed.

(** ** Nothing of a trajectory is left out *)

Lemma cover_count_pos i runs :
  (0 < cover_count i runs)%nat -> exists r, In r runs /\ covers i r = true.
Proof.
  unfold cover_count. induction runs as [|r l IH]; cbn [filter List.length]; [lia|].
  destruct (covers i r) eqn:E.
  - intros _. exists r. split; [left; reflexivity | exact E].
  - intros H. destruct (IH H) as (r' & Hin & Hc). exists r'. split; [right|]; assumption.
Qed.

(** X8.  In a classified trajectory of two samples or more every
    sample lies on a sub-path that is written: on a hidden range of two
    samples or more, or on a widened visible range.  A hidden sample that
    stands alone is not dropped; the widened visible range next to it
    covers it. *)
Theorem every_sample_is_drawn (st : stoketraject) :
  classified st -> 1 < numcoords st ->
  forall i, 1 <= i <= numcoords st ->
    (exists r, In r (fst (hidden_runs st)) /\ fst r < snd r /\ covers i r = true) \/
    (exists r, In r (fst (visible_runs st)) /\
               fst (widen st r) < snd (widen st r) /\
               covers i (widen st r) = true).
Proof.
  intros Hc HN i Hi.
  destruct (hidden_runs_spec st Hc) as (hid & Eh & Hh & Ch).
  destruct (visible_runs_spec st Hc) as (vis & Ev & Hv & Cv).
  rewrite Eh, Ev. cbn [fst]. rewrite Forall_forall in Hh, Hv.
  assert (Hvis : forall j, 1 <= j <= numcoords st -> visible_ st j = 1 ->
            exists r, In r vis /\ covers j r = true).
  { intros j Hj Ej. apply cover_count_pos. rewrite (Cv j Hj), Ej. cbn. lia. }
  assert (Hwide : forall r j, In r vis -> fst r - 1 <= j <= snd r + 1 ->
            1 <= j <= numcoords st ->
            fst (widen st r) < snd (widen st r) /\ covers j (widen st r) = true).
  { intros r j Hr Hj Hj1.
    pose proof (widen_bounds 1 st r (Hv r Hr)) as (B1 & B2 & B3 & B4 & B5).
    destruct (widen_spec st r) as [W1 W2].
    split; [apply B5; exact HN|].
    destruct (widen st r) as [a b]. cbn [fst snd covers] in *.
    apply andb_true_iff. split; apply Z.leb_le.
    - destruct (fst r >? 1) eqn:E; [lia|].
      assert (fst r <= 1) by (rewrite Z.gtb_ltb in E; apply Z.ltb_ge in E; lia). lia.
    - destruct (snd r <? numcoords st) eqn:E; [lia|]. apply Z.ltb_ge in E. lia. }
  destruct (Hc i Hi) as [E0|E1].
  - (* a hidden sample *)
    assert (Hin : exists r, In r hid /\ covers i r = true).
    { apply cover_count_pos. rewrite (Ch i Hi), E0. cbn. lia. }
    destruct Hin as ([a b] & Hr & Hcov).
    destruct (Z_lt_le_dec a b) as [Hlt|Hge]; [left; exists (a, b); auto|].
    right. destruct (Hh _ Hr) as (H1 & H2 & H3 & H4 & H5).
    cbn [covers] in Hcov. apply andb_true_iff in Hcov. destruct Hcov as [C1 C2].
    apply Z.leb_le in C1. apply Z.leb_le in C2.
    assert (a = i) by lia. assert (b = i) by lia. subst a b.
    destruct (Z.eq_dec i 1) as [->|Hne].
    + (* the sample behind it is visible *)
      destruct H5 as [H5|H5]; [lia|].
      assert (E2 : visible_ st (1 + 1) = 1)
        by (destruct (Hc (1 + 1) ltac:(lia)); [contradiction | assumption]).
      destruct (Hvis (1 + 1) ltac:(lia) E2) as ([a b] & Hr' & Hcov').
      exists (a, b). split; [exact Hr'|].
      destruct (Hv _ Hr') as (V1 & V2 & V3 & _).
      cbn [covers] in Hcov'. apply andb_true_iff in Hcov'. destruct Hcov' as [D1 D2].
      apply Z.leb_le in D1. apply Z.leb_le in D2.
      assert (a = 2).
      { destruct (Z.eq_dec a 1) as [->|]; [|lia].
        rewrite (V3 1) in E0 by lia. discriminate. }
      apply Hwide; [exact Hr' | cbn [fst snd]; lia | lia].
    + (* the sample before it is visible *)
      destruct H4 as [H4|H4]; [lia|].
      assert (E2 : visible_ st (i - 1) = 1)
        by (destruct (Hc (i - 1) ltac:(lia)); [contradiction | assumption]).
      destruct (Hvis (i - 1) ltac:(lia) E2) as ([a b] & Hr' & Hcov').
      exists (a, b). split; [exact Hr'|].
      destruct (Hv _ Hr') as (V1 & V2 & V3 & _).
      cbn [covers] in Hcov'. apply andb_true_iff in Hcov'. destruct Hcov' as [D1 D2].
      apply Z.leb_le in D1. apply Z.leb_le in D2.
      assert (b = i - 1).
      { destruct (Z_le_gt_dec i b) as [Hle|]; [|lia].
        rewrite (V3 i) in E0 by lia. discriminate. }
      apply Hwide; [exact Hr' | cbn [fst snd]; lia | lia].
  - (* a visible sample *)
    right. destruct (Hvis i Hi E1) as ([a b] & Hr & Hcov). exists (a, b).
    split; [exact Hr|]. cbn [covers] in Hcov. apply andb_true_iff in Hcov.
    destruct Hcov as [C1 C2]. apply Z.leb_le in C1. apply Z.leb_le in C2.
    apply Hwide; [exact Hr | cbn [fst snd]; lia | lia].
Qed.

Lemma every_sample_is_drawn_witness :
  classified ends_hidden /\ 1 < numcoords ends_hidden /\
  forall i, 1 <= i <= numcoords ends_hidden ->
    (exists r, In r (fst (hidden_runs ends_hidden)) /\ fst r < snd r /\
               covers i r = true) \/
    (exists r, In r (fst (visible_runs ends_hidden)) /\
               fst (widen ends_hidden r) < snd (widen ends_hidden r) /\
               covers i (widen ends_hidden r) = true).
Proof.
  assert (Hc : classified ends_hidden)
    by (apply classified_trajectory_of_flags; reflexivity).
  assert (HN : 1 < numcoords ends_hidden) by reflexivity.
  split; [exact Hc|]. split; [exact HN|].
  exact (every_sample_is_drawn ends_hidden Hc HN).
Defined.

(** ** The scanner: reading ahead *)

Lemma ungetc_code c s : ungetc (code c) s = c :: s.
Proof.
  unfold ungetc. pose proof (code_range c).
  replace (code c =? EOF) with false by (symmetry; apply Z.eqb_neq; unfold EOF; lia).
  unfold code. rewrite Nat2Z.id, ascii_nat_embedding. reflexivity.
Qed.

Lemma ungetc_getc s : ungetc (fst (getc s)) (snd (getc s)) = s.
Proof. destruct s as [|c r]; [reflexivity|]. cbn [getc fst snd]. apply ungetc_code. Qed.

(** X9.  A test for a marker character ([new_trajectory],
    [end_of_trajectory], [beginlabel], [tickmark], [tickmarklabel],
    [endlabel]) consumes the next character exactly when it is the marker;
    otherwise, also at the end of the file, the input is left as it was. *)
Theorem marker_test_reads_ahead_one_character (m : ascii) (s : stream) :
  (forall r, s = m :: r -> next_is m s = (1, r)) /\
  ((forall r, s <> m :: r) -> next_is m s = (0, s)).
Proof.
  unfold next_is. split.
  - intros r ->. cbn [getc]. rewrite Z.eqb_refl. reflexivity.
  - intros H. pose proof (ungetc_getc s) as Hu.
    destruct (getc s) as [ch s'] eqn:E. cbn [fst snd] in Hu.
    destruct (ch =? code m) eqn:Em; [|rewrite Hu; reflexivity].
    exfalso. apply Z.eqb_eq in Em. destruct s as [|c r]; cbn [getc] in E.
    + injection E as E1 E2. pose proof (code_range m). unfold EOF in *. lia.
    + injection E as E1 E2. rewrite <- E1 in Em. apply code_inj in Em.
      apply (H r). rewrite Em. reflexivity.
Qed.

Lemma readaway_loop_stops : forall fuel s,
  (List.length s < fuel)%nat ->
  exists pre s', readaway_loop fuel s = Ret s' /\ s = pre ++ s' /\
    (s' = [] \/
     exists c r, s' = c :: r /\
       isalnum (code c) || (code c =? code "-") || (code c =? code "+") = true).
Proof.
  induction fuel as [|n IH]; intros s Hs; [lia|].
  destruct s as [|c r].
  - exists [], []. split; [reflexivity|]. split; [reflexivity | left; reflexivity].
  - cbn [readaway_loop getc].
    pose proof (code_range c) as Hc.
    replace (code c =? EOF) with false by (symmetry; apply Z.eqb_neq; unfold EOF; lia).
    cbn [negb]. rewrite andb_true_r.
    destruct (isalnum (code c) || (code c =? code "-") || (code c =? code "+")) eqn:E;
      cbn [negb].
    + exists [], (c :: r). rewrite ungetc_code.
      split; [reflexivity|]. split; [reflexivity|]. right. exists c, r. auto.
    + cbn [List.length] in Hs.
      assert (Hskip : forall t, exists pre, t = pre ++ skip_line t).
      { induction t as [|a t [pre IHt]]; [exists []; reflexivity|].
        cbn [skip_line]. destruct (code a =? code newline).
        - exists [a]. reflexivity.
        - exists (a :: pre). cbn [app]. rewrite <- IHt. reflexivity. }
      pose proof (skip_line_length r) as Hl.
      assert (Hgo : forall t pre, r = pre ++ t -> (List.length t <= List.length r)%nat ->
                exists pre0 s', readaway_loop n t = Ret s' /\ c :: r = pre0 ++ s' /\
                  (s' = [] \/
                   exists c0 r0, s' = c0 :: r0 /\
                     isalnum (code c0) || (code c0 =? code "-") || (code c0 =? code "+")
                     = true)).
      { intros t pre Ht Hlt.
        destruct (IH t ltac:(lia)) as (pre1 & s' & H1 & H2 & H3).
        exists (c :: pre ++ pre1), s'. split; [exact H1|]. split; [|exact H3].
        cbn [app]. rewrite <- app_assoc, <- H2, <- Ht. reflexivity. }
      destruct (Hskip r) as [pre Hpre].
      destruct (code c =? code newline); [apply (Hgo r []); [reflexivity|lia]|].
      destruct (code c =? code "%").
      * apply (Hgo (skip_line r) pre); [exact Hpre | exact Hl].
      * apply (Hgo r []); [reflexivity|lia].
Qed.

Lemma readaway_loop_at_data : forall fuel c r,
  isalnum (code c) || (code c =? code "-") || (code c =? code "+") = true ->
  readaway_loop (S fuel) (c :: r) = Ret (c :: r).
Proof.
  intros fuel c r H. cbn [readaway_loop getc]. rewrite H. cbn [negb andb].
  pose proof (code_range c).
  replace (code c =? EOF) with false by (symmetry; apply Z.eqb_neq; unfold EOF; lia).
  cbn [negb]. rewrite ungetc_code. reflexivity.
Qed.

Lemma skip_line_split t :
  (exists text, Forall (fun c => c <> newline) text /\
                t = text ++ newline :: skip_line t) \/
  (Forall (fun c => c <> newline) t /\ skip_line t = []).
Proof.
  induction t as [|a t IH]; [right; split; [constructor | reflexivity]|].
  cbn [skip_line]. destruct (code a =? code newline) eqn:E.
  - apply Z.eqb_eq in E. apply code_inj in E. subst a.
    left. exists []. split; [constructor | reflexivity].
  - assert (Ha : a <> newline).
    { intros ->. rewrite Z.eqb_refl in E. discriminate. }
    destruct IH as [(text & Ht & Et)|[Ht Et]].
    + left. exists (a :: text). split; [constructor; assumption|].
      cbn [app]. rewrite <- Et. reflexivity.
    + right. split; [constructor; assumption | exact Et].
Qed.

Lemma readaway_loop_reads_away : forall fuel s,
  (List.length s < fuel)%nat ->
  exists pre s', readaway_loop fuel s = Ret s' /\ s = pre ++ s' /\ reads_away pre s'.
Proof.
  induction fuel as [|n IH]; intros s Hs; [lia|].
  destruct s as [|c r].
  - exists [], []. split; [reflexivity|]. split; [reflexivity | constructor].
  - cbn [readaway_loop getc].
    pose proof (code_range c) as Hc.
    replace (code c =? EOF) with false by (symmetry; apply Z.eqb_neq; unfold EOF; lia).
    cbn [negb]. rewrite andb_true_r.
    destruct (isalnum (code c) || (code c =? code "-") || (code c =? code "+")) eqn:E;
      cbn [negb].
    + exists [], (c :: r). rewrite ungetc_code.
      split; [reflexivity|]. split; [reflexivity|]. constructor. exact E.
    + cbn [List.length] in Hs.
      destruct (code c =? code newline) eqn:En.
      { destruct (IH r ltac:(lia)) as (pre & s' & H1 & H2 & H3).
        exists (c :: pre), s'. split; [exact H1|]. split; [cbn [app]; rewrite <- H2; reflexivity|].
        apply drop_char; [exact E| |exact H3].
        apply Z.eqb_eq in En. apply code_inj in En. subst c. discriminate. }
      destruct (code c =? code "%") eqn:Ep.
      * apply Z.eqb_eq in Ep. apply code_inj in Ep. subst c.
        pose proof (skip_line_length r) as Hl.
        destruct (IH (skip_line r) ltac:(lia)) as (pre & s' & H1 & H2 & H3).
        destruct (skip_line_split r) as [(text & Ht & Et)|[Ht Et]].
        -- exists ("%"%char :: text ++ newline :: pre), s'.
           split; [exact H1|]. split.
           ++ cbn [app]. rewrite <- app_assoc. cbn [app]. rewrite <- H2, <- Et. reflexivity.
           ++ apply drop_comment; assumption.
        -- rewrite Et in *. cbn [readaway_loop] in H1.
           destruct n as [|n]; [cbn [List.length] in *; lia|].
           cbn [readaway_loop getc] in H1. change (EOF =? EOF) with true in H1.
           change (negb true) with false in H1. rewrite andb_false_r in H1.
           injection H1 as <-.
           exists ("%"%char :: r), []. split; [reflexivity|].
           split; [rewrite app_nil_r; reflexivity|].
           apply drop_open_comment. exact Ht.
      * destruct (IH r ltac:(lia)) as (pre & s' & H1 & H2 & H3).
        exists (c :: pre), s'. split; [exact H1|]. split; [cbn [app]; rewrite <- H2; reflexivity|].
        apply drop_char; [exact E| |exact H3].
        intros ->. rewrite Z.eqb_refl in Ep. discriminate.
Qed.

Lemma line_unique : forall text1 text2 (r1 r2 : list ascii),
  Forall (fun c => c <> newline) text1 -> Forall (fun c => c <> newline) text2 ->
  text1 ++ newline :: r1 = text2 ++ newline :: r2 -> text1 = text2 /\ r1 = r2.
Proof.
  induction text1 as [|a t1 IH]; intros text2 r1 r2 H1 H2 E.
  - destruct text2 as [|b t2]; cbn [app] in E.
    + injection E as ->. split; reflexivity.
    + injection E as <- _. inversion H2; subst. contradiction.
  - destruct text2 as [|b t2]; cbn [app] in E.
    + injection E as -> _. inversion H1; subst. contradiction.
    + injection E as <- E. inversion H1; inversion H2; subst.
      destruct (IH t2 r1 r2) as [-> ->]; auto.
Qed.

Lemma line_open : forall text1 text2 (r1 : list ascii),
  Forall (fun c => c <> newline) text1 -> Forall (fun c => c <> newline) text2 ->
  text1 ++ newline :: r1 = text2 -> False.
Proof.
  intros text1 text2 r1 H1 H2 E. subst text2.
  apply Forall_app in H2. destruct H2 as [_ H2]. inversion H2; subst. contradiction.
Qed.

(** [reads_away] fixes what is dropped. *)
Lemma reads_away_unique pre1 s1 : reads_away pre1 s1 ->
  forall pre2 s2, reads_away pre2 s2 -> pre1 ++ s1 = pre2 ++ s2 ->
  pre1 = pre2 /\ s1 = s2.
Proof.
  induction 1 as [|c r Hc|c pre s' Hc Hp H IH|text pre s' Ht H IH|text Ht];
    intros pre2 s2 H2 E.
  - destruct pre2, s2; try discriminate. split; reflexivity.
  - inversion H2; subst; cbn [app] in E.
    + discriminate.
    + injection E as <- <-. split; reflexivity.
    + injection E as <- _. congruence.
    + injection E as -> _. discriminate.
    + injection E as -> _. discriminate.
  - inversion H2; subst; cbn [app] in E.
    + discriminate.
    + injection E as -> _. congruence.
    + injection E as <- E. destruct (IH _ _ H3 E) as [-> ->]. split; reflexivity.
    + injection E as -> _. contradiction.
    + injection E as -> _. contradiction.
  - inversion H2; subst; cbn [app] in E.
    + discriminate.
    + injection E as <- _. discriminate.
    + injection E as <- _. contradiction.
    + injection E as E. rewrite <- !app_assoc in E. cbn [app] in E.
      destruct (line_unique _ _ _ _ Ht H0 E) as [-> E'].
      destruct (IH _ _ H1 E') as [-> ->]. split; reflexivity.
    + injection E as E. rewrite <- app_assoc in E. cbn [app] in E.
      rewrite app_nil_r in E. exfalso. exact (line_open _ _ _ Ht H0 E).
  - inversion H2; subst; cbn [app] in E.
    + discriminate.
    + injection E as <- _. discriminate.
    + injection E as <- _. contradiction.
    + injection E as E. rewrite <- app_assoc in E. cbn [app] in E.
      rewrite app_nil_r in E. exfalso. symmetry in E.
      eapply line_open; [| |exact E]; assumption.
    + injection E as E. rewrite !app_nil_r in E. subst. split; reflexivity.
Qed.

(** X10.  [readaway_comments_and_blanks] returns on every input.  What
    it drops is made of characters that are not alphanumeric, [+] or [-]
    and of comments, each from its [%] to the end of its line whatever the
    line holds; it stops at the end of the file or in front of the first
    character outside a comment that is alphanumeric, [+] or [-].  No other
    split of the input has this form.  Called again on what it left, it
    drops nothing. *)
Theorem readaway_stops_at_data_or_end (s : stream) :
  exists pre s',
    readaway_comments_and_blanks s = Ret s' /\ s = pre ++ s' /\
    reads_away pre s' /\
    (forall pre2 s2, s = pre2 ++ s2 -> reads_away pre2 s2 -> pre2 = pre /\ s2 = s') /\
    readaway_comments_and_blanks s' = Ret s'.
Proof.
  destruct (readaway_loop_reads_away (S (List.length s)) s ltac:(lia))
    as (pre & s' & H1 & H2 & H3).
  exists pre, s'. split; [exact H1|]. split; [exact H2|]. split; [exact H3|].
  split.
  - intros pre2 s2 E H. rewrite H2 in E.
    destruct (reads_away_unique _ _ H3 _ _ H E) as [-> ->]. split; reflexivity.
  - assert (Hs' : s' = [] \/ exists c r, s' = c :: r /\ data_char c = true).
    { clear H1 H2. induction H3; auto. right. eauto. }
    destruct Hs' as [->|(c & r & -> & Hc)]; [reflexivity|].
    unfold readaway_comments_and_blanks. apply readaway_loop_at_data. exact Hc.
Qed.

(** A data character inside a comment is read away with the comment. *)
Example data_in_a_comment_is_read_away :
  readaway_comments_and_blanks (chars "% a" ++ newline :: chars " 1 0 0")
  = Ret (chars "1 0 0").
Proof. reflexivity. Qed.

(** ** Scanning a label *)

Lemma skip_space_suffix s : exists pre, s = pre ++ skip_space s.
Proof.
  induction s as [|c r [pre IH]]; [exists []; reflexivity|].
  cbn [skip_space]. destruct (isspace (code c)).
  - exists (c :: pre). cbn [app]. rewrite <- IH. reflexivity.
  - exists []. reflexivity.
Qed.

Lemma take_word_app s : s = fst (take_word s) ++ snd (take_word s).
Proof.
  induction s as [|c r IH]; [reflexivity|].
  cbn [take_word]. destruct (isspace (code c)); [reflexivity|].
  destruct (take_word r) as [w r'] eqn:E. cbn [fst snd app] in *.
  rewrite <- IH. reflexivity.
Qed.

Lemma fscanf_s_suffix s r w s' :
  fscanf_s s = (r, w, s') -> exists pre, s = pre ++ s'.
Proof.
  unfold fscanf_s. destruct (skip_space_suffix s) as [pre Hpre].
  destruct (skip_space s) as [|c t] eqn:E.
  - intros H. injection H as _ _ <-. exists s. rewrite app_nil_r. reflexivity.
  - pose proof (take_word_app (c :: t)) as Hw.
    destruct (take_word (c :: t)) as [w' r'] eqn:Ew. cbn [fst snd] in Hw.
    intros H. injection H as _ _ <-.
    exists (pre ++ w'). rewrite <- app_assoc, <- Hw. exact Hpre.
Qed.

Lemma skip_blanks_suffix s : exists pre, s = pre ++ skip_blanks s.
Proof.
  induction s as [|c r [pre IH]]; [exists []; reflexivity|].
  cbn [skip_blanks]. destruct (code c =? code " ").
  - exists (c :: pre). cbn [app]. rewrite <- IH. reflexivity.
  - exists []. reflexivity.
Qed.

(** The loop that reads the text: what it returns is what stood before the
    closing quote mark. *)
Lemma label_text_spec : forall s k acc k' text s',
  label_text s k acc = Ret (k', text, s') ->
  exists t, text = rev acc ++ t /\ s = t ++ quote_mark :: s' /\
            k' = k + Z.of_nat (List.length t) /\
            Forall text_char t /\ (k < 256 -> k' < 256).
Proof.
  induction s as [|c r IH]; intros k acc k' text s' H; [discriminate|].
  cbn [label_text] in H.
  destruct (code c =? code quote_mark) eqn:Eq.
  - injection H as <- <- <-. apply Z.eqb_eq in Eq. apply code_inj in Eq. subst c.
    exists []. rewrite app_nil_r. cbn [app List.length].
    repeat split; try lia; constructor.
  - destruct (code c =? code newline) eqn:En; [discriminate|].
    destruct (k + 1 <? 256) eqn:Ek; [|discriminate].
    apply Z.ltb_lt in Ek.
    destruct (IH _ _ _ _ _ H) as (t & H1 & H2 & H3 & H4 & H5).
    exists (c :: t). cbn [rev] in H1. rewrite <- app_assoc in H1. cbn [app] in *.
    split; [exact H1|]. split; [rewrite H2; reflexivity|].
    split; [cbn [List.length]; lia|]. split; [|intros _; apply H5; lia].
    constructor; [|exact H4]. split; intros ->.
    + rewrite Z.eqb_refl in Eq. discriminate.
    + rewrite Z.eqb_refl in En. discriminate.
Qed.

Lemma label_position_range w pos :
  label_position w = Some pos -> 1 <= pos <= 8.
Proof.
  unfold label_position.
  repeat match goal with
         | |- context [String.eqb w ?lit] => destruct (String.eqb w lit)
         end; intros H; try discriminate; injection H as <-;
    unfold TOPLABEL, UPPERLEFTLABEL, LEFTLABEL, LOWERLEFTLABEL, BOTTOMLABEL,
           LOWERRIGHTLABEL, RIGHTLABEL, UPPERRIGHTLABEL; lia.
Qed.

Lemma scan_label_spec
      (s : stream) (st : stoketraject) (lnum coordnum : Z)
      (s' : stream) (st' : stoketraject) :
  scan_label s st lnum coordnum = Ret (s', st') ->
  1 <= lnum <= MAX_NUM_LABELS + 2 /\
  (exists pre, s = pre ++ quote_mark :: labeltext st' lnum ++ quote_mark :: s') /\
  label st' lnum = coordnum /\
  1 <= labelpos st' lnum <= 8 /\
  labellength st' lnum = Z.of_nat (List.length (labeltext st' lnum)) /\
  labellength st' lnum < 256 /\
  Forall text_char (labeltext st' lnum) /\
  same_labels_but lnum st st'.
Proof.
  unfold scan_label, readaway_comments_and_blanks.
  destruct (readaway_loop_stops (S (List.length s)) s ltac:(lia))
    as (pre0 & s0 & -> & Hs0 & _).
  cbn [bind].
  destruct ((1 <=? lnum) && (lnum <=? MAX_NUM_LABELS + 2)) eqn:El;
    cbn [negb]; [|discriminate].
  apply andb_true_iff in El. destruct El as [El1 El2].
  apply Z.leb_le in El1. apply Z.leb_le in El2.
  destruct (fscanf_s s0) as [[r w] sa] eqn:Ef.
  destruct (fscanf_s_suffix _ _ _ _ Ef) as [pre1 Hs1].
  destruct (r =? 0); [discriminate|].
  destruct (r =? 1); cbn [negb]; [|discriminate].
  destruct (256 <=? Z.of_nat (String.length w)); [discriminate|].
  destruct (label_position (c_string w)) as [pos|] eqn:Ep; [|discriminate].
  destruct (skip_blanks_suffix sa) as [pre2 Hs2].
  destruct (getc (skip_blanks sa)) as [ch sb] eqn:Eg.
  destruct (ch =? code quote_mark) eqn:Eq; cbn [negb]; [|discriminate].
  destruct (label_text sb 0 []) as [[[k text] sc]| | |] eqn:Et; cbn [bind];
    try discriminate.
  intros H. injection H as <- <-.
  destruct (label_text_spec _ _ _ _ _ _ Et) as (t & H1 & H2 & H3 & H4 & H5).
  cbn [rev app] in H1. subst text.
  assert (Hq : skip_blanks sa = quote_mark :: sb).
  { destruct (skip_blanks sa) as [|c r']; cbn [getc] in Eg.
    - injection Eg as <- _. pose proof (code_range quote_mark).
      apply Z.eqb_eq in Eq. unfold EOF in Eq. lia.
    - injection Eg as <- <-. apply Z.eqb_eq in Eq. apply code_inj in Eq.
      rewrite Eq. reflexivity. }
  split; [lia|]. cbn [set_labeltext set_labelpos set_label labeltext label labelpos
                      labellength numcoords s1 s2 s3 visible_ numtickmarks
                      tickmark numlabels].
  unfold upd. rewrite !Z.eqb_refl.
  split.
  { exists (pre0 ++ pre1 ++ pre2). rewrite Hs0, Hs1, Hs2, Hq, H2.
    rewrite <- !app_assoc. reflexivity. }
  split; [reflexivity|].
  split; [apply (label_position_range (c_string w)); exact Ep|].
  split; [lia|]. split; [lia|]. split; [exact H4|].
  unfold same_labels_but.
  cbn [set_labeltext set_labelpos set_label labeltext label labelpos
       labellength numcoords s1 s2 s3 visible_ numtickmarks tickmark numlabels].
  split; [|repeat split; reflexivity].
  intros j Hj. unfold upd.
  replace (j =? lnum) with false by (symmetry; apply Z.eqb_neq; exact Hj).
  repeat split; reflexivity.
Qed.

(** X11.  When [scan_label] returns, the slot is one of
    [1..MAX_NUM_LABELS+2]; the text stored in it is what stood between two
    quote marks of the input, directly in front of what is left of the
    input; the text holds no quote mark and no newline and is shorter than
    256 characters; the slot is bound to the given sample and holds one of
    the eight positions; every other slot and every other field is
    unchanged. *)
Theorem scan_label_stores_one_label
        (s : stream) (st : stoketraject) (lnum coordnum : Z)
        (s' : stream) (st' : stoketraject) :
  scan_label s st lnum coordnum = Ret (s', st') ->
  1 <= lnum <= MAX_NUM_LABELS + 2 /\
  (exists pre, s = pre ++ quote_mark :: labeltext st' lnum ++ quote_mark :: s') /\
  label st' lnum = coordnum /\
  1 <= labelpos st' lnum <= 8 /\
  labellength st' lnum = Z.of_nat (List.length (labeltext st' lnum)) /\
  labellength st' lnum < 256 /\
  Forall text_char (labeltext st' lnum) /\
  same_labels_but lnum st st'.
Proof. apply scan_label_spec. Qed.

Lemma scan_label_stores_one_label_witness :
  exists st',
    scan_label (chars " rgt 'x'") empty_trajectory 1 7 = Ret ([], st') /\
    1 <= 1 <= MAX_NUM_LABELS + 2 /\
    (exists pre, chars " rgt 'x'"
                 = pre ++ quote_mark :: labeltext st' 1 ++ quote_mark :: []) /\
    label st' 1 = 7 /\
    1 <= labelpos st' 1 <= 8 /\
    labellength st' 1 = Z.of_nat (List.length (labeltext st' 1)) /\
    labellength st' 1 < 256 /\
    Forall text_char (labeltext st' 1) /\
    same_labels_but 1 empty_trajectory st'.
Proof.
  eexists. split; [vm_compute; reflexivity|].
  apply (scan_label_stores_one_label (chars " rgt 'x'") empty_trajectory 1 7).
  vm_compute. reflexivity.
Defined.

Lemma take_word_word : forall w sp r,
  forallb (fun c => negb (isspace (code c))) w = true ->
  isspace (code sp) = true ->
  take_word (w ++ sp :: r) = (w, sp :: r).
Proof.
  induction w as [|c w IH]; intros sp r Hw Hsp; cbn [app take_word].
  - rewrite Hsp. reflexivity.
  - cbn [forallb] in Hw. apply andb_true_iff in Hw. destruct Hw as [Hc Hw].
    apply negb_true_iff in Hc. rewrite Hc, (IH sp r Hw Hsp). reflexivity.
Qed.

Lemma fscanf_s_word c w sp r :
  forallb (fun c => negb (isspace (code c))) (c :: w) = true ->
  isspace (code sp) = true ->
  fscanf_s ((c :: w) ++ sp :: r) = (1, string_of_list_ascii (c :: w), sp :: r).
Proof.
  intros Hw Hsp. unfold fscanf_s.
  assert (Hc : isspace (code c) = false).
  { cbn [forallb] in Hw. apply andb_true_iff in Hw. destruct Hw as [Hc _].
    apply negb_true_iff in Hc. exact Hc. }
  cbn [app skip_space]. rewrite Hc.
  change (c :: w ++ sp :: r) with ((c :: w) ++ sp :: r).
  rewrite (take_word_word (c :: w) sp r Hw Hsp). reflexivity.
Qed.

Lemma label_text_newline : forall text k acc rest,
  Forall text_char text -> k + Z.of_nat (List.length text) < 256 ->
  label_text (text ++ newline :: rest) k acc = Exit 1.
Proof.
  induction text as [|c t IH]; intros k acc rest Ht Hk; cbn [app label_text].
  - reflexivity.
  - inversion Ht as [|? ? Hc Ht']; subst.
    destruct (text_char_codes c Hc) as [E1 E2]. rewrite E1, E2.
    cbn [List.length] in Hk.
    replace (k + 1 <? 256) with true by (symmetry; apply Z.ltb_lt; lia).
    apply IH; [exact Ht' | lia].
Qed.

Lemma label_text_open : forall text k acc,
  Forall text_char text -> label_text text k acc = Fault.
Proof.
  induction text as [|c t IH]; intros k acc Ht; cbn [label_text]; [reflexivity|].
  inversion Ht as [|? ? Hc Ht']; subst.
  destruct (text_char_codes c Hc) as [E1 E2]. rewrite E1, E2.
  destruct (k + 1 <? 256); [apply IH; exact Ht' | reflexivity].
Qed.

Lemma label_text_long : forall text k acc rest,
  Forall text_char text -> k < 256 -> 256 <= k + Z.of_nat (List.length text) ->
  label_text (text ++ rest) k acc = Fault.
Proof.
  induction text as [|c t IH]; intros k acc rest Ht Hk0 Hk; cbn [app label_text].
  - cbn [List.length] in Hk. lia.
  - inversion Ht as [|? ? Hc Ht']; subst.
    destruct (text_char_codes c Hc) as [E1 E2]. rewrite E1, E2.
    destruct (k + 1 <? 256) eqn:E; [|reflexivity]. apply Z.ltb_lt in E.
    apply IH; [exact Ht' | lia | cbn [List.length] in Hk; lia].
Qed.

Lemma label_position_word w pos :
  label_position (string_of_list_ascii w) = Some pos ->
  exists c w', w = c :: w' /\
    isalnum (code c) = true /\
    forallb (fun c => negb (isspace (code c))) w = true /\
    (256 <=? Z.of_nat (String.length (string_of_list_ascii w))) = false /\
    c_string (string_of_list_ascii w) = string_of_list_ascii w.
Proof.
  intros H.
  assert (Hw : In (string_of_list_ascii w)
                  ["top"; "ulft"; "lft"; "llft"; "bot"; "lrgt"; "rgt"; "urgt"]%string).
  { unfold label_position in H.
    repeat match type of H with
           | context [String.eqb ?x ?lit] =>
             destruct (String.eqb_spec x lit) as [->|_]; [cbn; tauto|]
           end.
    discriminate. }
  rewrite <- (list_ascii_of_string_of_list_ascii w).
  cbn [In] in Hw.
  repeat (destruct Hw as [<-|Hw];
          [eexists; eexists; split; [reflexivity|];
           split; [reflexivity|]; split; [reflexivity|]; split; reflexivity|]).
  contradiction.
Qed.

(** The head of a label statement: position word, blanks, opening quote. *)
Lemma scan_label_head w pos n tail st lnum c :
  label_position (string_of_list_ascii w) = Some pos ->
  1 <= lnum <= MAX_NUM_LABELS + 2 ->
  scan_label (w ++ repeat " "%char (S n) ++ quote_mark :: tail) st lnum c
  = ('(k, text, s) <- label_text tail 0 [] ;;
     Ret (s, set_labeltext (set_labelpos (set_label st lnum c) lnum pos)
                           lnum k text)).
Proof.
  intros Hp Hl.
  destruct (label_position_word w pos Hp) as (c0 & w' & -> & Hc0 & Hw & Hlen & Hcs).
  unfold scan_label, readaway_comments_and_blanks.
  change ((c0 :: w') ++ repeat " "%char (S n) ++ quote_mark :: tail)
    with (c0 :: (w' ++ repeat " "%char (S n) ++ quote_mark :: tail)).
  cbn [List.length].
  rewrite readaway_loop_at_data by (rewrite Hc0; reflexivity).
  cbn [bind].
  replace ((1 <=? lnum) && (lnum <=? MAX_NUM_LABELS + 2)) with true
    by (symmetry; apply andb_true_iff; split; apply Z.leb_le; lia).
  cbn [negb].
  change (c0 :: (w' ++ repeat " "%char (S n) ++ quote_mark :: tail))
    with ((c0 :: w') ++ " "%char :: (repeat " "%char n ++ quote_mark :: tail)).
  rewrite (fscanf_s_word c0 w' " "%char _ Hw eq_refl).
  cbn [Z.eqb Pos.eqb negb]. rewrite Hlen, Hcs, Hp.
  change (" "%char :: repeat " "%char n ++ quote_mark :: tail)
    with (repeat " "%char (S n) ++ quote_mark :: tail).
  rewrite skip_blanks_repeat by reflexivity.
  cbn [getc]. rewrite Z.eqb_refl. cbn [negb]. reflexivity.
Qed.

(** X12.  A label statement made of one of the eight position words,
    one blank or more, and a text of fewer than 256 characters between
    quote marks is scanned in full: the text is stored verbatim with its
    length and position, and the input is left behind the closing quote
    mark. *)
Theorem quoted_label_is_stored_verbatim
        (w : list ascii) (pos : Z) (n : nat) (text : list ascii) (rest : stream)
        (st : stoketraject) (lnum coordnum : Z) :
  label_position (string_of_list_ascii w) = Some pos ->
  1 <= lnum <= MAX_NUM_LABELS + 2 ->
  Forall text_char text ->
  (List.length text < 256)%nat ->
  scan_label (w ++ repeat " "%char (S n) ++ quote_mark :: text ++ quote_mark :: rest)
             st lnum coordnum
  = Ret (rest,
         set_labeltext (set_labelpos (set_label st lnum coordnum) lnum pos)
                       lnum (Z.of_nat (List.length text)) text).
Proof.
  intros Hp Hl Ht Hlen.
  rewrite (scan_label_head w pos n _ st lnum coordnum Hp Hl).
  rewrite label_text_closed by (try exact Ht; lia).
  reflexivity.
Qed.

(** X13.  A label text that is not closed: when a newline comes before
    the closing quote mark the run ends with exit(1); when the file ends
    first, or when the text has 256 characters or more, the loop runs off
    the buffer [tmpstr] and no error is reported. *)
Theorem label_text_without_closing_quote
        (w : list ascii) (pos : Z) (n : nat) (text : list ascii) (rest : stream)
        (st : stoketraject) (lnum coordnum : Z) :
  label_position (string_of_list_ascii w) = Some pos ->
  1 <= lnum <= MAX_NUM_LABELS + 2 ->
  Forall text_char text ->
  ((List.length text < 256)%nat ->
   scan_label (w ++ repeat " "%char (S n) ++ quote_mark :: text ++ newline :: rest)
              st lnum coordnum = Exit 1) /\
  scan_label (w ++ repeat " "%char (S n) ++ quote_mark :: text) st lnum coordnum
  = Fault /\
  ((256 <= List.length text)%nat ->
   scan_label (w ++ repeat " "%char (S n) ++ quote_mark :: text ++ rest)
              st lnum coordnum = Fault).
Proof.
  intros Hp Hl Ht. split; [|split].
  - intros Hlen. rewrite (scan_label_head w pos n _ st lnum coordnum Hp Hl).
    rewrite label_text_newline by (try exact Ht; lia). reflexivity.
  - rewrite (scan_label_head w pos n _ st lnum coordnum Hp Hl).
    rewrite label_text_open by exact Ht. reflexivity.
  - intros Hlen. rewrite (scan_label_head w pos n _ st lnum coordnum Hp Hl).
    rewrite label_text_long by (try exact Ht; lia). reflexivity.
Qed.

Lemma word_urgt : label_position (string_of_list_ascii (chars "urgt")) = Some 8.
Proof. reflexivity. Qed.

Lemma slot_1 : 1 <= 1 <= MAX_NUM_LABELS + 2.
Proof. vm_compute. split; discriminate. Qed.

Lemma text_AB : Forall text_char (chars "AB").
Proof. repeat constructor; discriminate. Qed.

Lemma quoted_label_is_stored_verbatim_witness :
  label_position (string_of_list_ascii (chars "urgt")) = Some 8 /\
  1 <= 1 <= MAX_NUM_LABELS + 2 /\
  Forall text_char (chars "AB") /\
  (List.length (chars "AB") < 256)%nat /\
  scan_label (chars "urgt" ++ repeat " "%char 1 ++ quote_mark :: chars "AB"
                ++ quote_mark :: chars " 0 1 0")
             empty_trajectory 1 7
  = Ret (chars " 0 1 0",
         set_labeltext (set_labelpos (set_label empty_trajectory 1 7) 1 8)
                       1 (Z.of_nat (List.length (chars "AB"))) (chars "AB")).
Proof.
  assert (Hlen : (List.length (chars "AB") < 256)%nat) by (cbn; lia).
  split; [exact word_urgt|]. split; [exact slot_1|]. split; [exact text_AB|].
  split; [exact Hlen|].
  exact (quoted_label_is_stored_verbatim (chars "urgt") 8 0 (chars "AB")
           (chars " 0 1 0") empty_trajectory 1 7 word_urgt slot_1 text_AB Hlen).
Defined.

Lemma label_text_without_closing_quote_witness :
  label_position (string_of_list_ascii (chars "urgt")) = Some 8 /\
  1 <= 1 <= MAX_NUM_LABELS + 2 /\
  Forall text_char (chars "AB") /\
  scan_label (chars "urgt" ++ repeat " "%char 1 ++ quote_mark :: chars "AB"
                ++ newline :: chars "0 1 0")
             empty_trajectory 1 7 = Exit 1 /\
  scan_label (chars "urgt" ++ repeat " "%char 1 ++ quote_mark :: chars "AB")
             empty_trajectory 1 7 = Fault.
Proof.
  split; [exact word_urgt|]. split; [exact slot_1|]. split; [exact text_AB|].
  destruct (label_text_without_closing_quote (chars "urgt") 8 0 (chars "AB")
              (chars "0 1 0") empty_trajectory 1 7 word_urgt slot_1 text_AB)
    as (H1 & H2 & _).
  split; [apply H1; cbn; lia | exact H2].
Defined.

(** ** What is read away between the data *)

Lemma readaway_loop_fuel : forall fuel fuel' s,
  (List.length s < fuel)%nat -> (List.length s < fuel')%nat ->
  readaway_loop fuel s = readaway_loop fuel' s.
Proof.
  induction fuel as [|n IH]; intros fuel' s H1 H2; [lia|].
  destruct fuel' as [|n']; [lia|].
  destruct s as [|c r]; [reflexivity|].
  cbn [readaway_loop getc]. cbn [List.length] in H1, H2.
  pose proof (skip_line_length r).
  destruct (negb (isalnum (code c) || (code c =? code "-") || (code c =? code "+"))
            && negb (code c =? EOF)); [|reflexivity].
  destruct (code c =? code newline); [apply IH; lia|].
  destruct (code c =? code "%"); apply IH; lia.
Qed.

Lemma skip_line_comment : forall text s,
  Forall (fun a => a <> newline) text ->
  skip_line (text ++ newline :: s) = s.
Proof.
  induction text as [|a t IH]; intros s Ht; cbn [app skip_line].
  - rewrite Z.eqb_refl. reflexivity.
  - inversion Ht as [|? ? Ha Ht']; subst.
    replace (code a =? code newline) with false
      by (symmetry; apply Z.eqb_neq; intros E; apply code_inj in E; contradiction).
    apply IH. exact Ht'.
Qed.

(** X14.  [readaway_comments_and_blanks] drops every character that is
    not alphanumeric, [+] or [-], and every comment from a percent sign to
    the end of its line.  A decimal point is such a character: a trajectory
    whose first number starts with a point is scanned as if the point were
    not there. *)
Theorem what_is_read_away (s : stream) :
  (forall c, isalnum (code c) || (code c =? code "-") || (code c =? code "+") = false ->
             c <> "%"%char ->
             readaway_comments_and_blanks (c :: s) = readaway_comments_and_blanks s) /\
  (forall text, Forall (fun a => a <> newline) text ->
     readaway_comments_and_blanks ("%"%char :: text ++ newline :: s)
     = readaway_comments_and_blanks s) /\
  readaway_comments_and_blanks ("."%char :: s) = readaway_comments_and_blanks s /\
  (forall (fscanf_f : stream -> Z * R * stream) fuel st coord,
     scan_trajectory fscanf_f fuel ("."%char :: s) st coord
     = scan_trajectory fscanf_f fuel s st coord).
Proof.
  assert (H : forall c,
             isalnum (code c) || (code c =? code "-") || (code c =? code "+") = false ->
             c <> "%"%char ->
             readaway_comments_and_blanks (c :: s) = readaway_comments_and_blanks s).
  { intros c Hc Hp. unfold readaway_comments_and_blanks.
    cbn [List.length readaway_loop getc]. rewrite Hc.
    pose proof (code_range c).
    replace (code c =? EOF) with false by (symmetry; apply Z.eqb_neq; unfold EOF; lia).
    cbn [negb andb].
    replace (code c =? code "%") with false
      by (symmetry; apply Z.eqb_neq; intros E; apply code_inj in E; contradiction).
    destruct (code c =? code newline); reflexivity. }
  split; [exact H|]. split.
  - intros text Ht. unfold readaway_comments_and_blanks.
    transitivity (readaway_loop (List.length ("%"%char :: text ++ newline :: s))
                                (skip_line (text ++ newline :: s)));
      [reflexivity|].
    rewrite (skip_line_comment text s Ht).
    apply readaway_loop_fuel; [|lia].
    cbn [List.length]. rewrite length_app. cbn [List.length]. lia.
  - assert (Hdot : readaway_comments_and_blanks ("."%char :: s)
                   = readaway_comments_and_blanks s)
      by (apply H; [reflexivity | discriminate]).
    split; [exact Hdot|]. intros fscanf_f fuel st coord.
    unfold scan_trajectory. rewrite Hdot. reflexivity.
Qed.

(** ** What a scanned trajectory looks like *)

Ltac fields :=
  cbn [set_labeltext set_labelpos set_label set_numlabels set_tickmark
       set_numtickmarks set_triplet set_numcoords set_visible
       labeltext label labelpos labellength numcoords s1 s2 s3 visible_
       numtickmarks tickmark numlabels] in *.

Lemma scan_for_tickmark_spec s st s' st' :
  scan_for_tickmark s st = Ret (s', st') ->
  st' = st \/
  (numtickmarks st + 1 <= MAX_NUM_TICKMARKS /\
   st' = set_tickmark (set_numtickmarks st (numtickmarks st + 1))
                      (numtickmarks st + 1) (numcoords st)).
Proof.
  unfold scan_for_tickmark. destruct (tickmark_ s) as [b sa].
  destruct (b =? 0); cbn [negb].
  - intros H. injection H as _ <-. left. reflexivity.
  - destruct (numtickmarks st + 1 <=? MAX_NUM_TICKMARKS) eqn:E; [|discriminate].
    intros H. injection H as _ <-. right. apply Z.leb_le in E. auto.
Qed.

Lemma scan_for_tickmarklabel_spec s st s' st' :
  scan_for_tickmarklabel s st = Ret (s', st') ->
  st' = st \/
  (numlabels st + 1 <= MAX_NUM_LABELS + 2 /\
   exists sa,
     scan_label sa (set_label (set_numlabels st (numlabels st + 1))
                              (numlabels st + 1) (numcoords st))
                (numlabels st + 1) (numcoords st) = Ret (s', st')).
Proof.
  unfold scan_for_tickmarklabel. destruct (tickmarklabel s) as [b sa].
  destruct (b =? 0); cbn [negb].
  - intros H. injection H as _ <-. left. reflexivity.
  - fields.
    destruct (numlabels st + 1 <=? MAX_NUM_LABELS + 2) eqn:E; [|discriminate].
    unfold upd. rewrite Z.eqb_refl. intros H. right. apply Z.leb_le in E.
    split; [exact E|]. exists sa. exact H.
Qed.

Section Scanned.

Variable fscanf_f : stream -> Z * R * stream.

Lemma scan_for_stokes_triplet_spec s st s' st' :
  scan_for_stokes_triplet fscanf_f s st = Ret (s', st') ->
  numcoords st + 1 <= MAX_NUM_STOKE_COORDS /\
  exists v1 v2 v3,
    st' = set_triplet (set_numcoords st (numcoords st + 1))
                      (numcoords st + 1) v1 v2 v3.
Proof.
  unfold scan_for_stokes_triplet.
  destruct (fscanf_f s) as [[r1 v1] sa].
  destruct (r1 =? 0); [discriminate|].
  destruct (fscanf_f sa) as [[r2 v2] sb].
  destruct (r2 =? 0); [discriminate|].
  destruct (fscanf_f sb) as [[r3 v3] sc].
  destruct (r3 =? 0); [discriminate|].
  destruct (numcoords st + 1 <=? MAX_NUM_STOKE_COORDS) eqn:E; [|discriminate].
  apply Z.leb_le in E.
  destruct (r1 =? 1); [|discriminate].
  destruct (r2 =? 1); [|discriminate].
  destruct (r3 =? 1); [|discriminate].
  intros H. injection H as _ <-. split; [exact E|]. eauto.
Qed.

(** One turn of the scanning loop keeps the state well formed. *)
Lemma scan_turn st st1 st2 st3 sa sb sc sd se sf :
  scanned_ok st ->
  scan_for_stokes_triplet fscanf_f sa st = Ret (sb, st1) ->
  scan_for_tickmark sc st1 = Ret (sd, st2) ->
  scan_for_tickmarklabel se st2 = Ret (sf, st3) ->
  scanned_ok st3 /\ numcoords st3 = numcoords st + 1 /\ labels_extended st st3 /\
  (forall k, numcoords st3 < k ->
             s1 st3 k = s1 st k /\ s2 st3 k = s2 st k /\ s3 st3 k = s3 st k).
Proof.
  intros ((Hn0 & Hn1) & (Ht0 & Ht1 & Ht2) & Hl) H1 H2 H3.
  apply scan_for_stokes_triplet_spec in H1. destruct H1 as (Hmax & v1 & v2 & v3 & ->).
  apply scan_for_tickmark_spec in H2.
  apply scan_for_tickmarklabel_spec in H3.
  (* after the tick mark *)
  assert (A2 : numcoords st2 = numcoords st + 1 /\ ticks_in_order st2 /\
               numlabels st2 = numlabels st /\
               label st2 = label st /\ labelpos st2 = labelpos st /\
               labeltext st2 = labeltext st /\ labellength st2 = labellength st /\
               (forall k, numcoords st + 1 < k ->
                  s1 st2 k = s1 st k /\ s2 st2 k = s2 st k /\ s3 st2 k = s3 st k)).
  { assert (Hs : forall k, numcoords st + 1 < k ->
                   upd (s1 st) (numcoords st + 1) v1 k = s1 st k /\
                   upd (s2 st) (numcoords st + 1) v2 k = s2 st k /\
                   upd (s3 st) (numcoords st + 1) v3 k = s3 st k).
    { intros k Hk. unfold upd.
      replace (k =? numcoords st + 1) with false by (symmetry; apply Z.eqb_neq; lia).
      repeat split; reflexivity. }
    destruct H2 as [->|[Hm ->]]; fields.
    - split; [reflexivity|]. split; [|repeat split; try reflexivity; apply Hs; assumption].
      unfold ticks_in_order. fields. split; [exact Ht0|]. split; [|exact Ht2].
      intros k Hk. specialize (Ht1 k Hk). lia.
    - split; [reflexivity|]. split; [|repeat split; try reflexivity; apply Hs; assumption].
      unfold ticks_in_order. fields. unfold upd. split; [lia|]. split.
      + intros k Hk. destruct (k =? numtickmarks st + 1) eqn:E; [lia|].
        apply Z.eqb_neq in E. specialize (Ht1 k ltac:(lia)). lia.
      + intros k Hk.
        replace (k =? numtickmarks st + 1) with false
          by (symmetry; apply Z.eqb_neq; lia).
        destruct (k + 1 =? numtickmarks st + 1) eqn:E.
        * specialize (Ht1 k ltac:(lia)). lia.
        * apply Z.eqb_neq in E. apply Ht2. lia. }
  destruct A2 as (C2 & T2 & N2 & L2a & L2b & L2c & L2d & S2).
  destruct H3 as [->|(Hm & sx & H3)].
  - split; [|split; [exact C2|split; [|rewrite C2; exact S2]]].
    + split; [lia|]. split; [exact T2|]. unfold labels_placed.
      rewrite L2b, L2d. exact Hl.
    + split; [lia|]. intros k _. unfold slot_unchanged.
      rewrite L2a, L2b, L2c, L2d. repeat split; reflexivity.
  - apply scan_label_spec in H3.
    destruct H3 as (_ & _ & _ & P1 & _ & _ & _ & (F & E0 & E1 & E2 & E3 & _ & E5 & E6 & E7)).
    fields. unfold upd in F.
    split; [|split; [lia|split]].
    + split; [lia|]. split.
      * unfold ticks_in_order. rewrite E0, E5, E6. exact T2.
      * intros k Hk. destruct (Z.eq_dec k (numlabels st2 + 1)) as [->|Hne];
          [exact P1|].
        destruct (F k Hne) as (_ & F2 & _ & F4). rewrite F2, L2b.
        apply Hl. rewrite <- L2d, <- F4. exact Hk.
    + split; [lia|]. intros k Hk.
      destruct (F k ltac:(lia)) as (F1 & F2 & F3 & F4). unfold slot_unchanged.
      replace (k =? numlabels st2 + 1) with false in F1
        by (symmetry; apply Z.eqb_neq; lia).
      rewrite F1, F2, F3, F4, L2a, L2b, L2c, L2d. repeat split; reflexivity.
    + intros k Hk. rewrite E1, E2, E3. apply S2. lia.
Qed.

Lemma labels_extended_trans st st1 st2 :
  labels_extended st st1 -> labels_extended st1 st2 -> labels_extended st st2.
Proof.
  intros [H1 H2] [H3 H4]. split; [lia|]. intros k Hk.
  destruct (H2 k ltac:(lia)) as (A1 & A2 & A3 & A4).
  destruct (H4 k Hk) as (B1 & B2 & B3 & B4).
  unfold slot_unchanged. repeat split; congruence.
Qed.

Lemma scan_triplets_inv : forall fuel s st coord s' st' coord',
  scan_triplets fscanf_f fuel s st coord = Ret (s', st', coord') ->
  scanned_ok st ->
  scanned_ok st' /\ coord' - coord = numcoords st' - numcoords st /\
  numcoords st <= numcoords st' /\ labels_extended st st' /\
  (forall k, numcoords st' < k ->
             s1 st' k = s1 st k /\ s2 st' k = s2 st k /\ s3 st' k = s3 st k).
Proof.
  induction fuel as [|n IH]; intros s st coord s' st' coord' H Hok; [discriminate|].
  cbn [scan_triplets] in H.
  destruct (end_of_trajectory s) as [b sa].
  destruct (b =? 0); cbn [negb] in H.
  - destruct (scan_for_stokes_triplet fscanf_f sa st) as [[sb st1]| | |] eqn:H1;
      cbn [bind] in H; try discriminate.
    destruct (readaway_comments_and_blanks sb) as [sc| | |]; cbn [bind] in H;
      try discriminate.
    destruct (scan_for_tickmark sc st1) as [[sd st2]| | |] eqn:H2;
      cbn [bind] in H; try discriminate.
    destruct (readaway_comments_and_blanks sd) as [se| | |]; cbn [bind] in H;
      try discriminate.
    destruct (scan_for_tickmarklabel se st2) as [[sf st3]| | |] eqn:H3;
      cbn [bind] in H; try discriminate.
    destruct (readaway_comments_and_blanks sf) as [sg| | |]; cbn [bind] in H;
      try discriminate.
    destruct (scan_turn _ _ _ _ _ _ _ _ _ _ Hok H1 H2 H3) as (Hok3 & C3 & L3 & S3).
    destruct (IH _ _ _ _ _ _ H Hok3) as (Hok' & C' & M' & L' & S').
    split; [exact Hok'|]. split; [lia|]. split; [lia|].
    split; [exact (labels_extended_trans _ _ _ L3 L')|].
    intros k Hk. destruct (S' k Hk) as (A1 & A2 & A3).
    destruct (S3 k ltac:(lia)) as (B1 & B2 & B3).
    repeat split; congruence.
  - injection H as _ <- <-. split; [exact Hok|]. split; [lia|]. split; [lia|].
    split; [split; [lia|]; intros; repeat split; reflexivity|].
    intros; repeat split; reflexivity.
Qed.

(** The scan of one trajectory, from a structure whose tick marks and labels
    are in order. *)
Lemma scan_trajectory_inv fuel s st coord s' st' coord' :
  scan_trajectory fscanf_f fuel s st coord = Ret (s', st', coord') ->
  numtickmarks st = 0 -> labels_placed st ->
  scanned_ok st' /\ coord' = coord + numcoords st' /\
  (numlabels st' < MAX_NUM_LABELS + 2 ->
   labellength st (MAX_NUM_LABELS + 2) = 0 ->
   0 < labellength st' (MAX_NUM_LABELS + 2) ->
   label st' (MAX_NUM_LABELS + 2) = coord') /\
  (forall k, numcoords st' < k ->
             s1 st' k = s1 st k /\ s2 st' k = s2 st k /\ s3 st' k = s3 st k).
Proof.
  unfold scan_trajectory. intros H Ht Hl.
  destruct (readaway_comments_and_blanks s) as [sa| | |]; cbn [bind] in H;
    try discriminate.
  destruct (beginlabel sa) as [b sb].
  (* the begin label *)
  assert (Hb : forall sc stb,
      (if negb (b =? 0)
       then ' (s0, st0) <- scan_beginlabel sb st 1 ;;
            s1 <- readaway_comments_and_blanks s0 ;; Ret (s1, st0)
       else Ret (sb, st)) = Ret (sc, stb) ->
      numtickmarks stb = 0 /\ labels_placed stb /\
      numlabels stb = numlabels st /\
      s1 stb = s1 st /\ s2 stb = s2 st /\ s3 stb = s3 st /\
      slot_unchanged (MAX_NUM_LABELS + 2) st stb).
  { intros sc stb Hb. destruct (b =? 0); cbn [negb] in Hb.
    - injection Hb as _ <-. split; [exact Ht|]. split; [exact Hl|].
      repeat split; reflexivity.
    - unfold scan_beginlabel in Hb.
      destruct (scan_label sb st 1 1) as [[s0 st0]| | |] eqn:E; cbn [bind] in Hb;
        try discriminate.
      destruct (readaway_comments_and_blanks s0) as [sx| | |]; cbn [bind] in Hb;
        try discriminate.
      injection Hb as _ <-. apply scan_label_spec in E.
      destruct E as (_ & _ & _ & P1 & _ & _ & _ & (F & E0 & E1 & E2 & E3 & _ & E5 & E6 & E7)).
      split; [congruence|]. split.
      + intros k Hk. destruct (Z.eq_dec k 1) as [->|Hne]; [exact P1|].
        destruct (F k Hne) as (_ & F2 & _ & F4). rewrite F2. apply Hl.
        rewrite <- F4. exact Hk.
      + split; [exact E7|]. split; [exact E1|]. split; [exact E2|].
        split; [exact E3|].
        assert (Hne : MAX_NUM_LABELS + 2 <> 1) by (vm_compute; discriminate).
        destruct (F _ Hne) as (F1 & F2 & F3 & F4). repeat split; assumption. }
  destruct (if negb (b =? 0)
            then ' (s0, st0) <- scan_beginlabel sb st 1 ;;
                 s1 <- readaway_comments_and_blanks s0 ;; Ret (s1, st0)
            else Ret (sb, st)) as [[sc stb]| | |] eqn:Eb; cbn [bind] in H;
    try discriminate.
  destruct (Hb sc stb eq_refl) as (B1 & B2 & B3 & B4 & B5 & B6 & B7). clear Hb Eb.
  destruct (scan_triplets fscanf_f fuel sc (set_numcoords stb 0) coord)
    as [[[sd st1] coord1]| | |] eqn:Et; cbn [bind] in H; try discriminate.
  assert (Hok : scanned_ok (set_numcoords stb 0)).
  { split; [fields; split; [lia | vm_compute; discriminate]|]. split.
    - unfold ticks_in_order. fields. rewrite B1.
      split; [split; [lia | vm_compute; discriminate]|]. split; intros; lia.
    - exact B2. }
  destruct (scan_triplets_inv _ _ _ _ _ _ _ Et Hok) as (Hok1 & C1 & M1 & L1 & S1).
  fields.
  destruct (readaway_comments_and_blanks sd) as [se| | |]; cbn [bind] in H;
    try discriminate.
  destruct (endlabel se) as [e sf].
  assert (Hs : forall k, numcoords st1 < k ->
             s1 st1 k = s1 st k /\ s2 st1 k = s2 st k /\ s3 st1 k = s3 st k).
  { intros k Hk. destruct (S1 k Hk) as (A1 & A2 & A3). fields.
    rewrite A1, A2, A3, B4, B5, B6. repeat split; reflexivity. }
  destruct (e =? 0); cbn [negb] in H.
  - injection H as _ <- <-. split; [exact Hok1|]. split; [lia|]. split; [|exact Hs].
    intros Hn H0 Hpos. exfalso.
    destruct L1 as [_ L1]. destruct (L1 _ Hn) as (_ & _ & _ & L4). fields.
    destruct B7 as (_ & _ & _ & B7). lia.
  - unfold scan_endlabel in H.
    destruct (scan_label sf st1 (MAX_NUM_LABELS + 2) coord1) as [[sg st2]| | |] eqn:E;
      cbn [bind] in H; try discriminate.
    destruct (readaway_comments_and_blanks sg) as [sh| | |]; cbn [bind] in H;
      try discriminate.
    injection H as _ <- <-. apply scan_label_spec in E.
    destruct E as (_ & _ & P0 & P1 & _ & _ & _ & (F & E0 & E1 & E2 & E3 & _ & E5 & E6 & E7)).
    destruct Hok1 as (Hc & Htk & Hlb).
    split; [|split; [lia|split; [intros; exact P0|]]].
    + split; [lia|]. split.
      * unfold ticks_in_order. rewrite E0, E5, E6. exact Htk.
      * intros k Hk. destruct (Z.eq_dec k (MAX_NUM_LABELS + 2)) as [->|Hne];
          [exact P1|].
        destruct (F k Hne) as (_ & F2 & _ & F4). rewrite F2. apply Hlb.
        rewrite <- F4. exact Hk.
    + intros k Hk. rewrite E1, E2, E3. apply Hs. lia.
Qed.

Lemma reset_is_scannable st0 :
  numtickmarks (reset_stokes_trajectory_struct st0) = 0 /\
  labels_placed (reset_stokes_trajectory_struct st0).
Proof. split; [reflexivity|]. intros k Hk. cbn in Hk. lia. Qed.

Lemma ticks_at_least_index st : ticks_in_order st ->
  forall n, (forall k, 1 <= k <= Z.of_nat n -> k <= numtickmarks st -> k <= tickmark st k).
Proof.
  intros (H0 & H1 & H2). induction n as [|n IH]; intros k Hk Hn; [lia|].
  destruct (Z.eq_dec k 1) as [->|Hne]; [specialize (H1 1 ltac:(lia)); lia|].
  specialize (IH (k - 1) ltac:(lia) ltac:(lia)).
  specialize (H2 (k - 1) ltac:(lia)). replace (k - 1 + 1) with k in H2 by lia. lia.
Qed.

(** X15.  When the scan of a trajectory returns, its tick marks lie on
    samples of the trajectory, in strictly increasing order; there are no
    more tick marks than samples, and no more samples than
    [MAX_NUM_STOKE_COORDS]. *)
Theorem scanned_ticks_lie_on_samples
        (fuel : nat) (s : stream) (st0 : stoketraject) (coord : Z)
        (s' : stream) (st' : stoketraject) (coord' : Z) :
  scan_trajectory fscanf_f fuel s (reset_stokes_trajectory_struct st0) coord
  = Ret (s', st', coord') ->
  ticks_in_order st' /\
  numtickmarks st' <= numcoords st' /\
  numcoords st' <= MAX_NUM_STOKE_COORDS.
Proof.
  intros H. destruct (reset_is_scannable st0) as [R1 R2].
  destruct (scan_trajectory_inv _ _ _ _ _ _ _ H R1 R2) as ((Hc & Ht & _) & _).
  split; [exact Ht|]. split; [|lia].
  destruct (Z_le_gt_dec (numtickmarks st') 0) as [Hle|Hgt]; [lia|].
  pose proof (ticks_at_least_index st' Ht (Z.to_nat (numtickmarks st'))
                (numtickmarks st') ltac:(lia) ltac:(lia)) as Hk.
  destruct Ht as (_ & Hb & _). specialize (Hb (numtickmarks st') ltac:(lia)). lia.
Qed.

Lemma tickmark_tangent_sorted k st map :
  tickmark_tangent k (sort_out_visible_and_hidden st map) = tickmark_tangent k st.
Proof.
  destruct (sort_out_spec st map) as (H0 & H1 & H2 & H3 & _).
  destruct (sort_out_fields st map) as (_ & F2 & _).
  unfold tickmark_tangent. rewrite H0, H1, H2, H3, F2. reflexivity.
Qed.

(** X17.  For every tick mark of a scanned trajectory the first part of
    [get_tickmark_screen_coordinates] finds a tangent: the exit for an index
    out of range is never taken.  On a trajectory of a single sample the
    tangent is formed with the unset sample 2 and is the negated triplet. *)
Theorem tick_index_test_never_fails
        (fuel : nat) (s : stream) (st0 : stoketraject) (coord : Z)
        (s' : stream) (st' : stoketraject) (coord' : Z) :
  scan_trajectory fscanf_f fuel s (reset_stokes_trajectory_struct st0) coord
  = Ret (s', st', coord') ->
  forall map k, 1 <= k <= numtickmarks st' ->
    (exists q, tickmark_tangent k (sort_out_visible_and_hidden st' map) = Ret q) /\
    (numcoords st' = 1 ->
     tickmark_tangent k (sort_out_visible_and_hidden st' map)
     = Ret ((0 - s1 st' 1)%R, (0 - s2 st' 1)%R, (0 - s3 st' 1)%R)).
Proof.
  intros H map k Hk. rewrite tickmark_tangent_sorted.
  destruct (reset_is_scannable st0) as [R1 R2].
  destruct (scan_trajectory_inv _ _ _ _ _ _ _ H R1 R2)
    as (((Hc0 & Hc1) & (Ht0 & Ht1 & _) & _) & _ & _ & Hs).
  assert (Hz : forall j, numcoords st' < j ->
                 s1 st' j = 0%R /\ s2 st' j = 0%R /\ s3 st' j = 0%R) by exact Hs.
  specialize (Ht1 k Hk).
  assert (HM : 2 <= MAX_NUM_STOKE_COORDS) by (vm_compute; discriminate).
  unfold tickmark_tangent.
  replace ((1 <=? k) && (k <=? MAX_NUM_TICKMARKS)) with true
    by (symmetry; apply andb_true_iff; split; apply Z.leb_le; lia).
  cbn [negb]. cbv zeta.
  destruct (tickmark st' k =? 1) eqn:E1.
  - apply Z.eqb_eq in E1. rewrite E1.
    replace ((1 <=? 1 + 1) && (1 + 1 <=? MAX_NUM_STOKE_COORDS)
             && ((1 <=? 1) && (1 <=? MAX_NUM_STOKE_COORDS))) with true
      by (symmetry; repeat (apply andb_true_iff; split); apply Z.leb_le; lia).
    split; [eexists; reflexivity|]. intros HN.
    destruct (Hz (1 + 1) ltac:(lia)) as (A1 & A2 & A3). rewrite A1, A2, A3.
    reflexivity.
  - apply Z.eqb_neq in E1. split; [|intros HN; lia].
    destruct (tickmark st' k =? numcoords st') eqn:E2.
    + apply Z.eqb_eq in E2.
      replace ((1 <=? tickmark st' k) && (tickmark st' k <=? MAX_NUM_STOKE_COORDS)
               && ((1 <=? tickmark st' k - 1)
                   && (tickmark st' k - 1 <=? MAX_NUM_STOKE_COORDS))) with true
        by (symmetry; repeat (apply andb_true_iff; split); apply Z.leb_le; lia).
      eexists; reflexivity.
    + apply Z.eqb_neq in E2.
      replace ((1 <? tickmark st' k) && (tickmark st' k <? numcoords st')) with true
        by (symmetry; apply andb_true_iff; split; apply Z.ltb_lt; lia).
      replace ((1 <=? tickmark st' k + 1)
               && (tickmark st' k + 1 <=? MAX_NUM_STOKE_COORDS)
               && ((1 <=? tickmark st' k - 1)
                   && (tickmark st' k - 1 <=? MAX_NUM_STOKE_COORDS))) with true
        by (symmetry; repeat (apply andb_true_iff; split); apply Z.leb_le; lia).
      eexists; reflexivity.
Qed.

End Scanned.

Lemma scanned_ticks_lie_on_samples_witness :
  exists s' st' coord',
    scan_trajectory fscanf_f_decimal 5 labelled_trajectory
                    (reset_stokes_trajectory_struct empty_trajectory) 4
    = Ret (s', st', coord') /\
    numtickmarks st' = 1 /\
    ticks_in_order st' /\
    numtickmarks st' <= numcoords st' /\
    numcoords st' <= MAX_NUM_STOKE_COORDS.
Proof.
  eexists. eexists. eexists. split; [vm_compute; reflexivity|].
  split; [reflexivity|].
  eapply (scanned_ticks_lie_on_samples fscanf_f_decimal 5 labelled_trajectory
            empty_trajectory 4).
  vm_compute. reflexivity.
Defined.

Lemma tick_index_test_never_fails_witness :
  exists s' st' coord',
    scan_trajectory fscanf_f_decimal 5 labelled_trajectory
                    (reset_stokes_trajectory_struct empty_trajectory) 4
    = Ret (s', st', coord') /\
    tickmark st' 1 = 1 /\
    forall map k, 1 <= k <= numtickmarks st' ->
      (exists q, tickmark_tangent k (sort_out_visible_and_hidden st' map) = Ret q) /\
      (numcoords st' = 1 ->
       tickmark_tangent k (sort_out_visible_and_hidden st' map)
       = Ret ((0 - s1 st' 1)%R, (0 - s2 st' 1)%R, (0 - s3 st' 1)%R)).
Proof.
  eexists. eexists. eexists. split; [vm_compute; reflexivity|].
  split; [reflexivity|].
  eapply (tick_index_test_never_fails fscanf_f_decimal 5 labelled_trajectory
            empty_trajectory 4).
  vm_compute. reflexivity.
Defined.

(** ** Writing the labels of a scanned trajectory *)

Lemma wbind_snd_not_exit {A B : Type} (m : W A) (f : A -> W B) c :
  snd m <> Exit c -> (forall a, snd (f a) <> Exit c) -> snd (wbind m f) <> Exit c.
Proof.
  intros Hm Hf. destruct m as [l [a| | |]]; cbn [wbind snd] in *;
    try discriminate.
  - specialize (Hf a). destruct (f a). exact Hf.
  - intros E. injection E as ->. apply Hm. reflexivity.
Qed.

Lemma wfor_not_exit {A : Type} (l : list A) (body : A -> W unit) c :
  (forall a, snd (body a) <> Exit c) -> snd (wfor l body) <> Exit c.
Proof.
  intros Hb. induction l as [|a l IH]; cbn [wfor]; [discriminate|].
  apply wbind_snd_not_exit; [apply Hb | intros _; exact IH].
Qed.

Lemma add_scanned_labels_not_exit st map c :
  labels_placed st -> snd (add_scanned_labels st map) <> Exit c.
Proof.
  intros Hl. unfold add_scanned_labels. apply wfor_not_exit. intros k.
  destruct (labellength st k >? 0) eqn:E; [|discriminate].
  assert (Hk : 0 < labellength st k) by (apply Z.gtb_lt in E; lia).
  specialize (Hl k Hk).
  replace ((TOPLABEL <=? labelpos st k) && (labelpos st k <=? UPPERRIGHTLABEL))
    with true
    by (symmetry; apply andb_true_iff; split; apply Z.leb_le;
        unfold TOPLABEL, UPPERRIGHTLABEL; lia).
  destruct ((1 <=? label st k) && (label st k <=? MAX_NUM_STOKE_COORDS));
    [|discriminate].
  destruct (get_screen_coordinates _ _ _ map). discriminate.
Qed.

Lemma wbind_snd_fault {A B : Type} (m : W A) (f : A -> W B) :
  snd m = Fault -> snd (wbind m f) = Fault.
Proof. destruct m as [l r]. cbn [snd]. intros ->. reflexivity. Qed.

Lemma wfor_fault {A : Type} (l : list A) (body : A -> W unit) (k : A) :
  (forall a, snd (body a) = Ret tt \/ snd (body a) = Fault) ->
  In k l -> snd (body k) = Fault -> snd (wfor l body) = Fault.
Proof.
  intros Hb. induction l as [|a l IH]; intros Hin Hk; [contradiction|].
  cbn [wfor]. destruct (Hb a) as [E|E].
  - rewrite (wbind_snd_ret _ _ tt E). destruct Hin as [->|Hin].
    + rewrite Hk in E. discriminate.
    + apply IH; assumption.
  - apply wbind_snd_fault. exact E.
Qed.

(** A label bound to an index outside the samples: [add_scanned_labels]
    reads outside the arrays. *)
Lemma add_scanned_labels_outside st map k :
  labels_placed st -> 1 <= k <= MAX_NUM_LABELS + 2 -> 0 < labellength st k ->
  MAX_NUM_STOKE_COORDS < label st k ->
  snd (add_scanned_labels st map) = Fault.
Proof.
  intros Hl Hk Hlen Hout. unfold add_scanned_labels.
  apply (wfor_fault _ _ k).
  - intros a. destruct (labellength st a >? 0) eqn:E; [|left; reflexivity].
    assert (Ha : 0 < labellength st a) by (apply Z.gtb_lt in E; lia).
    specialize (Hl a Ha).
    replace ((TOPLABEL <=? labelpos st a) && (labelpos st a <=? UPPERRIGHTLABEL))
      with true
      by (symmetry; apply andb_true_iff; split; apply Z.leb_le;
          unfold TOPLABEL, UPPERRIGHTLABEL; lia).
    destruct ((1 <=? label st a) && (label st a <=? MAX_NUM_STOKE_COORDS));
      [|right; reflexivity].
    destruct (get_screen_coordinates _ _ _ map). left. reflexivity.
  - apply Zrange_In. exact Hk.
  - replace (labellength st k >? 0) with true by (symmetry; apply Z.gtb_lt; lia).
    specialize (Hl k Hlen).
    replace ((TOPLABEL <=? labelpos st k) && (labelpos st k <=? UPPERRIGHTLABEL))
      with true
      by (symmetry; apply andb_true_iff; split; apply Z.leb_le;
          unfold TOPLABEL, UPPERRIGHTLABEL; lia).
    replace (label st k <=? MAX_NUM_STOKE_COORDS) with false
      by (symmetry; apply Z.leb_gt; lia).
    rewrite andb_false_r. reflexivity.
Qed.

(** X16.  The counter [coord] that the scan of a trajectory returns is
    the counter it was given plus the number of samples of the trajectory,
    and the samples behind the last one, up to [MAX_NUM_STOKE_COORDS], are
    still (0,0,0).  An end label is bound to that counter, which counts the
    triplets of the whole file.  In every trajectory but the first the end
    label is so bound to an index behind the last sample: as long as the
    count stays within [MAX_NUM_STOKE_COORDS] the label is placed, with
    normalisation off, at the centre of the disk; once the count exceeds
    [MAX_NUM_STOKE_COORDS], [add_scanned_labels] reads outside the
    arrays. *)
Theorem end_label_is_bound_to_the_file_wide_count
        (fscanf_f : stream -> Z * R * stream)
        (fuel : nat) (s : stream) (st0 : stoketraject) (coord : Z)
        (s' : stream) (st' : stoketraject) (coord' : Z) :
  scan_trajectory fscanf_f fuel s (reset_stokes_trajectory_struct st0) coord
  = Ret (s', st', coord') ->
  coord' = coord + numcoords st' /\
  0 <= numcoords st' /\
  (forall k, numcoords st' < k <= MAX_NUM_STOKE_COORDS ->
             s1 st' k = 0%R /\ s2 st' k = 0%R /\ s3 st' k = 0%R) /\
  (numlabels st' < MAX_NUM_LABELS + 2 ->
   0 < labellength st' (MAX_NUM_LABELS + 2) ->
   label st' (MAX_NUM_LABELS + 2) = coord + numcoords st' /\
   forall map,
     (0 < coord -> coord + numcoords st' <= MAX_NUM_STOKE_COORDS ->
      use_normalized_stokes_params map = 0 ->
      get_screen_coordinates (s1 st' (label st' (MAX_NUM_LABELS + 2)))
                             (s2 st' (label st' (MAX_NUM_LABELS + 2)))
                             (s3 st' (label st' (MAX_NUM_LABELS + 2))) map
      = (0%R, 0%R)) /\
     (MAX_NUM_STOKE_COORDS < coord + numcoords st' ->
      snd (add_scanned_labels (sort_out_visible_and_hidden st' map) map) = Fault)).
Proof.
  intros H. destruct (reset_is_scannable st0) as [R1 R2].
  destruct (scan_trajectory_inv _ _ _ _ _ _ _ _ H R1 R2)
    as ((Hc & _ & Hl) & Hcoord & Hend & Hs).
  assert (Hz : forall k, numcoords st' < k ->
                 s1 st' k = 0%R /\ s2 st' k = 0%R /\ s3 st' k = 0%R) by exact Hs.
  split; [exact Hcoord|]. split; [lia|].
  split; [intros k Hk; apply Hz; lia|].
  intros Hn Hpos. specialize (Hend Hn eq_refl Hpos).
  split; [lia|]. intros map. split.
  - intros Hc0 Hin Hmap.
    destruct (Hz (label st' (MAX_NUM_LABELS + 2)) ltac:(lia)) as (A1 & A2 & A3).
    rewrite A1, A2, A3. unfold get_screen_coordinates. rewrite Hmap. cbn [Z.eqb].
    f_equal; ring.
  - intros Hout.
    destruct (sort_out_fields st' map) as (_ & _ & _ & F4 & _ & F6 & F7).
    apply (add_scanned_labels_outside _ map (MAX_NUM_LABELS + 2)).
    + unfold labels_placed. rewrite F6, F7. exact Hl.
    + vm_compute. split; discriminate.
    + rewrite F6. exact Hpos.
    + rewrite F4. lia.
Qed.

Lemma end_label_is_bound_to_the_file_wide_count_witness :
  exists s' st' coord',
    scan_trajectory fscanf_f_decimal 5 labelled_trajectory
                    (reset_stokes_trajectory_struct empty_trajectory) 4
    = Ret (s', st', coord') /\
    numcoords st' = 2 /\ label st' (MAX_NUM_LABELS + 2) = 6 /\
    coord' = 4 + numcoords st' /\
    0 <= numcoords st' /\
    (forall k, numcoords st' < k <= MAX_NUM_STOKE_COORDS ->
               s1 st' k = 0%R /\ s2 st' k = 0%R /\ s3 st' k = 0%R) /\
    (numlabels st' < MAX_NUM_LABELS + 2 ->
     0 < labellength st' (MAX_NUM_LABELS + 2) ->
     label st' (MAX_NUM_LABELS + 2) = 4 + numcoords st' /\
     forall map,
       (0 < 4 -> 4 + numcoords st' <= MAX_NUM_STOKE_COORDS ->
        use_normalized_stokes_params map = 0 ->
        get_screen_coordinates (s1 st' (label st' (MAX_NUM_LABELS + 2)))
                               (s2 st' (label st' (MAX_NUM_LABELS + 2)))
                               (s3 st' (label st' (MAX_NUM_LABELS + 2))) map
        = (0%R, 0%R)) /\
       (MAX_NUM_STOKE_COORDS < 4 + numcoords st' ->
        snd (add_scanned_labels (sort_out_visible_and_hidden st' map) map) = Fault)).
Proof.
  eexists. eexists. eexists. split; [vm_compute; reflexivity|].
  split; [reflexivity|]. split; [reflexivity|].
  eapply (end_label_is_bound_to_the_file_wide_count fscanf_f_decimal 5
            labelled_trajectory empty_trajectory 4).
  vm_compute. reflexivity.
Defined.

(** X18.  When the scan of a trajectory returns, every label slot that
    holds a text holds one of the eight positions, so [add_scanned_labels]
    never ends the run with the exit for an invalid position. *)
Theorem scanned_labels_hold_a_position
        (fscanf_f : stream -> Z * R * stream)
        (fuel : nat) (s : stream) (st0 : stoketraject) (coord : Z)
        (s' : stream) (st' : stoketraject) (coord' : Z) :
  scan_trajectory fscanf_f fuel s (reset_stokes_trajectory_struct st0) coord
  = Ret (s', st', coord') ->
  labels_placed st' /\
  forall map c,
    snd (add_scanned_labels (sort_out_visible_and_hidden st' map) map) <> Exit c.
Proof.
  intros H. destruct (reset_is_scannable st0) as [R1 R2].
  destruct (scan_trajectory_inv _ _ _ _ _ _ _ _ H R1 R2) as ((_ & _ & Hl) & _).
  split; [exact Hl|]. intros map c. apply add_scanned_labels_not_exit.
  destruct (sort_out_fields st' map) as (_ & _ & _ & _ & _ & F6 & F7).
  unfold labels_placed. rewrite F6, F7. exact Hl.
Qed.

Lemma scanned_labels_hold_a_position_witness :
  exists s' st' coord',
    scan_trajectory fscanf_f_decimal 5 labelled_trajectory
                    (reset_stokes_trajectory_struct empty_trajectory) 4
    = Ret (s', st', coord') /\
    labelpos st' (MAX_NUM_LABELS + 2) = UPPERRIGHTLABEL /\
    labels_placed st' /\
    forall map c,
      snd (add_scanned_labels (sort_out_visible_and_hidden st' map) map) <> Exit c.
Proof.
  eexists. eexists. eexists. split; [vm_compute; reflexivity|].
  split; [reflexivity|].
  eapply (scanned_labels_hold_a_position fscanf_f_decimal 5 labelled_trajectory
            empty_trajectory 4).
  vm_compute. reflexivity.
Defined.

(** ** Tick marks in the two passes *)

Section Ticks.

Variable get_tickmark_screen_coordinates :
  Z -> stoketraject -> pmap -> outcome (R * R * R * R).

(** The body of the loop of [add_scanned_tickmarks]. *)
Let tick (st : stoketraject) (map : pmap) (viewtype : Z) (k : Z) : W unit :=
  ' (xa, ya, xb, yb) <~ lift (get_tickmark_screen_coordinates k st map) ;;
  emit [TickPath xa ya xb yb] ;;;
  if negb (visible_ st (tickmark st k) =? 0) && (viewtype =? VISIBLE)
  then emit [TickDraw Plain]
  else if (visible_ st (tickmark st k) =? 0) && (viewtype =? HIDDEN)
  then emit [TickDraw (GrayTone (hiddengraytone map))]
  else wret tt.

Lemma tick_hidden st map k :
  tick st map HIDDEN k
  = match get_tickmark_screen_coordinates k st map with
    | Ret (xa, ya, xb, yb) =>
      (TickPath xa ya xb yb ::
         (if visible_ st (tickmark st k) =? 0
          then [TickDraw (GrayTone (hiddengraytone map))] else []), Ret tt)
    | Exit c => ([], Exit c)
    | Fault => ([], Fault)
    | OutOfFuel => ([], OutOfFuel)
    end.
Proof.
  unfold tick.
  destruct (get_tickmark_screen_coordinates k st map) as [[[[xa ya] xb] yb]| | |];
    try reflexivity.
  destruct (visible_ st (tickmark st k) =? 0); reflexivity.
Qed.

Lemma tick_visible st map k :
  tick st map VISIBLE k
  = match get_tickmark_screen_coordinates k st map with
    | Ret (xa, ya, xb, yb) =>
      (TickPath xa ya xb yb ::
         (if visible_ st (tickmark st k) =? 0 then [] else [TickDraw Plain]), Ret tt)
    | Exit c => ([], Exit c)
    | Fault => ([], Fault)
    | OutOfFuel => ([], OutOfFuel)
    end.
Proof.
  unfold tick.
  destruct (get_tickmark_screen_coordinates k st map) as [[[[xa ya] xb] yb]| | |];
    try reflexivity.
  destruct (visible_ st (tickmark st k) =? 0); reflexivity.
Qed.

Lemma tick_loop st map (l : list Z) :
  let H := wfor l (tick st map HIDDEN) in
  let V := wfor l (tick st map VISIBLE) in
  snd H = snd V /\
  filter is_tickpath (fst H) = filter is_tickpath (fst V) /\
  (count_of is_tickdraw (fst H) + count_of is_tickdraw (fst V)
   = count_of is_tickpath (fst H))%nat /\
  (snd H = Ret tt -> count_of is_tickpath (fst H) = List.length l).
Proof.
  induction l as [|k l IH]; cbn [wfor].
  - repeat split; reflexivity.
  - cbv zeta in IH. destruct IH as (I1 & I2 & I3 & I5).
    rewrite tick_hidden, tick_visible.
    destruct (get_tickmark_screen_coordinates k st map) as [[[[xa ya] xb] yb]| | |];
      try (cbn; repeat split; try reflexivity; discriminate).
    rewrite !wbind_ret.
    destruct (wfor l (tick st map HIDDEN)) as [lh rh];
      destruct (wfor l (tick st map VISIBLE)) as [lv rv];
      cbn [fst snd] in *; unfold count_of in *.
    destruct (visible_ st (tickmark st k) =? 0);
      cbn [filter is_tickpath is_tickdraw List.length app];
      (split; [exact I1|]); (split; [rewrite ?I2; reflexivity|]);
      (split; [lia|]); intros Hr; rewrite (I5 Hr); reflexivity.
Qed.

(** X19.  For one trajectory [add_scanned_tickmarks] ends in the same
    way in both passes and writes the same tick paths; each tick path is
    followed by a draw statement in exactly one of the two passes.  When
    the routine returns it has written one tick path for every tick
    mark. *)
Theorem each_tick_is_drawn_in_one_pass (st : stoketraject) (map : pmap) :
  let H := add_scanned_tickmarks get_tickmark_screen_coordinates st map HIDDEN in
  let V := add_scanned_tickmarks get_tickmark_screen_coordinates st map VISIBLE in
  snd H = snd V /\
  filter is_tickpath (fst H) = filter is_tickpath (fst V) /\
  (count_of is_tickdraw (fst H) + count_of is_tickdraw (fst V)
   = count_of is_tickpath (fst H))%nat /\
  (snd H = Ret tt ->
   count_of is_tickpath (fst H) = Z.to_nat (numtickmarks st)).
Proof.
  unfold add_scanned_tickmarks. fold (tick st map HIDDEN). fold (tick st map VISIBLE).
  unfold emit. rewrite !wbind_ret.
  destruct (tick_loop st map (Zrange 1 (numtickmarks st))) as (I1 & I2 & I3 & I5).
  cbv zeta. cbn [fst snd app]. unfold count_of in *.
  cbn [filter is_tickpath is_tickdraw].
  split; [exact I1|]. split; [exact I2|]. split; [exact I3|].
  intros Hr. rewrite (I5 Hr). unfold Zrange. rewrite length_map, length_seq.
  f_equal. lia.
Qed.

End Ticks.

(** ** Runs that draw no trajectory *)

Section NoTrajectory.

Variable fscanf_f : stream -> Z * R * stream.
Variable get_tickmark_screen_coordinates :
  Z -> stoketraject -> pmap -> outcome (R * R * R * R).

Lemma not_a_trajectory s : (forall r, s <> "p"%char :: r) -> new_trajectory s = (0, s).
Proof.
  intros H. unfold new_trajectory, next_is.
  pose proof (ungetc_getc s) as Hu.
  destruct (getc s) as [ch s'] eqn:E. cbn [fst snd] in Hu.
  destruct (ch =? code "p") eqn:Em; [|rewrite Hu; reflexivity].
  exfalso. apply Z.eqb_eq in Em. destruct s as [|c r]; cbn [getc] in E.
  - injection E as E1 E2. rewrite <- E1 in Em. discriminate.
  - injection E as E1 E2. rewrite <- E1 in Em. apply code_inj in Em.
    apply (H r). rewrite Em. reflexivity.
Qed.

Lemma pass_without_trajectory fuel s map viewtype :
  user_specified_inputfile map <> 0 -> (forall r, s <> "p"%char :: r) ->
  write_scanned_trajectories fscanf_f get_tickmark_screen_coordinates
                             (S fuel) (Some s) map viewtype
  = (pass_frame map, Ret tt).
Proof.
  intros Hu Hs. unfold write_scanned_trajectories, open_infile.
  replace (user_specified_inputfile map =? 0) with false
    by (symmetry; apply Z.eqb_neq; exact Hu).
  cbn [lift wbind app]. cbn [trajectories].
  rewrite (not_a_trajectory s Hs). reflexivity.
Qed.

(** X20.  A pass without a trajectory file writes nothing and returns; a
    pass over a file that cannot be opened writes nothing and stops with
    exit(FAILURE); a pass over a file whose first character is not p (an
    empty file, or one that starts with a blank line or a comment) reads no
    trajectory, writes its frame only and returns.  What [main] writes in
    these runs: the blocks of the other writers only; the first five blocks
    only; the blocks around the two frames. *)
Theorem passes_that_draw_no_trajectory (fuel : nat) (map : pmap) (viewtype : Z) :
  let pass := write_scanned_trajectories fscanf_f get_tickmark_screen_coordinates in
  let written fuel file :=
    fst (main fscanf_f get_tickmark_screen_coordinates fuel file map) in
  (user_specified_inputfile map = 0 ->
   forall file,
     pass fuel file map viewtype = ([], Ret tt) /\
     written fuel file = blocks_before ++ blocks_after) /\
  (user_specified_inputfile map <> 0 ->
   pass fuel None map viewtype = ([], Exit FAILURE) /\
   written fuel None = blocks_before) /\
  (user_specified_inputfile map <> 0 ->
   forall s, (forall r, s <> "p"%char :: r) ->
     pass (S fuel) (Some s) map viewtype = (pass_frame map, Ret tt) /\
     written (S fuel) (Some s)
     = blocks_before ++ pass_frame map ++ pass_frame map ++ blocks_after).
Proof.
  intros pass written. unfold pass, written. split; [|split].
  - intros Hu file. unfold main, write_scanned_trajectories, open_infile.
    rewrite Hu. split; reflexivity.
  - intros Hu. unfold main, write_scanned_trajectories, open_infile.
    replace (user_specified_inputfile map =? 0) with false
      by (symmetry; apply Z.eqb_neq; exact Hu).
    split; reflexivity.
  - intros Hu s Hs. unfold main.
    rewrite !(pass_without_trajectory fuel s map _ Hu Hs).
    split; reflexivity.
Qed.

End NoTrajectory.

(** ** The two passes side by side *)

Section Passes2.

Variable fscanf_f : stream -> Z * R * stream.
Variable get_tickmark_screen_coordinates :
  Z -> stoketraject -> pmap -> outcome (R * R * R * R).

Lemma filter_filter (q p : primitive -> bool) l :
  (forall x, q x = true -> p x = true) -> filter q (filter p l) = filter q l.
Proof.
  intros H. induction l as [|a l IH]; cbn [filter]; [reflexivity|].
  destruct (p a) eqn:Ep; cbn [filter]; rewrite IH; [reflexivity|].
  destruct (q a) eqn:Eq; [|reflexivity]. rewrite (H a Eq) in Ep. discriminate.
Qed.

(** X21.  The two passes over the trajectory file end in the same way
    and write the same labels and the same tick paths in the same order.
    When the passes return, every label stands twice in what [main]
    writes. *)
Theorem both_passes_write_the_labels
        (fuel : nat) (file : option stream) (map : pmap) :
  let pass := write_scanned_trajectories fscanf_f get_tickmark_screen_coordinates
                                         fuel file map in
  snd (pass HIDDEN) = snd (pass VISIBLE) /\
  filter is_label (fst (pass HIDDEN)) = filter is_label (fst (pass VISIBLE)) /\
  filter is_tickpath (fst (pass HIDDEN)) = filter is_tickpath (fst (pass VISIBLE)) /\
  (snd (pass HIDDEN) = Ret tt ->
   count_of is_label
     (fst (main fscanf_f get_tickmark_screen_coordinates fuel file map))
   = (2 * count_of is_label (fst (pass HIDDEN)))%nat).
Proof.
  intros pass.
  destruct (write_scanned_trajectories_agree fscanf_f get_tickmark_screen_coordinates
                                               fuel file map) as [H1 H2].
  fold (pass HIDDEN) in H1, H2. fold (pass VISIBLE) in H1, H2.
  assert (Hl : filter is_label (fst (pass HIDDEN))
               = filter is_label (fst (pass VISIBLE))).
  { rewrite <- (filter_filter is_label in_both_passes (fst (pass HIDDEN))),
            <- (filter_filter is_label in_both_passes (fst (pass VISIBLE))), H2;
      [reflexivity| |]; intros x Hx; unfold in_both_passes; rewrite Hx;
      apply orb_true_r. }
  split; [exact H1|]. split; [exact Hl|]. split.
  - rewrite <- (filter_filter is_tickpath in_both_passes (fst (pass HIDDEN))),
            <- (filter_filter is_tickpath in_both_passes (fst (pass VISIBLE))), H2;
      [reflexivity| |]; intros x Hx; unfold in_both_passes; rewrite Hx;
      reflexivity.
  - intros Hr. unfold main. fold (pass HIDDEN). fold (pass VISIBLE).
    rewrite Hr in H1. symmetry in H1.
    destruct (pass HIDDEN) as [lh rh], (pass VISIBLE) as [lv rv].
    cbn [fst snd] in *. subst rh rv. unfold emit, wret. cbn [wbind fst app].
    unfold count_of in *. cbn [filter is_label].
    rewrite !filter_app, !length_app, Hl. cbn [filter is_label List.length]. lia.
Qed.

End Passes2.

(** ** How the scan of a trajectory ends *)

Lemma next_is_cases m s :
  (exists r, s = m :: r /\ next_is m s = (1, r)) \/ next_is m s = (0, s).
Proof.
  unfold next_is. pose proof (ungetc_getc s) as Hu.
  destruct (getc s) as [ch s'] eqn:E. cbn [fst snd] in Hu.
  destruct (ch =? code m) eqn:Em; [|right; rewrite Hu; reflexivity].
  left. apply Z.eqb_eq in Em. destruct s as [|c r]; cbn [getc] in E.
  - injection E as E1 E2. pose proof (code_range m). unfold EOF in *. lia.
  - injection E as E1 E2. rewrite <- E1 in Em. apply code_inj in Em.
    exists s'. rewrite Em, E2. split; reflexivity.
Qed.

Lemma next_is_suffix m s b s' : next_is m s = (b, s') -> exists pre, s = pre ++ s'.
Proof.
  destruct (next_is_cases m s) as [(r & -> & E)|E]; rewrite E; intros H;
    injection H as _ <-.
  - exists [m]. reflexivity.
  - exists []. reflexivity.
Qed.

Lemma take_digits_suffix : forall s acc n,
  exists pre, s = pre ++ snd (take_digits s acc n).
Proof.
  induction s as [|c r IH]; intros acc n; cbn [take_digits].
  - exists []. reflexivity.
  - destruct (isdigit (code c)).
    + destruct (IH (10 * acc + (code c - code "0")) (n + 1)) as [pre Hpre].
      exists (c :: pre). cbn [app]. rewrite <- Hpre. reflexivity.
    + exists []. reflexivity.
Qed.

(** The decimal [%f] reads a prefix of the input. *)
Lemma fscanf_f_decimal_suffix s r v s' :
  fscanf_f_decimal s = (r, v, s') -> exists pre, s = pre ++ s'.
Proof.
  unfold fscanf_f_decimal. destruct (skip_space_suffix s) as [pre0 H0].
  destruct (skip_space s) as [|c t].
  - intros H. injection H as _ _ <-. exists s. rewrite app_nil_r. reflexivity.
  - assert (Hsign : exists neg sa pre1,
               (if code c =? code "-" then (true, t)
                else if code c =? code "+" then (false, t) else (false, c :: t))
               = (neg, sa) /\ c :: t = pre1 ++ sa).
    { destruct (code c =? code "-"); [exists true, t, [c]; split; reflexivity|].
      destruct (code c =? code "+"); [exists false, t, [c]; split; reflexivity|].
      exists false, (c :: t), []. split; reflexivity. }
    destruct Hsign as (neg & sa & pre1 & -> & H1).
    destruct (take_digits_suffix sa 0 0) as [pre2 H2].
    destruct (take_digits sa 0 0) as [[m n] sb]. cbn [snd] in H2.
    assert (Hfrac : exists pre3,
               sb = pre3 ++ snd (match sb with
                                 | c' :: r' =>
                                   if code c' =? code "."
                                   then let '(m', n', s3) := take_digits r' m 0 in
                                        (m', n', n + n', s3)
                                   else (m, 0, n, sb)
                                 | [] => (m, 0, n, sb)
                                 end)).
    { destruct sb as [|c' r']; [exists []; reflexivity|].
      destruct (code c' =? code "."); [|exists []; reflexivity].
      destruct (take_digits_suffix r' m 0) as [pre3 H3].
      destruct (take_digits r' m 0) as [[m' n'] s3]. cbn [snd] in *.
      exists (c' :: pre3). cbn [app]. rewrite <- H3. reflexivity. }
    destruct Hfrac as [pre3 H3].
    destruct (match sb with
              | c' :: r' =>
                if code c' =? code "."
                then let '(m', n', s3) := take_digits r' m 0 in (m', n', n + n', s3)
                else (m, 0, n, sb)
              | [] => (m, 0, n, sb)
              end) as [[[m1 nf] nd] sc]. cbn [snd] in H3.
    assert (Hall : s = (pre0 ++ pre1 ++ pre2 ++ pre3) ++ sc).
    { rewrite H0, H1, H2, H3, <- !app_assoc. reflexivity. }
    destruct (nd =? 0); intros H; injection H as _ _ <-; eexists; exact Hall.
Qed.

Lemma scan_for_stokes_triplet_suffix s st s' st' :
  scan_for_stokes_triplet fscanf_f_decimal s st = Ret (s', st') ->
  exists pre, s = pre ++ s'.
Proof.
  unfold scan_for_stokes_triplet.
  destruct (fscanf_f_decimal s) as [[r1 v1] sa] eqn:E1.
  destruct (r1 =? 0); [discriminate|].
  destruct (fscanf_f_decimal sa) as [[r2 v2] sb] eqn:E2.
  destruct (r2 =? 0); [discriminate|].
  destruct (fscanf_f_decimal sb) as [[r3 v3] sc] eqn:E3.
  destruct (r3 =? 0); [discriminate|].
  destruct (fscanf_f_decimal_suffix _ _ _ _ E1) as [p1 H1].
  destruct (fscanf_f_decimal_suffix _ _ _ _ E2) as [p2 H2].
  destruct (fscanf_f_decimal_suffix _ _ _ _ E3) as [p3 H3].
  destruct (numcoords st + 1 <=? MAX_NUM_STOKE_COORDS); [|discriminate].
  destruct (r1 =? 1); [|discriminate].
  destruct (r2 =? 1); [|discriminate].
  destruct (r3 =? 1); [|discriminate].
  intros H. injection H as <- _. exists (p1 ++ p2 ++ p3).
  rewrite H1, H2, H3, <- !app_assoc. reflexivity.
Qed.

Lemma readaway_suffix s s' :
  readaway_comments_and_blanks s = Ret s' -> exists pre, s = pre ++ s'.
Proof.
  unfold readaway_comments_and_blanks. intros H.
  destruct (readaway_loop_stops (S (List.length s)) s ltac:(lia))
    as (pre & s0 & E & Hs & _).
  rewrite E in H. injection H as ->. exists pre. exact Hs.
Qed.

Lemma scan_label_suffix s st lnum c s' st' :
  scan_label s st lnum c = Ret (s', st') -> exists pre, s = pre ++ s'.
Proof.
  intros H. apply scan_label_spec in H. destruct H as (_ & (pre & Hs) & _).
  exists (pre ++ quote_mark :: labeltext st' lnum ++ [quote_mark]).
  rewrite Hs, <- !app_assoc. cbn [app]. rewrite <- app_assoc. reflexivity.
Qed.

Lemma scan_for_tickmark_suffix s st s' st' :
  scan_for_tickmark s st = Ret (s', st') -> exists pre, s = pre ++ s'.
Proof.
  unfold scan_for_tickmark. destruct (tickmark_ s) as [b sa] eqn:E.
  apply next_is_suffix in E.
  destruct (negb (b =? 0)).
  - destruct (numtickmarks st + 1 <=? MAX_NUM_TICKMARKS); [|discriminate].
    intros H. injection H as <- _. exact E.
  - intros H. injection H as <- _. exact E.
Qed.

Lemma scan_for_tickmarklabel_suffix s st s' st' :
  scan_for_tickmarklabel s st = Ret (s', st') -> exists pre, s = pre ++ s'.
Proof.
  unfold scan_for_tickmarklabel. destruct (tickmarklabel s) as [b sa] eqn:E.
  apply next_is_suffix in E. destruct E as [p0 H0].
  destruct (negb (b =? 0)).
  - match goal with
    | |- (if ?c then _ else _) = _ -> _ => destruct c; [|discriminate]
    end.
    intros H. apply scan_label_suffix in H. destruct H as [p1 H1].
    exists (p0 ++ p1). rewrite H0, H1, <- app_assoc. reflexivity.
  - intros H. injection H as <- _. exists p0. exact H0.
Qed.

Lemma scan_triplets_closed : forall fuel s st coord s' st' coord',
  scan_triplets fscanf_f_decimal fuel s st coord = Ret (s', st', coord') ->
  exists pre, s = pre ++ "q"%char :: s'.
Proof.
  induction fuel as [|n IH]; intros s st coord s' st' coord' H; [discriminate|].
  cbn [scan_triplets] in H. unfold end_of_trajectory in H.
  destruct (next_is_cases "q" s) as [(r & -> & E)|E]; rewrite E in H.
  - cbn [Z.eqb negb] in H. injection H as <- _ _. exists []. reflexivity.
  - cbn [Z.eqb negb] in H.
    destruct (scan_for_stokes_triplet fscanf_f_decimal s st) as [[sb st1]| | |] eqn:H1;
      cbn [bind] in H; try discriminate.
    destruct (readaway_comments_and_blanks sb) as [sc| | |] eqn:R1; cbn [bind] in H;
      try discriminate.
    destruct (scan_for_tickmark sc st1) as [[sd st2]| | |] eqn:H2;
      cbn [bind] in H; try discriminate.
    destruct (readaway_comments_and_blanks sd) as [se| | |] eqn:R2; cbn [bind] in H;
      try discriminate.
    destruct (scan_for_tickmarklabel se st2) as [[sf st3]| | |] eqn:H3;
      cbn [bind] in H; try discriminate.
    destruct (readaway_comments_and_blanks sf) as [sg| | |] eqn:R3; cbn [bind] in H;
      try discriminate.
    apply scan_for_stokes_triplet_suffix in H1. destruct H1 as [p1 ->].
    apply readaway_suffix in R1. destruct R1 as [p2 ->].
    apply scan_for_tickmark_suffix in H2. destruct H2 as [p3 ->].
    apply readaway_suffix in R2. destruct R2 as [p4 ->].
    apply scan_for_tickmarklabel_suffix in H3. destruct H3 as [p5 ->].
    apply readaway_suffix in R3. destruct R3 as [p6 ->].
    destruct (IH _ _ _ _ _ _ H) as [p7 ->].
    exists (p1 ++ p2 ++ p3 ++ p4 ++ p5 ++ p6 ++ p7).
    rewrite <- !app_assoc. reflexivity.
Qed.

(** X22.  With the decimal [%f], the scan of a trajectory returns only
    when it has read a q: what it leaves of the input is a part of the
    input behind a q.  On a file without q behind the p no scan
    returns. *)
Theorem a_trajectory_is_closed_by_q
        (fuel : nat) (s : stream) (st : stoketraject) (coord : Z)
        (s' : stream) (st' : stoketraject) (coord' : Z) :
  scan_trajectory fscanf_f_decimal fuel s st coord = Ret (s', st', coord') ->
  exists pre post, s = pre ++ "q"%char :: post ++ s'.
Proof.
  unfold scan_trajectory. intros H.
  destruct (readaway_comments_and_blanks s) as [sa| | |] eqn:R0; cbn [bind] in H;
    try discriminate.
  apply readaway_suffix in R0. destruct R0 as [p0 ->].
  unfold beginlabel in H.
  destruct (next_is "b" sa) as [b sb] eqn:Eb.
  apply next_is_suffix in Eb. destruct Eb as [p1 ->].
  assert (Hb : forall sc stb,
      (if negb (b =? 0)
       then ' (s0, st0) <- scan_beginlabel sb st 1 ;;
            s1 <- readaway_comments_and_blanks s0 ;; Ret (s1, st0)
       else Ret (sb, st)) = Ret (sc, stb) ->
      exists pre, sb = pre ++ sc).
  { intros sc stb Hb. destruct (negb (b =? 0)).
    - unfold scan_beginlabel in Hb.
      destruct (scan_label sb st 1 1) as [[s0 st0]| | |] eqn:E; cbn [bind] in Hb;
        try discriminate.
      destruct (readaway_comments_and_blanks s0) as [sx| | |] eqn:R; cbn [bind] in Hb;
        try discriminate.
      injection Hb as <- _.
      apply scan_label_suffix in E. destruct E as [q1 ->].
      apply readaway_suffix in R. destruct R as [q2 ->].
      exists (q1 ++ q2). rewrite <- app_assoc. reflexivity.
    - injection Hb as <- _. exists []. reflexivity. }
  destruct (if negb (b =? 0)
            then ' (s0, st0) <- scan_beginlabel sb st 1 ;;
                 s1 <- readaway_comments_and_blanks s0 ;; Ret (s1, st0)
            else Ret (sb, st)) as [[sc stb]| | |] eqn:Ebl; cbn [bind] in H;
    try discriminate.
  destruct (Hb sc stb eq_refl) as [p2 ->]. clear Hb Ebl.
  destruct (scan_triplets fscanf_f_decimal fuel sc (set_numcoords stb 0) coord)
    as [[[sd st1] coord1]| | |] eqn:Et; cbn [bind] in H; try discriminate.
  apply scan_triplets_closed in Et. destruct Et as [p3 ->].
  destruct (readaway_comments_and_blanks sd) as [se| | |] eqn:R1; cbn [bind] in H;
    try discriminate.
  apply readaway_suffix in R1. destruct R1 as [p4 ->].
  unfold endlabel in H.
  destruct (next_is "e" se) as [e sf] eqn:Ee.
  apply next_is_suffix in Ee. destruct Ee as [p5 ->].
  assert (Hend : exists p6, sf = p6 ++ s').
  { destruct (negb (e =? 0)).
    - unfold scan_endlabel in H.
      destruct (scan_label sf st1 (MAX_NUM_LABELS + 2) coord1) as [[sg st2]| | |] eqn:E;
        cbn [bind] in H; try discriminate.
      destruct (readaway_comments_and_blanks sg) as [sh| | |] eqn:R; cbn [bind] in H;
        try discriminate.
      injection H as <- _ _.
      apply scan_label_suffix in E. destruct E as [q1 ->].
      apply readaway_suffix in R. destruct R as [q2 ->].
      exists (q1 ++ q2). rewrite <- app_assoc. reflexivity.
    - injection H as <- _ _. exists []. reflexivity. }
  destruct Hend as [p6 ->].
  exists (p0 ++ p1 ++ p2 ++ p3), (p4 ++ p5 ++ p6).
  rewrite <- !app_assoc. reflexivity.
Qed.

Lemma a_trajectory_is_closed_by_q_witness :
  exists s' st' coord',
    scan_trajectory fscanf_f_decimal 5 labelled_trajectory
                    (reset_stokes_trajectory_struct empty_trajectory) 4
    = Ret (s', st', coord') /\
    exists pre post, labelled_trajectory = pre ++ "q"%char :: post ++ s'.
Proof.
  eexists. eexists. eexists. split; [vm_compute; reflexivity|].
  eapply (a_trajectory_is_closed_by_q 5 labelled_trajectory
            (reset_stokes_trajectory_struct empty_trajectory) 4).
  vm_compute. reflexivity.
Defined.

(** ** How long the scan of a trajectory takes *)

Lemma label_text_ends : forall s k acc, label_text s k acc <> OutOfFuel.
Proof.
  induction s as [|c r IH]; intros k acc; cbn [label_text]; [discriminate|].
  destruct (code c =? code quote_mark); [discriminate|].
  destruct (code c =? code newline); [discriminate|].
  destruct (k + 1 <? 256); [apply IH | discriminate].
Qed.

Lemma scan_label_ends s st lnum c : scan_label s st lnum c <> OutOfFuel.
Proof.
  unfold scan_label. destruct (readaway_returns s) as [s0 ->]. cbn [bind].
  destruct (negb ((1 <=? lnum) && (lnum <=? MAX_NUM_LABELS + 2))); [discriminate|].
  destruct (fscanf_s s0) as [[r w] sa].
  destruct (r =? 0); [discriminate|].
  destruct (negb (r =? 1)); [discriminate|].
  destruct (256 <=? Z.of_nat (String.length w)); [discriminate|].
  destruct (label_position (c_string w)); [|discriminate].
  destruct (getc (skip_blanks sa)) as [ch sb].
  destruct (negb (ch =? code quote_mark)); [discriminate|].
  pose proof (label_text_ends sb 0 []) as Ht.
  destruct (label_text sb 0 []) as [[[k text] sc]| | |]; cbn [bind];
    try discriminate. contradiction.
Qed.

Section Turns.

Variable fscanf_f : stream -> Z * R * stream.

Lemma scan_triplets_ends : forall fuel s st coord,
  (Z.to_nat (MAX_NUM_STOKE_COORDS + 1 - numcoords st) < fuel)%nat ->
  scan_triplets fscanf_f fuel s st coord <> OutOfFuel.
Proof.
  induction fuel as [|n IH]; intros s st coord Hfuel; [lia|].
  cbn [scan_triplets]. destruct (end_of_trajectory s) as [b sa].
  destruct (negb (b =? 0)); [discriminate|].
  destruct (scan_for_stokes_triplet fscanf_f sa st) as [[sb st1]| | |] eqn:H1;
    cbn [bind]; try discriminate.
  - destruct (readaway_returns sb) as [sc ->]. cbn [bind].
    destruct (scan_for_tickmark sc st1) as [[sd st2]| | |] eqn:H2;
      cbn [bind]; try discriminate.
    + destruct (readaway_returns sd) as [se ->]. cbn [bind].
      destruct (scan_for_tickmarklabel se st2) as [[sf st3]| | |] eqn:H3;
        cbn [bind]; try discriminate.
      * destruct (readaway_returns sf) as [sg ->]. cbn [bind].
        apply IH.
        apply scan_for_stokes_triplet_spec in H1.
        destruct H1 as (Hmax & v1 & v2 & v3 & ->).
        assert (N2 : numcoords st2 = numcoords st + 1).
        { apply scan_for_tickmark_spec in H2. destruct H2 as [->|[_ ->]]; reflexivity. }
        assert (N3 : numcoords st3 = numcoords st2).
        { apply scan_for_tickmarklabel_spec in H3.
          destruct H3 as [->|(_ & sx & H3)]; [reflexivity|].
          apply scan_label_spec in H3.
          destruct H3 as (_ & _ & _ & _ & _ & _ & _ & (_ & E0 & _)). exact E0. }
        lia.
      * exfalso. unfold scan_for_tickmarklabel in H3.
        destruct (tickmarklabel se) as [b' sx].
        destruct (negb (b' =? 0)); [|discriminate].
        match type of H3 with
        | (if ?c then _ else _) = _ => destruct c; [|discriminate]
        end.
        exact (scan_label_ends _ _ _ _ H3).
    + exfalso. unfold scan_for_tickmark in H2.
      destruct (tickmark_ sc) as [b' sx].
      destruct (negb (b' =? 0)); [|discriminate].
      destruct (numtickmarks st1 + 1 <=? MAX_NUM_TICKMARKS); discriminate.
  - exfalso. unfold scan_for_stokes_triplet in H1.
    destruct (fscanf_f sa) as [[r1 v1] s1].
    destruct (r1 =? 0); [discriminate|].
    destruct (fscanf_f s1) as [[r2 v2] s2].
    destruct (r2 =? 0); [discriminate|].
    destruct (fscanf_f s2) as [[r3 v3] s3].
    destruct (r3 =? 0); [discriminate|].
    destruct (numcoords st + 1 <=? MAX_NUM_STOKE_COORDS); [|discriminate].
    destruct (r1 =? 1); [|discriminate].
    destruct (r2 =? 1); [|discriminate].
    destruct (r3 =? 1); discriminate.
Qed.

(** X23.  The loop that scans the triplets of a trajectory takes
    [MAX_NUM_STOKE_COORDS]+1 turns at most: within them the scan returns,
    the run exits, or the arrays of the samples are overrun. *)
Theorem scan_of_a_trajectory_ends
        (fuel : nat) (s : stream) (st : stoketraject) (coord : Z) :
  MAX_NUM_STOKE_COORDS + 1 < Z.of_nat fuel ->
  scan_trajectory fscanf_f fuel s st coord <> OutOfFuel.
Proof.
  intros Hfuel. unfold scan_trajectory.
  destruct (readaway_returns s) as [sa ->]. cbn [bind].
  destruct (beginlabel sa) as [b sb].
  assert (Hb : (if negb (b =? 0)
                then ' (s0, st0) <- scan_beginlabel sb st 1 ;;
                     s1 <- readaway_comments_and_blanks s0 ;; Ret (s1, st0)
                else Ret (sb, st)) <> OutOfFuel).
  { destruct (negb (b =? 0)); [|discriminate]. unfold scan_beginlabel.
    pose proof (scan_label_ends sb st 1 1) as Hl.
    destruct (scan_label sb st 1 1) as [[s0 st0]| | |]; cbn [bind];
      try discriminate; [|contradiction].
    destruct (readaway_returns s0) as [sx ->]. discriminate. }
  destruct (if negb (b =? 0)
            then ' (s0, st0) <- scan_beginlabel sb st 1 ;;
                 s1 <- readaway_comments_and_blanks s0 ;; Ret (s1, st0)
            else Ret (sb, st)) as [[sc stb]| | |]; cbn [bind];
    try discriminate; [|contradiction].
  pose proof (scan_triplets_ends fuel sc (set_numcoords stb 0) coord) as Ht.
  cbn [numcoords set_numcoords] in Ht.
  assert (Hf : (Z.to_nat (MAX_NUM_STOKE_COORDS + 1 - 0) < fuel)%nat).
  { replace (MAX_NUM_STOKE_COORDS + 1 - 0) with (MAX_NUM_STOKE_COORDS + 1) by lia.
    assert (0 <= MAX_NUM_STOKE_COORDS) by (vm_compute; discriminate). lia. }
  specialize (Ht Hf).
  destruct (scan_triplets fscanf_f fuel sc (set_numcoords stb 0) coord)
    as [[[sd st1] coord1]| | |]; cbn [bind]; try discriminate; [|contradiction].
  destruct (readaway_returns sd) as [se ->]. cbn [bind].
  destruct (endlabel se) as [e sf].
  destruct (negb (e =? 0)); [|discriminate]. unfold scan_endlabel.
  pose proof (scan_label_ends sf st1 (MAX_NUM_LABELS + 2) coord1) as Hl.
  destruct (scan_label sf st1 (MAX_NUM_LABELS + 2) coord1) as [[sg st2]| | |];
    cbn [bind]; try discriminate; [|contradiction].
  destruct (readaway_returns sg) as [sh ->]. discriminate.
Qed.

End Turns.

Lemma scan_of_a_trajectory_ends_witness :
  MAX_NUM_STOKE_COORDS + 1 < Z.of_nat (Z.to_nat (MAX_NUM_STOKE_COORDS + 2)) /\
  scan_trajectory fscanf_f_decimal (Z.to_nat (MAX_NUM_STOKE_COORDS + 2))
                  labelled_trajectory empty_trajectory 0
  <> OutOfFuel.
Proof.
  assert (H : MAX_NUM_STOKE_COORDS + 1
              < Z.of_nat (Z.to_nat (MAX_NUM_STOKE_COORDS + 2)))
    by (rewrite Z2Nat.id; [lia | vm_compute; discriminate]).
  split; [exact H|].
  exact (scan_of_a_trajectory_ends fscanf_f_decimal
           (Z.to_nat (MAX_NUM_STOKE_COORDS + 2)) labelled_trajectory
           empty_trajectory 0 H).
Defined.

(** ** The name of the program *)

Lemma char_at_app l1 a l2 :
  char_at (l1 ++ a :: l2) (Z.of_nat (List.length l1)) = Ret (code a).
Proof.
  unfold char_at. rewrite length_app. cbn [List.length].
  replace (Z.of_nat (List.length l1) <? 0) with false
    by (symmetry; apply Z.ltb_ge; lia).
  replace (Z.of_nat (List.length l1)
           <? Z.of_nat (List.length l1 + S (List.length l2))) with true
    by (symmetry; apply Z.ltb_lt; lia).
  rewrite Nat2Z.id, nth_middle. reflexivity.
Qed.

Lemma char_at_end l : char_at l (Z.of_nat (List.length l)) = Ret 0.
Proof.
  unfold char_at.
  replace (Z.of_nat (List.length l) <? 0) with false
    by (symmetry; apply Z.ltb_ge; lia).
  rewrite Z.ltb_irrefl, Z.eqb_refl. reflexivity.
Qed.

Lemma char_at_before l : char_at l (-1) = Fault.
Proof. reflexivity. Qed.

Lemma path_end_spec : forall p pre post fuel,
  Forall (fun a => pathcharacter (code a) = true) p -> path_stops post ->
  (List.length p < fuel)%nat ->
  path_end fuel (pre ++ p ++ post) (Z.of_nat (List.length pre))
  = Ret (Z.of_nat (List.length pre + List.length p)).
Proof.
  induction p as [|a p IH]; intros pre post fuel Hp Hpost Hfuel;
    (destruct fuel as [|fuel]; [cbn [List.length] in Hfuel; lia|]);
    cbn [path_end app].
  - destruct post as [|b r].
    + rewrite app_nil_r, char_at_end. cbn [bind]. rewrite Nat.add_0_r. reflexivity.
    + rewrite char_at_app. cbn [bind]. rewrite (Hpost b r eq_refl), Nat.add_0_r.
      reflexivity.
  - inversion Hp as [|? ? Ha Hp']; subst.
    rewrite char_at_app. cbn [bind]. rewrite Ha.
    replace (pre ++ a :: p ++ post) with ((pre ++ [a]) ++ p ++ post)
      by (rewrite <- app_assoc; reflexivity).
    replace (Z.of_nat (List.length pre) + 1) with (Z.of_nat (List.length (pre ++ [a])))
      by (rewrite length_app; cbn [List.length]; lia).
    rewrite IH; [|exact Hp'|exact Hpost|cbn [List.length] in Hfuel; lia].
    rewrite length_app. cbn [List.length]. f_equal. lia.
Qed.

Lemma name_start_spec pre c : isalnum (code c) = false ->
  forall w post fuel,
    Forall (fun a => isalnum (code a) = true) w ->
    (List.length w < fuel)%nat ->
    name_start fuel (pre ++ c :: w ++ post)
               (Z.of_nat (List.length pre + List.length w))
    = Ret (Z.of_nat (List.length pre)).
Proof.
  intros Hc w. induction w as [|a w IH] using rev_ind; intros post fuel Hw Hfuel;
    (destruct fuel as [|fuel]; [lia|]); cbn [name_start].
  - cbn [List.length app]. rewrite Nat.add_0_r, char_at_app. cbn [bind].
    rewrite Hc. reflexivity.
  - apply Forall_app in Hw. destruct Hw as [Hw Ha].
    inversion Ha as [|? ? Ha' _]; subst.
    rewrite length_app in *. cbn [List.length] in *.
    replace (pre ++ c :: (w ++ [a]) ++ post)
      with ((pre ++ c :: w) ++ a :: post)
      by (rewrite <- !app_assoc; reflexivity).
    replace (Z.of_nat (List.length pre + (List.length w + 1)))
      with (Z.of_nat (List.length (pre ++ c :: w)))
      by (rewrite length_app; cbn [List.length]; lia).
    rewrite char_at_app. cbn [bind]. rewrite Ha'.
    replace (Z.of_nat (List.length (pre ++ c :: w)) - 1)
      with (Z.of_nat (List.length pre + List.length w))
      by (rewrite length_app; cbn [List.length]; lia).
    replace ((pre ++ c :: w) ++ a :: post) with (pre ++ c :: w ++ a :: post)
      by (rewrite <- app_assoc; reflexivity).
    apply IH; [exact Hw | lia].
Qed.

Lemma name_start_before : forall w post fuel,
  Forall (fun a => isalnum (code a) = true) w ->
  (List.length w < fuel)%nat ->
  name_start fuel (w ++ post) (Z.of_nat (List.length w) - 1) = Fault.
Proof.
  intros w. induction w as [|a w IH] using rev_ind; intros post fuel Hw Hfuel;
    (destruct fuel as [|fuel]; [lia|]); cbn [name_start].
  - reflexivity.
  - apply Forall_app in Hw. destruct Hw as [Hw Ha].
    inversion Ha as [|? ? Ha' _]; subst.
    rewrite length_app in *. cbn [List.length] in *.
    replace (Z.of_nat (List.length w + 1) - 1) with (Z.of_nat (List.length w)) by lia.
    rewrite <- app_assoc. cbn [app].
    rewrite char_at_app. cbn [bind]. rewrite Ha'.
    apply IH; [exact Hw | lia].
Qed.

Lemma alnum_is_pathcharacter l :
  Forall (fun a => isalnum (code a) = true) l ->
  Forall (fun a => pathcharacter (code a) = true) l.
Proof.
  apply Forall_impl. intros a H. unfold pathcharacter. rewrite H. reflexivity.
Qed.

(** X24.  On a name made of path characters [strip_away_path]
    returns what follows the last character that is not alphanumeric: the
    directories are dropped, and so is everything up to the last point,
    underscore or sign of the file name.  On a name that is alphanumeric
    throughout, the second loop reads [filename[-1]]. *)
Theorem strip_away_path_returns_the_last_alphanumeric_run
        (pre : list ascii) (c : ascii) (w post : list ascii) :
  Forall (fun a => isalnum (code a) = true) w ->
  path_stops post ->
  (Forall (fun a => pathcharacter (code a) = true) pre ->
   pathcharacter (code c) = true -> isalnum (code c) = false ->
   strip_away_path (pre ++ c :: w ++ post) = Ret (w ++ post)) /\
  strip_away_path (w ++ post) = Fault.
Proof.
  intros Hw Hpost. split.
  - intros Hpre Hc Hc'. unfold strip_away_path.
    replace (pre ++ c :: w ++ post) with ([] ++ (pre ++ c :: w) ++ post)
      by (cbn [app]; rewrite <- app_assoc; reflexivity).
    rewrite (path_end_spec (pre ++ c :: w) [] post).
    + cbn [bind List.length Nat.add app].
      replace ((pre ++ c :: w) ++ post) with (pre ++ c :: w ++ post)
        by (rewrite <- app_assoc; reflexivity).
      replace (Z.of_nat (List.length (pre ++ c :: w)) - 1)
        with (Z.of_nat (List.length pre + List.length w))
        by (rewrite length_app; cbn [List.length]; lia).
      rewrite (name_start_spec pre c Hc' w post);
        [|exact Hw|rewrite !length_app; cbn [List.length]; rewrite length_app; lia].
      cbn [bind].
      replace (Z.to_nat (Z.of_nat (List.length pre) + 1))
        with (List.length (pre ++ [c]))
        by (rewrite length_app; cbn [List.length]; lia).
      replace (pre ++ c :: w ++ post) with ((pre ++ [c]) ++ w ++ post)
        by (rewrite <- app_assoc; reflexivity).
      rewrite skipn_app, skipn_all, Nat.sub_diag. reflexivity.
    + apply Forall_app. split; [exact Hpre|].
      constructor; [exact Hc | apply alnum_is_pathcharacter; exact Hw].
    + exact Hpost.
    + rewrite !length_app. cbn [List.length]. lia.
  - unfold strip_away_path.
    replace (w ++ post) with ([] ++ w ++ post) at 2 by reflexivity.
    rewrite (path_end_spec w [] post);
      [|apply alnum_is_pathcharacter; exact Hw|exact Hpost|rewrite length_app; lia].
    cbn [bind List.length Nat.add].
    rewrite name_start_before; [reflexivity | exact Hw | rewrite length_app; lia].
Qed.

Lemma strip_away_path_returns_the_last_alphanumeric_run_witness :
  Forall (fun a => isalnum (code a) = true) (chars "poincare") /\
  path_stops [] /\
  strip_away_path (chars "/usr/bin" ++ "/"%char :: chars "poincare" ++ [])
  = Ret (chars "poincare" ++ []) /\
  strip_away_path (chars "poincare" ++ []) = Fault.
Proof.
  assert (H1 : Forall (fun a => isalnum (code a) = true) (chars "poincare"))
    by (repeat constructor).
  assert (H2 : path_stops []) by (intros a r H; discriminate).
  split; [exact H1|]. split; [exact H2|].
  destruct (strip_away_path_returns_the_last_alphanumeric_run
              (chars "/usr/bin") "/"%char (chars "poincare") [] H1 H2) as [A B].
  split; [|exact B].
  apply A; [repeat constructor | reflexivity | reflexivity].
Defined.

(** ** The bounding box *)

Lemma skip_space_head s c t : skip_space s = c :: t -> isspace (code c) = false.
Proof.
  induction s as [|a r IH]; cbn [skip_space]; [discriminate|].
  destruct (isspace (code a)) eqn:E; [exact IH|].
  intros H. injection H as <- _. exact E.
Qed.

Lemma skip_space_length s : (List.length (skip_space s) <= List.length s)%nat.
Proof.
  induction s as [|a r IH]; cbn [skip_space List.length]; [lia|].
  destruct (isspace (code a)); cbn [List.length]; lia.
Qed.

Lemma take_digits_length : forall s acc n,
  (List.length (snd (take_digits s acc n)) <= List.length s)%nat.
Proof.
  induction s as [|c r IH]; intros acc n; cbn [take_digits snd List.length]; [lia|].
  destruct (isdigit (code c)); [|cbn [snd List.length]; lia].
  specialize (IH (10 * acc + (code c - code "0")) (n + 1)). lia.
Qed.

(** [%s] stores a word of the input, or meets the end of the input. *)
Lemma fscanf_s_cases s r w s' :
  fscanf_s s = (r, w, s') ->
  (r = 1 /\ (List.length s' < List.length s)%nat /\
   exists pre, s = pre ++ list_ascii_of_string w ++ s') \/
  (r = EOF /\ s' = []).
Proof.
  unfold fscanf_s. destruct (skip_space_suffix s) as [pre Hpre].
  pose proof (skip_space_length s) as Hlen.
  destruct (skip_space s) as [|c t] eqn:E.
  - intros H. injection H as <- _ <-. right. split; reflexivity.
  - pose proof (skip_space_head s c t E) as Hc.
    pose proof (take_word_app (c :: t)) as Hw.
    destruct (take_word (c :: t)) as [w' r'] eqn:Ew. cbn [fst snd] in Hw.
    intros H. injection H as <- <- <-. left. split; [reflexivity|].
    rewrite list_ascii_of_string_of_list_ascii.
    cbn [take_word] in Ew. rewrite Hc in Ew.
    destruct (take_word t) as [w0 r0]. injection Ew as <- <-.
    split.
    + apply (f_equal (@List.length ascii)) in Hw. rewrite length_app in Hw.
      cbn [List.length] in *. lia.
    + exists pre. rewrite <- Hw. exact Hpre.
Qed.

(** [%ld] stores a number, fails, or meets the end of the input. *)
Lemma read_corner_cases s corner :
  read_corner s corner = Exit FAILURE \/
  (exists v s', fscanf_ld s = (1, v, s') /\ read_corner s corner = Ret (Some v, s')) \/
  read_corner s corner = Ret (corner, []).
Proof.
  unfold read_corner, fscanf_ld.
  destruct (skip_space s) as [|c t]; [right; right; reflexivity|].
  destruct (if code c =? code "-" then (true, t)
            else if code c =? code "+" then (false, t) else (false, c :: t))
    as [neg sa].
  destruct (take_digits sa 0 0) as [[m n] sb].
  destruct (n =? 0); [left; reflexivity|].
  right. left. eexists. eexists. split; reflexivity.
Qed.

Lemma read_corner_at_end corner : read_corner [] corner = Ret (corner, []).
Proof. reflexivity. Qed.

Lemma boundingbox_test_at_end fuel t b :
  boundingbox_loop (S fuel) [] t b true = Exit FAILURE.
Proof. reflexivity. Qed.

Lemma boundingbox_test fuel c r t b :
  boundingbox_loop (S fuel) (c :: r) t b true = Ret b.
Proof.
  cbn [boundingbox_loop getc]. rewrite andb_false_r.
  pose proof (code_range c).
  replace (code c =? EOF) with false by (symmetry; apply Z.eqb_neq; unfold EOF; lia).
  reflexivity.
Qed.

(** The four reads behind the word, and the test of the loop behind them. *)
Lemma corners_read fuel sa t llx lly urx ury :
  let r := ' (llx, s) <- read_corner sa llx ;;
           ' (lly, s) <- read_corner s lly ;;
           ' (urx, s) <- read_corner s urx ;;
           ' (ury, s) <- read_corner s ury ;;
           boundingbox_loop (S fuel) s t (llx, lly, urx, ury) true in
  r = Exit FAILURE \/
  exists sb sc sd vllx vlly vurx vury ch rest,
    fscanf_ld sa = (1, vllx, sb) /\ fscanf_ld sb = (1, vlly, sc) /\
    fscanf_ld sc = (1, vurx, sd) /\ fscanf_ld sd = (1, vury, ch :: rest) /\
    r = Ret (Some vllx, Some vlly, Some vurx, Some vury).
Proof.
  cbv zeta.
  destruct (read_corner_cases sa llx) as [E1|[(v1 & sb & F1 & E1)|E1]];
    rewrite E1; cbn [bind]; [left; reflexivity| |].
  2:{ rewrite !read_corner_at_end. cbn [bind]. left. reflexivity. }
  destruct (read_corner_cases sb lly) as [E2|[(v2 & sc & F2 & E2)|E2]];
    rewrite E2; cbn [bind]; [left; reflexivity| |].
  2:{ rewrite !read_corner_at_end. cbn [bind]. left. reflexivity. }
  destruct (read_corner_cases sc urx) as [E3|[(v3 & sd & F3 & E3)|E3]];
    rewrite E3; cbn [bind]; [left; reflexivity| |].
  2:{ rewrite !read_corner_at_end. cbn [bind]. left. reflexivity. }
  destruct (read_corner_cases sd ury) as [E4|[(v4 & se & F4 & E4)|E4]];
    rewrite E4; cbn [bind]; [left; reflexivity| |left; reflexivity].
  destruct se as [|ch rest]; [left; reflexivity|].
  right. rewrite boundingbox_test.
  exists sb, sc, sd, v1, v2, v3, v4, ch, rest. repeat split; assumption.
Qed.

Lemma boundingbox_loop_spec : forall fuel s tmpstr b,
  (List.length s + 1 < fuel)%nat ->
  let r := boundingbox_loop fuel s tmpstr b false in
  r = Exit FAILURE \/ r = Fault \/
  exists b', r = Ret b' /\ holds_boundingbox s b'.
Proof.
  induction fuel as [|n IH]; intros s tmpstr b Hfuel; [lia|]. cbv zeta.
  destruct s as [|c t]; [left; reflexivity|].
  cbn [boundingbox_loop getc]. pose proof (code_range c).
  replace (code c =? EOF) with false by (symmetry; apply Z.eqb_neq; unfold EOF; lia).
  cbn [negb andb]. rewrite ungetc_code.
  destruct (fscanf_s (c :: t)) as [[r w] sa] eqn:Ef.
  destruct (fscanf_s_cases _ _ _ _ Ef) as [(-> & Hlen & pre & Hpre)|[-> ->]].
  - cbn [Z.eqb Pos.eqb andb].
    destruct (256 <=? Z.of_nat (String.length w)); [right; left; reflexivity|].
    destruct (String.eqb_spec (c_string w) BOUNDINGBOX) as [Hw|Hw].
    + destruct b as [[[llx lly] urx] ury].
      cbn [List.length] in Hfuel. destruct n as [|n]; [lia|].
      destruct (corners_read n sa (Some w) llx lly urx ury)
        as [E|(sb & sc & sd & v1 & v2 & v3 & v4 & ch & rest & F1 & F2 & F3 & F4 & E)];
        rewrite E; [left; reflexivity|].
      right. right. eexists. split; [reflexivity|].
      exists pre, w, sa, sb, sc, sd, v1, v2, v3, v4, ch, rest.
      repeat split; assumption.
    + cbn [List.length] in Hfuel, Hlen.
      destruct (IH sa (Some w) b ltac:(lia)) as [E|[E|(b' & E & Hb)]];
        [left; exact E | right; left; exact E|].
      right. right. exists b'. split; [exact E|].
      destruct Hb as (pre' & w' & s1 & s2 & s3 & s4 & v1 & v2 & v3 & v4 & ch & rest &
                      H0 & Hw' & F1 & F2 & F3 & F4 & Eb).
      exists (pre ++ list_ascii_of_string w ++ pre'), w', s1, s2, s3, s4,
             v1, v2, v3, v4, ch, rest.
      split; [|repeat split; assumption].
      rewrite Hpre, H0, <- !app_assoc. reflexivity.
  - change (EOF =? 0) with false. change (EOF =? 1) with false. cbn [andb].
    destruct tmpstr as [t0|]; [|right; left; reflexivity].
    cbn [List.length] in Hfuel. destruct n as [|n]; [lia|].
    destruct (String.eqb (c_string t0) BOUNDINGBOX).
    + destruct b as [[[llx lly] urx] ury].
      rewrite !read_corner_at_end. cbn [bind]. left. reflexivity.
    + left. reflexivity.
Qed.

(** X25.  [scan_for_boundingbox] ends on every file with a result, with
    exit(FAILURE), or by reading [tmpstr] unset or writing behind it.  When
    it returns, the file holds a word that [strcmp] reads as the word of the
    bounding box, followed by four numerals and by one character at least;
    the corners returned are the values of the four numerals, a value
    outside the range of [long] replaced by the bound of the range on its
    side ([boundingbox_beyond_long]).  A file that ends directly behind the
    fourth numeral is rejected like a file without a bounding box
    ([boundingbox_at_end_of_file]). *)
Theorem scan_for_boundingbox_result (file : option stream) :
  scan_for_boundingbox file = Exit FAILURE \/
  scan_for_boundingbox file = Fault \/
  exists s b, file = Some s /\ scan_for_boundingbox file = Ret b /\
              holds_boundingbox s b.
Proof.
  destruct file as [s|]; [|left; reflexivity].
  unfold scan_for_boundingbox.
  destruct (boundingbox_loop_spec (S (S (List.length s))) s None
              (None, None, None, None) ltac:(lia)) as [E|[E|(b' & E & Hb)]];
    [left; exact E | right; left; exact E|].
  right. right. exists s, b'. auto.
Qed.

Example boundingbox_found :
  scan_for_boundingbox (Some image_head)
  = Ret (Some 0, Some (-1), Some 100, Some 200).
Proof. vm_compute. reflexivity. Qed.

Example boundingbox_at_end_of_file :
  scan_for_boundingbox (Some image_cut_short) = Exit FAILURE.
Proof. vm_compute. reflexivity. Qed.

Example boundingbox_beyond_long :
  scan_for_boundingbox (Some image_wide)
  = Ret (Some 0, Some 0, Some LONG_MAX, Some 5).
Proof. vm_compute. reflexivity. Qed.
